(** * chemz: the FLAC track adapter (src/chemz/base.py, src/chemz/flac.py)

    A shallow embedding of [Track] and [FLACTrack].  A track object is the
    store of its slots; the tag store (mutagen's FLAC object), the image
    codec (Pillow) and the file system are the collaborators the two
    source files call, modelled here by what those calls do. *)

From Stdlib Require Import ZArith String Ascii List Bool Lia.
From Stdlib Require Import SpecFloat.
From stdpp Require Import gmap strings list fin_maps.

Local Open Scope string_scope.
Local Open Scope Z_scope.

(** ** Paths (pathlib) *)

(** A path is the sequence of its components (pathlib's [parts]); the root
    of an absolute path is the component ["/"]. *)
Abbreviation Path := (list string).

Module Pathlib.

(** [str.rfind(".")] *)
Fixpoint rfind_dot (s : string) : option nat :=
  match s with
  | EmptyString => None
  | String c r =>
      match rfind_dot r with
      | Some i => Some (S i)
      | None => if Ascii.eqb c "."%char then Some 0%nat else None
      end
  end.

(** [PurePath.name]: the last component, empty for the root and for the
    empty path. *)
Definition name (p : Path) : string :=
  match List.last p "" with
  | "/" => ""
  | n => n
  end.

(** [PurePath.suffix]: [i = name.rfind("."); name[i:] if 0 < i < len(name) - 1 else ""]. *)
Definition suffix (p : Path) : string :=
  let n := name p in
  match rfind_dot n with
  | Some i =>
      if (0 <? i)%nat && (i <? String.length n - 1)%nat
      then String.substring i (String.length n - i) n
      else ""
  | None => ""
  end.

(** [PurePath.parent]: the root and the empty path are their own parent. *)
Definition parent (p : Path) : Path :=
  match p with
  | [] => []
  | ["/"] => ["/"]
  | _ => List.removelast p
  end.

(** [p / child] for a single-component [child]. *)
Definition joinpath (p : Path) (child : string) : Path := p ++ [child].

End Pathlib.

(** ** File names given as [str] *)

Module Os.

(** [s.split("/")] *)
Fixpoint split (s : string) : list string :=
  match s with
  | EmptyString => [""]
  | String c r =>
      if Ascii.eqb c "/"%char then "" :: split r
      else
        match split r with
        | x :: xs => String c x :: xs
        | [] => [String c ""]
        end
  end.

Definition counts (component : string) : bool :=
  negb (String.eqb component "") && negb (String.eqb component ".").

(** The path the file name [s] resolves to when it is opened: the
    separators, repeated or not, divide the components, a separator in
    front is the root, and empty components and [.] count for nothing.
    As in a [Path], a component [..] is kept as it is. *)
Definition parts (s : string) : Path :=
  let rel := List.filter counts (split s) in
  if String.prefix "/" s then "/" :: rel else rel.

(** Whether [s] can name a regular file: the empty name names nothing,
    and a name that ends in a separator or in [.] names a directory. *)
Definition names_file (s : string) : bool := counts (List.last (split s) "").

End Os.

(** ** binary64 arithmetic (Python's [float]) *)

Module Float64.

Definition prec : Z := 53.
Definition emax : Z := 1024.

(** [float(n)] for an [int]: round to nearest even; an infinite result is
    Python's [OverflowError]. *)
Definition of_int (n : Z) : spec_float := binary_normalize prec emax n 0 false.

Definition div : spec_float -> spec_float -> spec_float := SFdiv prec emax.
Definition mul : spec_float -> spec_float -> spec_float := SFmul prec emax.
Definition sub : spec_float -> spec_float -> spec_float := SFsub prec emax.
Definition abs : spec_float -> spec_float := SFabs.

Definition is_zero (x : spec_float) : bool :=
  match x with S754_zero _ => true | _ => false end.

Definition is_finite (x : spec_float) : bool :=
  match x with S754_zero _ | S754_finite _ _ _ => true | _ => false end.

(** [x >= y] on floats. *)
Definition geb (x y : spec_float) : bool := SFleb y x.
Definition ltb (x y : spec_float) : bool := SFltb x y.

(** The integer part of a finite float, with the remainder discarded
    towards minus infinity ([floor]), plus infinity ([ceil]) or zero
    ([int(x)]).  [None] on an infinity or a NaN. *)
Definition floor (x : spec_float) : option Z :=
  match x with
  | S754_zero _ => Some 0
  | S754_finite s m e =>
      let v := if s then Z.neg m else Z.pos m in
      Some (if 0 <=? e then v * 2 ^ e else v / 2 ^ (- e))
  | _ => None
  end.

Definition ceil (x : spec_float) : option Z :=
  match x with
  | S754_zero _ => Some 0
  | S754_finite s m e =>
      let v := if s then Z.neg m else Z.pos m in
      Some (if 0 <=? e then v * 2 ^ e else - ((- v) / 2 ^ (- e)))
  | _ => None
  end.

Definition trunc (x : spec_float) : option Z :=
  match x with
  | S754_zero _ => Some 0
  | S754_finite s m e =>
      let v := if s then Z.neg m else Z.pos m in
      Some (if 0 <=? e then v * 2 ^ e else Z.quot v (2 ^ (- e)))
  | _ => None
  end.

End Float64.

(** ** Images and file contents *)

(** A decoded image, as far as the adapter looks at it: its [format]
    ("PNG", "JPEG", ...), its size and its Exif tags. *)
Record Image := mkImage {
  format : string;
  width : Z;
  height : Z;
  exif : gmap Z string
}.

(** The contents of a file, or of an embedded picture: an encoded image
    (identified with what it decodes to), a FLAC file with its Vorbis
    comments and picture blocks, or any other sequence of bytes. *)
Inductive bytes : Type :=
| Raw (bs : list Byte.byte)
| Encoded (img : Image)
| FlacFile (comments : list (string * string)) (pics : list picture)
with picture : Type :=
| Picture (mime : string) (data : bytes).

Definition image_width : Image -> Z := width.
Definition image_height : Image -> Z := height.

Definition mime (p : picture) : string := let 'Picture m _ := p in m.
Definition data (p : picture) : bytes := let 'Picture _ d := p in d.

(** ** Python values *)

Local Set Warnings "-register-all".

(** The objects a slot of a track, or a tag of the store, can hold.
    [VSetter] is the function [__getattr__] makes for [set_<attribute>],
    bound to a native key.  [VFlac] is mutagen's [FLAC] object: the file
    name it was opened from, its Vorbis comments in order (a list of
    key/value pairs, as mutagen keeps them) and its picture list. *)
Inductive value : Type :=
| VNone
| VStr (s : string)
| VInt (z : Z)
| VPath (p : Path)
| VImage (i : Image)
| VTuple (a b : value)
| VSetter (native : string)
| VFlac (filename : Path) (tags : list (string * value)) (pictures : list picture).

Definition type_name (v : value) : string :=
  match v with
  | VNone => "NoneType"
  | VStr _ => "str"
  | VInt _ => "int"
  | VPath _ => "PosixPath"
  | VImage _ => "Image"
  | VTuple _ _ => "tuple"
  | VSetter _ => "function"
  | VFlac _ _ _ => "FLAC"
  end.

(** [s == v] for a [str] [s]: a string equals only the same string. *)
Definition str_eq (s : string) (v : value) : bool :=
  match v with
  | VStr s' => String.eqb s s'
  | _ => false
  end.

(** ** Exceptions, state and the monad of the methods *)

(** Modelled from the spec: the exception classes of chemz/exceptions.py,
    a module of the package that is not among the source files.  Section 7
    of the spec lists them (the error of [delete_tag] under the name
    UnmappedFormatAttributeError); the names and the arguments are those
    of the import and the raise statements of flac.py. *)
Inductive chemz_exception : Type :=
| NoCoverFoundError (msg : string)
| WrongFLACAttributeError
| WrongPictureFormatError (msg : string).

Inductive exn : Type :=
| ChemzError (e : chemz_exception)
| AttributeError (msg : string)
| KeyError (key : string)
| IndexError
| TypeError (msg : string)
| ValueError (msg : string)
| ZeroDivisionError
| OverflowError
| FileNotFoundError (p : Path)
| MutagenError (p : Path)
| OSError (msg : string)
| UnidentifiedImageError.

Coercion ChemzError : chemz_exception >-> exn.

(** The state a method runs in: the slots of [self] (a slot is absent
    until it is first assigned) and the files on disk. *)
Record State := mkState {
  slots : gmap string value;
  fs : gmap Path bytes
}.

(** A method either returns or raises; the state it leaves behind is kept
    in both cases (an exception rolls nothing back). *)
Definition M (A : Type) : Type := State -> (exn + A) * State.

Definition ret {A} (a : A) : M A := fun st => (inr a, st).
Definition raise {A} (e : exn) : M A := fun st => (inl e, st).
Definition bind {A B} (m : M A) (k : A -> M B) : M B :=
  fun st =>
    match m st with
    | (inr a, st') => k a st'
    | (inl e, st') => (inl e, st')
    end.

Declare Scope py_scope.
Delimit Scope py_scope with py.
Notation "x <- m ;; k" := (bind m (fun x => k))
  (at level 100, m at next level, right associativity) : py_scope.
Notation "m ;;; k" := (bind m (fun _ => k))
  (at level 100, right associativity) : py_scope.
Local Open Scope py_scope.

Definition lift {A} (r : exn + A) : M A :=
  match r with
  | inr a => ret a
  | inl e => raise e
  end.

Definition get_slots : M (gmap string value) := fun st => (inr (slots st), st).
Definition put_slots (s : gmap string value) : M unit :=
  fun st => (inr tt, mkState s (fs st)).
Definition get_fs : M (gmap Path bytes) := fun st => (inr (fs st), st).
Definition put_fs (f : gmap Path bytes) : M unit :=
  fun st => (inr tt, mkState (slots st) f).

(** [for x in l: body(x)] *)
Fixpoint for_each {A} (l : list A) (body : A -> M unit) : M unit :=
  match l with
  | [] => ret tt
  | x :: l' => body x ;;; for_each l' body
  end.

(** ** The tag store (mutagen's [FLAC] object) *)

Module Mutagen.

Abbreviation Tags := (list (string * value)).

(** The [FLAC] object behind a [VFlac] value. *)
Record FLAC := mkFLAC {
  filename : Path;
  tags : Tags;
  pictures : list picture
}.

Definition to_value (f : FLAC) : value :=
  VFlac (filename f) (tags f) (pictures f).

Definition lower_ascii (c : ascii) : ascii :=
  let n := nat_of_ascii c in
  if (65 <=? n)%nat && (n <=? 90)%nat then ascii_of_nat (n + 32) else c.

(** [str.lower] on the ASCII range, which holds every Vorbis key. *)
Fixpoint lower (s : string) : string :=
  match s with
  | EmptyString => EmptyString
  | String c r => String (lower_ascii c) (lower r)
  end.

(** Keys of Vorbis comments are compared without regard to case. *)
Definition same_key (key : string) (kv : string * value) : bool :=
  String.eqb (lower (fst kv)) (lower key).

(** [tags[key]]: every value stored under [key], [KeyError] if none. *)
Definition getitem (tags : Tags) (key : string) : exn + list value :=
  match List.map snd (List.filter (same_key key) tags) with
  | [] => inl (KeyError key)
  | vs => inr vs
  end.

(** [del tags[key]] *)
Definition delitem (tags : Tags) (key : string) : exn + Tags :=
  if List.existsb (same_key key) tags
  then inr (List.filter (fun kv => negb (same_key key kv)) tags)
  else inl (KeyError key).

(** [tags[key] = v] for a [v] that is not a list: the old values of
    [key] are dropped and the pair is appended. *)
Definition setitem (tags : Tags) (key : string) (v : value) : Tags :=
  List.filter (fun kv => negb (same_key key kv)) tags ++ [(key, v)].

(** [tags.get(key, default)] *)
Definition get (tags : Tags) (key : string) (default : list value) : list value :=
  match getitem tags key with
  | inr vs => vs
  | inl _ => default
  end.

(** [tags.pop(key)] *)
Definition pop (tags : Tags) (key : string) : exn + (list value * Tags) :=
  match getitem tags key with
  | inl e => inl e
  | inr vs =>
      match delitem tags key with
      | inl e => inl e
      | inr tags' => inr (vs, tags')
      end
  end.

(** [FLAC(filename)], that is [FLAC.load]: the comments and pictures of
    the FLAC file. *)
Definition load (filename : Path) (files : gmap Path bytes) : exn + FLAC :=
  match files !! filename with
  | Some (FlacFile comments pics) =>
      inr (mkFLAC filename (List.map (fun kv => (fst kv, VStr (snd kv))) comments) pics)
  | _ => inl (MutagenError filename)
  end.

(** Writing the comments checks that every value is a [str]. *)
Definition is_str (v : value) : bool :=
  match v with VStr _ => true | _ => false end.

Definition validate (tags : Tags) : bool :=
  List.forallb (fun kv => is_str (snd kv)) tags.

Definition comment (kv : string * value) : string * string :=
  (fst kv, match snd kv with VStr s => s | _ => "" end).

(** [FLAC.save(filename)]: rewrites the metadata of the FLAC file at
    [filename], which has to exist. *)
Definition save (filename : Path) (tags : Tags) (pics : list picture)
    (files : gmap Path bytes) : exn + gmap Path bytes :=
  match files !! filename with
  | Some (FlacFile _ _) =>
      if validate tags
      then inr (<[filename := FlacFile (List.map comment tags) pics]> files)
      else inl (ValueError "tag values need to be str")
  | _ => inl (MutagenError filename)
  end.

(** [FLAC.delete()]: rewrites the FLAC file at [filename] without its
    Vorbis comments, the other metadata blocks (the pictures) as they are
    in memory, and then clears the comments in memory.  The file, which
    has to exist, is taken to carry a comment block, as [load] does. *)
Definition delete (f : FLAC) (files : gmap Path bytes) : exn + (FLAC * gmap Path bytes) :=
  match files !! filename f with
  | Some (FlacFile _ _) =>
      inr (mkFLAC (filename f) [] (pictures f),
           <[filename f := FlacFile [] (pictures f)]> files)
  | _ => inl (MutagenError (filename f))
  end.

End Mutagen.

(** ** The image codec (Pillow) *)

Module PIL.

(** [a / b] on two [int]s: the correctly rounded quotient. *)
Definition exact (n : Z) : spec_float :=
  match n with
  | Z0 => S754_zero false
  | Zpos p => S754_finite false p 0
  | Zneg p => S754_finite true p 0
  end.

Definition truediv (a b : Z) : exn + spec_float :=
  if b =? 0 then inl ZeroDivisionError
  else
    let q := Float64.div (exact a) (exact b) in
    if Float64.is_finite q then inr q else inl OverflowError.

(** [float(n)] *)
Definition to_float (n : Z) : exn + spec_float :=
  let x := Float64.of_int n in
  if Float64.is_finite x then inr x else inl OverflowError.

(** [n / x] for an [int] [n] and a [float] [x] *)
Definition truediv_float (n : Z) (x : spec_float) : exn + spec_float :=
  match to_float n with
  | inl e => inl e
  | inr f => if Float64.is_zero x then inl ZeroDivisionError else inr (Float64.div f x)
  end.

(** [n * x] for an [int] [n] and a [float] [x] *)
Definition mul_float (n : Z) (x : spec_float) : exn + spec_float :=
  match to_float n with
  | inl e => inl e
  | inr f => inr (Float64.mul f x)
  end.

Definition of_option (o : option Z) : exn + Z :=
  match o with
  | Some z => inr z
  | None => inl OverflowError
  end.

(** [Image.open(BytesIO(data))] *)
Definition open (b : bytes) : exn + Image :=
  match b with
  | Encoded img => inr img
  | _ => inl UnidentifiedImageError
  end.

(** [abs(aspect - q)] *)
Definition dist (aspect : spec_float) (q : exn + spec_float) : exn + spec_float :=
  match q with
  | inl e => inl e
  | inr q => inr (Float64.abs (Float64.sub aspect q))
  end.

(** [max(min(math.floor(number), math.ceil(number), key=key), 1)]:
    [min] keeps its first argument unless the key of the second is
    strictly smaller. *)
Definition round_aspect (number : spec_float) (key : Z -> exn + spec_float) : exn + Z :=
  match of_option (Float64.floor number), of_option (Float64.ceil number) with
  | inr lo, inr hi =>
      match key lo, key hi with
      | inr klo, inr khi => inr (Z.max (if Float64.ltb khi klo then hi else lo) 1)
      | inl e, _ => inl e
      | _, inl e => inl e
      end
  | inl e, _ => inl e
  | _, inl e => inl e
  end.

(** The size [Image.thumbnail((x, y))] gives an image of size [w], [h]:
    [None] when the image already fits in the box and is left as it is. *)
Definition thumbnail_size (w h x y : Z) : exn + option (Z * Z) :=
  if (w <=? x) && (h <=? y) then inr None
  else
    match truediv w h with
    | inl e => inl e
    | inr aspect =>
        match truediv x y with
        | inl e => inl e
        | inr xy =>
            if Float64.geb xy aspect then
              match mul_float y aspect with
              | inl e => inl e
              | inr number =>
                  match round_aspect number (fun n => dist aspect (truediv n y)) with
                  | inl e => inl e
                  | inr x' => inr (Some (x', y))
                  end
              end
            else
              match truediv_float x aspect with
              | inl e => inl e
              | inr number =>
                  match round_aspect number
                          (fun n => if n =? 0 then inr (S754_zero false)
                                    else dist aspect (truediv x n)) with
                  | inl e => inl e
                  | inr y' => inr (Some (x, y'))
                  end
              end
        end
    end.

(** [image.thumbnail((x, y), resample)]: the image is resampled to the
    size above, which has to be positive, and keeps its format. *)
Definition thumbnail (img : Image) (x y : Z) : exn + Image :=
  match thumbnail_size (width img) (height img) x y with
  | inl e => inl e
  | inr None => inr img
  | inr (Some (x', y')) =>
      if (x' =? width img) && (y' =? height img) then inr img
      else if (x' <? 1) || (y' <? 1)
      then inl (ValueError "height and width must be > 0")
      else inr (mkImage (format img) x' y' (exif img))
  end.

(** [image.save(path, format=fmt, quality=100, exif=tags)] is the work of
    the codec of the format: whether the image can be written in it, the
    bytes that make up the file and, when the call raises, what the file
    is left holding.  A codec is given the image, the format, the Exif
    tags and what the path holds before the call ([None]: no file); it
    answers with the content of the file, or with the error and what the
    path holds afterwards. *)
Definition Codec : Type :=
  Image -> string -> gmap Z string -> option bytes -> exn * option bytes + bytes.

Definition save (codec : Codec) (img : Image) (p : Path) (fmt : string)
    (tags : gmap Z string) : M unit :=
  files <- get_fs ;;
  match codec img fmt tags (files !! p) with
  | inr content => put_fs (<[p := content]> files)
  | inl (e, Some partial) => put_fs (<[p := partial]> files) ;;; raise e
  | inl (e, None) => put_fs (delete p files) ;;; raise e
  end.

End PIL.

(** ** Dictionaries *)

(** A [dict] with [str] keys is the list of its items, in insertion
    order. *)
Module Dict.

(** [d[k] = v]: a key that is there keeps its place. *)
Fixpoint setitem (d : list (string * value)) (k : string) (v : value) :
    list (string * value) :=
  match d with
  | [] => [(k, v)]
  | (k', v') :: d' =>
      if String.eqb k k' then (k', v) :: d' else (k', v') :: setitem d' k v
  end.

(** [d.get(k)] *)
Fixpoint get (d : list (string * value)) (k : string) : option value :=
  match d with
  | [] => None
  | (k', v') :: d' => if String.eqb k k' then Some v' else get d' k
  end.

(** [d.pop(k, None)], for its effect on [d]. *)
Definition pop (d : list (string * value)) (k : string) : list (string * value) :=
  List.filter (fun kv => negb (String.eqb k (fst kv))) d.

End Dict.

(** ** [Track] (src/chemz/base.py) *)

Module Track.

Definition __slots__ : list string :=
  [ "album"; "albumartist"; "artist"; "bpm"; "comment"; "composer";
    "conductor"; "contentgroup"; "copyright"; "cover"; "disc"; "encodedby";
    "genre"; "initialkey"; "isrc"; "lyricist"; "lyrics"; "origartist";
    "path"; "publisher"; "remixedby"; "subtitle"; "title"; "totaldiscs";
    "totaltracks"; "track"; "www"; "year" ].

(** The methods of the base class reach [hasattr] and [setattr] of the
    object they run on, which its concrete class provides. *)
Section Methods.

Variable hasattr : string -> M bool.
Variable setattr : string -> value -> M unit.

(** [_dict] is given by its items, in iteration order. *)
Definition import_from_dict (_dict : list (string * value)) : M unit :=
  for_each _dict (fun kv =>
    let '(key, v) := kv in
    b <- hasattr key ;;
    if b : bool then setattr key v
    else raise (AttributeError ("Attribute " +:+ key +:+ " not found in Track class"))).

End Methods.

Section ToDict.

(** [self.__slots__] and [getattr(self, key, default)] of the object. *)
Variable self_slots : list string.
Variable getattr_default : string -> value -> M value.

(** The loop of [export_to_dict] over the slot names [keys], from the
    dictionary [_dict] built so far. *)
Fixpoint export_keys (keys : list string) (_dict : list (string * value)) :
    M (list (string * value)) :=
  match keys with
  | [] => ret _dict
  | key :: keys' =>
      if negb (List.existsb (String.eqb key) ["path"; "cover"])
      then v <- getattr_default key VNone ;;
           export_keys keys' (Dict.setitem _dict key v)
      else export_keys keys' _dict
  end.

Definition export_to_dict : M (list (string * value)) := export_keys self_slots [].

End ToDict.

(** An f-string: literal text and the fields [{self.<name>}]. *)
Inductive part : Type :=
| Text (s : string)
| Field (name : string).

Definition nl : string := String (ascii_of_nat 10) "".
Definition tab : string := String (ascii_of_nat 9) "".

(** The f-string of [__str__], line by line. *)
Definition str_parts : list part :=
  ([ Text (tab +:+ "General Info" +:+ nl) ] ++
   [ Text "Disc Number: "; Field "disc"; Text " Disc Total: "; Field "totaldiscs"; Text nl ] ++
   [ Text "Track Number: "; Field "track"; Text " Track Total: "; Field "totaltracks";
     Text nl ] ++
   [ Text "Title: "; Field "title"; Text nl ] ++
   [ Text "Artist: "; Field "artist"; Text nl ] ++
   [ Text "Album: "; Field "album"; Text nl ] ++
   [ Text "Album Artist: "; Field "albumartist"; Text nl ] ++
   [ Text "Year: "; Field "year"; Text nl ] ++
   [ Text "Track Genre: "; Field "genre"; Text nl ] ++
   [ Text "Comment: "; Field "comment"; Text nl ] ++
   [ Text "BPM: "; Field "bpm"; Text " Key: "; Field "initialkey"; Text (nl +:+ nl) ] ++
   [ Text (tab +:+ "Extended Info" +:+ nl) ] ++
   [ Text "Original Artist: "; Field "origartist"; Text nl ] ++
   [ Text "Remixer: "; Field "remixedby"; Text nl ] ++
   [ Text "Composer: "; Field "composer"; Text nl ] ++
   [ Text "Conductor: "; Field "conductor"; Text nl ] ++
   [ Text "Group: "; Field "contentgroup"; Text nl ] ++
   [ Text "Subtitle: "; Field "subtitle"; Text nl ] ++
   [ Text "ISRC: "; Field "isrc"; Text nl ] ++
   [ Text "Publisher: "; Field "publisher"; Text nl ] ++
   [ Text "Copyright: "; Field "copyright"; Text nl ] ++
   [ Text "URL: "; Field "www"; Text nl ] ++
   [ Text "Encoded By: "; Field "encodedby"; Text (nl +:+ nl) ] ++
   [ Text (tab +:+ "Lyrics" +:+ nl) ] ++
   [ Text "Lyricist: "; Field "lyricist"; Text nl ] ++
   [ Text "Lyrics: "; Field "lyrics" ])%list.

Section Str.

(** [self.<name>] of the object, and the text [format(v)] of a value. *)
Variable getattr : string -> M value.
Variable text_of : value -> string.

(** The fields are evaluated from left to right. *)
Fixpoint fstring (parts : list part) : M string :=
  match parts with
  | [] => ret ""
  | Text s :: rest => r <- fstring rest ;; ret (s +:+ r)
  | Field name :: rest => v <- getattr name ;; r <- fstring rest ;; ret (text_of v +:+ r)
  end.

Definition __str__ : M string := fstring str_parts.

End Str.

End Track.

(** ** [FLACTrack] (src/chemz/flac.py) *)

Module FLACTrack.

Definition __slots__ : list string := Track.__slots__ ++ ["flac"].

(** The AttributeMap: canonical attribute name, native Vorbis key. *)
Definition attrs : list (string * string) :=
  [ ("album", "album"); ("albumartist", "albumartist"); ("artist", "artist");
    ("bpm", "bpm"); ("comment", "comment"); ("composer", "composer");
    ("conductor", "conductor"); ("contentgroup", "contentgroup");
    ("copyright", "copyright"); ("disc", "discnumber");
    ("encodedby", "encodedby"); ("genre", "genre");
    ("initialkey", "initialkey"); ("isrc", "isrc"); ("lyricist", "lyricist");
    ("lyrics", "lyrics"); ("origartist", "origartist");
    ("publisher", "organization"); ("remixedby", "remixedby");
    ("subtitle", "subtitle"); ("title", "title"); ("totaldiscs", "disctotal");
    ("totaltracks", "tracktotal"); ("track", "tracknumber");
    ("www", "location"); ("year", "date") ].

(** [attrs.get(name)] *)
Fixpoint assoc (name : string) (d : list (string * string)) : option string :=
  match d with
  | [] => None
  | (k, v) :: d' => if String.eqb name k then Some v else assoc name d'
  end.

(** [name in l] for a tuple or list of strings *)
Definition contains (l : list string) (name : string) : bool :=
  List.existsb (String.eqb name) l.

(** [attrs.items()]: the (key, value) tuples of the map. *)
Definition items (d : list (string * string)) : list value :=
  List.map (fun kv => VTuple (VStr (fst kv)) (VStr (snd kv))) d.

(** The names found on the class rather than in a slot: what the two
    classes define and what every object inherits. *)
Definition class_attrs : list string :=
  [ "attrs"; "export_to_dict"; "read"; "save"; "delete_tag"; "delete_tags";
    "read_cover"; "add_cover"; "resize_cover"; "export_cover"; "remove_cover";
    "import_from_dict"; "call_method";
    "__slots__"; "__init__"; "__setattr__"; "__getattr__"; "__setitem__";
    "__getitem__"; "__str__";
    "__abstractmethods__"; "__class__"; "__delattr__"; "__dir__"; "__doc__";
    "__eq__"; "__format__"; "__ge__"; "__getattribute__"; "__getstate__";
    "__gt__"; "__hash__"; "__init_subclass__"; "__le__"; "__lt__";
    "__module__"; "__ne__"; "__new__"; "__reduce__"; "__reduce_ex__";
    "__repr__"; "__sizeof__"; "__subclasshook__"; "_abc_impl" ].

Definition __setattr__ (name : string) (v : value) : M unit :=
  if contains __slots__ name || bool_decide (is_Some (assoc name attrs))
  then s <- get_slots ;; put_slots (<[name := v]> s)
  else raise (AttributeError ("Cannot set unknown attribute '" +:+ name +:+ "'")).

(** [__getattr__], called when the ordinary lookup finds nothing: a
    setter bound to the native key of [set_<attribute>].  The setter is
    decorated with [wraps(self.flac.__setitem__)], so making it looks the
    method up on the store: a [flac] slot never assigned ends in this
    very function, called for the name [flac], and a value other than a
    store has no [__setitem__]. *)
Definition __getattr__ (s : gmap string value) (name : string) : exn + value :=
  let no_attribute (name : string) :=
    AttributeError ("'FLACTrack' object has no attribute '" +:+ name +:+ "'") in
  if String.prefix "set_" name then
    match assoc (String.substring 4 (String.length name - 4) name) attrs with
    | Some flac_key =>
        if String.eqb flac_key "" then inl (no_attribute name)
        else
          match s !! "flac" with
          | Some (VFlac _ _ _) => inr (VSetter flac_key)
          | Some v =>
              inl (AttributeError
                     ("'" +:+ type_name v +:+ "' object has no attribute '__setitem__'"))
          | None => inl (no_attribute "flac")
          end
    | None => inl (no_attribute name)
    end
  else inl (no_attribute name).

(** The ordinary lookup: a slot holds a value once assigned; any other
    name is looked up on the class. *)
Definition found (s : gmap string value) (name : string) : bool :=
  if contains __slots__ name then bool_decide (is_Some (s !! name))
  else contains class_attrs name.

(** [hasattr(self, name)]: whether the lookup, [__getattr__] included,
    ends without an AttributeError. *)
Definition hasattr (name : string) : M bool :=
  s <- get_slots ;;
  ret (found s name || match __getattr__ s name with inr _ => true | inl _ => false end).

(** [self.<name>] for a name that is not defined on the class: the value
    of the slot, or what [__getattr__] makes of the name. *)
Definition getattr (name : string) : M value :=
  s <- get_slots ;;
  match s !! name with
  | Some v => ret v
  | None => lift (__getattr__ s name)
  end.

(** [getattr(self, name, default)], for such a name. *)
Definition getattr_default (name : string) (default : value) : M value :=
  s <- get_slots ;;
  ret (match s !! name with
       | Some v => v
       | None => match __getattr__ s name with inr v => v | inl _ => default end
       end).

Definition import_from_dict : list (string * value) -> M unit :=
  Track.import_from_dict hasattr __setattr__.

(** [self.flac], about to be used through its attribute [attr]. *)
Definition flac (attr : string) : M Mutagen.FLAC :=
  v <- getattr "flac" ;;
  match v with
  | VFlac filename tags pics => ret (Mutagen.mkFLAC filename tags pics)
  | _ => raise (AttributeError
           ("'" +:+ type_name v +:+ "' object has no attribute '" +:+ attr +:+ "'"))
  end.

(** The FLAC object is changed in place: the slot keeps referring to it. *)
Definition mutate_flac (f : Mutagen.FLAC) : M unit :=
  s <- get_slots ;; put_slots (<["flac" := Mutagen.to_value f]> s).

(** [self.flac.save(filename)] *)
Definition flac_save (filename : Path) : M unit :=
  f <- flac "save" ;;
  files <- get_fs ;;
  files' <- lift (Mutagen.save filename (Mutagen.tags f) (Mutagen.pictures f) files) ;;
  put_fs files'.

(** [self.path], used through its attribute [attr]. *)
Definition path (attr : string) : M Path :=
  v <- getattr "path" ;;
  match v with
  | VPath p => ret p
  | _ => raise (AttributeError
           ("'" +:+ type_name v +:+ "' object has no attribute '" +:+ attr +:+ "'"))
  end.

Definition read : M unit :=
  for_each attrs (fun kv =>
    let '(key, native) := kv in
    f <- flac "get" ;;
    match Mutagen.get (Mutagen.tags f) native [VNone] with
    | v :: _ => __setattr__ key v
    | [] => raise IndexError
    end).

(** [self.flac.save(filething)]: mutagen takes a [Path] or a [str] for
    the name of the file to write, [None] for the file the store was
    opened from, and any other value for a file object, which it checks
    by reading from it. *)
Definition flac_save_to (filething : value) : M unit :=
  match filething with
  | VPath p => flac_save p
  | VStr name =>
      if Os.names_file name then flac_save (Os.parts name)
      else flac "save" ;;; raise (MutagenError (Os.parts name))
  | VNone => f <- flac "save" ;; flac_save (Mutagen.filename f)
  | _ => flac "save" ;;; raise (ValueError "not a valid file object")
  end.

Definition save : M unit :=
  for_each attrs (fun kv =>
    let '(key, native) := kv in
    attr_value <- getattr_default key (VStr "") ;;
    let attr_value := match attr_value with VNone => VStr "" | _ => attr_value end in
    v <- getattr "flac" ;;
    match v with
    | VFlac filename tags pics =>
        mutate_flac (Mutagen.mkFLAC filename (Mutagen.setitem tags native attr_value) pics)
    | _ => raise (TypeError
             ("'" +:+ type_name v +:+ "' object does not support item assignment"))
    end) ;;;
  (v <- getattr "path" ;; flac_save_to v).

Definition delete_tag (tag : string) : M unit :=
  if List.existsb (str_eq tag) (items attrs) then
    f <- flac "pop" ;;
    r <- lift (Mutagen.pop (Mutagen.tags f) tag) ;;
    mutate_flac (Mutagen.mkFLAC (Mutagen.filename f) (snd r) (Mutagen.pictures f))
  else raise WrongFLACAttributeError.

Definition read_cover : M (option Image) :=
  f <- flac "pictures" ;;
  match Mutagen.pictures f with
  | pic :: _ =>
      img <- lift (PIL.open (data pic)) ;;
      __setattr__ "cover" (VImage img) ;;;
      ret (Some img)
  | [] => ret None
  end.

(** [FLACTrack(p)], on an object whose slots are all still empty. *)
Definition __init__ (p : Path) : M unit :=
  __setattr__ "path" (VPath p) ;;;
  (files <- get_fs ;;
   f <- lift (Mutagen.load p files) ;;
   __setattr__ "flac" (Mutagen.to_value f)) ;;;
  read ;;;
  (_ <- read_cover ;; ret tt).

Definition remove_cover : M unit :=
  f <- flac "clear_pictures" ;;
  mutate_flac (Mutagen.mkFLAC (Mutagen.filename f) (Mutagen.tags f) []) ;;;
  flac_save (Mutagen.filename f).

Definition add_cover (p : Path) : M unit :=
  if contains [".jpg"; ".jpeg"; ".png"] (Pathlib.suffix p) then
    files <- get_fs ;;
    content <- match files !! p with
               | Some b => ret b
               | None => raise (FileNotFoundError p)
               end ;;
    let cover := Picture (if String.eqb (Pathlib.suffix p) ".png"
                          then "image/png" else "image/jpeg") content in
    remove_cover ;;;
    (f <- flac "add_picture" ;;
     mutate_flac (Mutagen.mkFLAC (Mutagen.filename f) (Mutagen.tags f)
                    (Mutagen.pictures f ++ [cover])) ;;;
     flac_save (Mutagen.filename f))
  else raise (WrongPictureFormatError "Supported extensions are 'jpg', 'jpeg', 'png'.").

(** [s.replace("e", "")] *)
Fixpoint remove_e (s : string) : string :=
  match s with
  | EmptyString => EmptyString
  | String c r => if Ascii.eqb c "e"%char then remove_e r else String c (remove_e r)
  end.

(** The image [read_cover] returned is the object the slot [cover]
    refers to: what is done to the one shows in the other. *)
Definition mutate_cover (img : Image) : M unit :=
  s <- get_slots ;; put_slots (<["cover" := VImage img]> s).

(** [open(p, "wb").write(content)] *)
Definition write_file (p : Path) (content : bytes) : M unit :=
  files <- get_fs ;; put_fs (<[p := content]> files).

(** [p.unlink()] *)
Definition unlink (p : Path) : M unit :=
  files <- get_fs ;;
  match files !! p with
  | Some _ => put_fs (delete p files)
  | None => raise (FileNotFoundError p)
  end.

(** The codec behind [image.save] is an argument of the method. *)
Definition resize_cover (codec : PIL.Codec) (width : Z) (extension : option string) :
    M unit :=
  if negb (match extension with
           | None => true
           | Some e => contains ["jpg"; "jpeg"; "png"] e
           end)
  then raise (WrongPictureFormatError
                "Supported extensions are 'jpg', 'jpeg', 'png' or None.")
  else
    image <- read_cover ;;
    match image with
    | None => raise (NoCoverFoundError "No cover found to resize")
    | Some image =>
        let exif :=
          <[315 := "Blinzy a.k.a L4zzur"]> (<[305 := "Chemz v. 0.1.0"]> (exif image)) in
        let image := mkImage (format image) (image_width image)
                             (image_height image) exif in
        mutate_cover image ;;;
        let suffix :=
          match extension with
          | Some e => remove_e (Mutagen.lower e)
          | None => if String.eqb (format image) "PNG" then "png" else "jpg"
          end in
        let image_format :=
          match extension with
          | Some _ => if String.eqb suffix "png" then "PNG" else "JPEG"
          | None => format image
          end in
        aspect_ratio <- lift (PIL.truediv (image_width image)
                                          (image_height image)) ;;
        quotient <- lift (PIL.truediv_float width aspect_ratio) ;;
        height <- lift (PIL.of_option (Float64.trunc quotient)) ;;
        image <- lift (PIL.thumbnail image width height) ;;
        mutate_cover image ;;;
        track_path <- path "parent" ;;
        let temp_path :=
          Pathlib.joinpath (Pathlib.parent track_path) ("temp_cover." +:+ suffix) in
        PIL.save codec image temp_path image_format exif ;;;
        add_cover temp_path ;;;
        unlink temp_path
    end.

(** [None] is the absent result; the [print] of the directory leaves no
    trace in the state. *)
Definition export_cover (p : option Path) : M (option Path) :=
  f <- flac "pictures" ;;
  match Mutagen.pictures f with
  | [] => ret None
  | pic :: _ =>
      let suffix := if String.eqb (mime pic) "image/png" then "png" else "jpg" in
      track_path <- path "parent" ;;
      let p := match p with
               | None => Pathlib.joinpath (Pathlib.parent track_path) ("cover." +:+ suffix)
               | Some p => p
               end in
      write_file p (data pic) ;;;
      ret (Some p)
  end.

Definition export_to_dict : M (list (string * value)) :=
  _dict <- Track.export_to_dict __slots__ getattr_default ;;
  ret (Dict.pop _dict "flac").

Definition __str__ (text_of : value -> string) : M string :=
  Track.__str__ getattr text_of.

Definition delete_tags : M unit :=
  f <- flac "delete" ;;
  files <- get_fs ;;
  r <- lift (Mutagen.delete f files) ;;
  put_fs (snd r) ;;;
  mutate_flac (fst r).

(** [self.flac[flac_key] = value] *)
Definition flac_setitem (flac_key : string) (v : value) : M unit :=
  f <- getattr "flac" ;;
  match f with
  | VFlac filename tags pics =>
      mutate_flac (Mutagen.mkFLAC filename (Mutagen.setitem tags flac_key v) pics)
  | _ => raise (TypeError
           ("'" +:+ type_name f +:+ "' object does not support item assignment"))
  end.

(** [setter(value)], for the function [__getattr__] bound to [flac_key]. *)
Definition setter (flac_key : string) (v : value) : M unit := flac_setitem flac_key v.

(** [self.<name>(v)], for a name that is not defined on the class. *)
Definition call_attr (name : string) (v : value) : M unit :=
  f <- getattr name ;;
  match f with
  | VSetter flac_key => setter flac_key v
  | _ => raise (TypeError ("'" +:+ type_name f +:+ "' object is not callable"))
  end.

Definition __setitem__ (key : string) (v : value) : M unit :=
  match assoc key attrs with
  | Some flac_key => flac_setitem flac_key v
  | None => raise (KeyError ("'" +:+ key +:+ "' is not a valid attribute key"))
  end.

Definition __getitem__ (key : string) : M value :=
  match assoc key attrs with
  | Some flac_key =>
      f <- flac "get" ;;
      match Mutagen.get (Mutagen.tags f) flac_key [VStr ""] with
      | v :: _ => ret v
      | [] => raise IndexError
      end
  | None => raise (KeyError ("'" +:+ key +:+ "' is not a valid attribute key"))
  end.

End FLACTrack.

(** * Properties *)

Import FLACTrack.

(** ** Vocabulary of the statements *)

(** The canonical attributes are the names the AttributeMap declares; the
    adapter keeps three more fields of its own. *)
Definition canonical_attributes : list string := List.map fst attrs.
Definition internal_fields : list string := ["path"; "cover"; "flac"].
Definition allow_list : list string := (canonical_attributes ++ internal_fields)%list.

(** What [__setattr__] leaves behind when it accepts the assignment. *)
Definition assigned (name : string) (v : value) (st : State) : State :=
  mkState (<[name := v]> (slots st)) (fs st).

(** Whether a FLAC file is there for the store to be written to. *)
Definition is_flac_file (o : option bytes) : bool :=
  match o with
  | Some (FlacFile _ _) => true
  | _ => false
  end.

(** The picture [add_cover] makes of the file at [p]. *)
Definition cover_of (p : Path) (content : bytes) : picture :=
  Picture (if String.eqb (Pathlib.suffix p) ".png" then "image/png" else "image/jpeg")
          content.

(** A key is taken by [import_from_dict] when it names a slot that holds a
    value at the time. *)
Definition recognized (s : gmap string value) (key : string) : Prop :=
  key ∈ __slots__ /\ is_Some (s !! key).

(** The slots after assigning the items of [d], in order. *)
Definition assign_all (d : list (string * value)) (s : gmap string value) :
    gmap string value :=
  fold_left (fun s kv => <[fst kv := snd kv]> s) d s.

(** The message of the AttributeError a key that is not taken ends in: the
    one of [import_from_dict] when [hasattr] fails, the one of
    [__setattr__] when the name is found on the class but is no slot. *)
Definition rejection (s : gmap string value) (key : string) : string :=
  if found s key || match __getattr__ s key with inr _ => true | inl _ => false end
  then "Cannot set unknown attribute '" +:+ key +:+ "'"
  else "Attribute " +:+ key +:+ " not found in Track class".

(** A track opened on a FLAC file with two comments and no picture. *)
Definition song : Path := ["music"; "song.flac"].

Definition disk : gmap Path bytes :=
  {[ song := FlacFile [("TITLE", "So What"); ("ARTIST", "Miles Davis")] [] ]}.

Definition track : State := snd (__init__ song (mkState ∅ disk)).

(** What [save] writes for an attribute: its value, the empty string for
    [None] and for a slot never assigned. *)
Definition collapse (o : option value) : value :=
  match o with
  | Some VNone | None => VStr ""
  | Some v => v
  end.

(** The file [save] writes to, for a store opened from [filename] and
    the value the slot [path] holds: the file the path or the text names,
    the file the store was opened from for [None]. *)
Definition save_target (filename : Path) (v : value) : option Path :=
  match v with
  | VPath p => Some p
  | VStr name => if Os.names_file name then Some (Os.parts name) else None
  | VNone => Some filename
  | _ => None
  end.

(** The values the Vorbis comments can take: text, [None] standing for
    the empty text. *)
Definition text_or_none (o : option value) : bool :=
  match o with
  | None | Some VNone | Some (VStr _) => true
  | _ => false
  end.

(** The comments after the loop of [save] over the pairs [l]. *)
Definition store_all (l : list (string * string)) (s : gmap string value)
    (tags : Mutagen.Tags) : Mutagen.Tags :=
  fold_left (fun t kv => Mutagen.setitem t (snd kv) (collapse (s !! fst kv))) l tags.

(** The slots after the loop of [read] over the pairs [l]. *)
Definition load_all (l : list (string * string)) (tags : Mutagen.Tags)
    (s : gmap string value) : gmap string value :=
  fold_left (fun s kv => <[fst kv := hd VNone (Mutagen.get tags (snd kv) [VNone])]> s) l s.

(** The bodies of the two loops. *)
Definition save_item (kv : string * string) : M unit :=
  let '(key, native) := kv in
  attr_value <- getattr_default key (VStr "") ;;
  let attr_value := match attr_value with VNone => VStr "" | _ => attr_value end in
  v <- getattr "flac" ;;
  match v with
  | VFlac filename tags pics =>
      mutate_flac (Mutagen.mkFLAC filename (Mutagen.setitem tags native attr_value) pics)
  | _ => raise (TypeError
           ("'" +:+ type_name v +:+ "' object does not support item assignment"))
  end.

Definition read_item (kv : string * string) : M unit :=
  let '(key, native) := kv in
  f <- flac "get" ;;
  match Mutagen.get (Mutagen.tags f) native [VNone] with
  | v :: _ => __setattr__ key v
  | [] => raise IndexError
  end.

(** The float 1.0. *)
Definition one : spec_float := S754_finite false 4503599627370496 (-52).

(** The two Exif fields [resize_cover] stamps on the image (305 is
    Software, 315 is Artist). *)
Definition stamp (e : gmap Z string) : gmap Z string :=
  <[315 := "Blinzy a.k.a L4zzur"]> (<[305 := "Chemz v. 0.1.0"]> e).

Definition stamped (img : Image) : Image :=
  mkImage (format img) (width img) (height img) (stamp (exif img)).

(** The height of the box handed to [thumbnail]:
    [int(width / (image.width / image.height))]. *)
Definition box_height (img : Image) (w : Z) : exn + Z :=
  match PIL.truediv (width img) (height img) with
  | inl e => inl e
  | inr aspect_ratio =>
      match PIL.truediv_float w aspect_ratio with
      | inl e => inl e
      | inr quotient => PIL.of_option (Float64.trunc quotient)
      end
  end.

(** Suffix and format of the temporary file. *)
Definition temp_suffix (img : Image) (extension : option string) : string :=
  match extension with
  | Some e => remove_e (Mutagen.lower e)
  | None => if String.eqb (format img) "PNG" then "png" else "jpg"
  end.

Definition temp_format (img : Image) (extension : option string) : string :=
  match extension with
  | Some _ => if String.eqb (temp_suffix img extension) "png" then "PNG" else "JPEG"
  | None => format img
  end.

Definition temp_path (track_path : Path) (img : Image) (extension : option string) : Path :=
  Pathlib.joinpath (Pathlib.parent track_path)
    ("temp_cover." +:+ temp_suffix img extension).

(** The image the first picture of the store decodes to. *)
Definition stored_cover (st : State) : option Image :=
  match slots st !! "flac" with
  | Some (VFlac _ _ (Picture _ (Encoded img) :: _)) => Some img
  | _ => None
  end.

Definition size (img : Image) : Z * Z := (width img, height img).

(** The codec of the examples: it writes every image, and the file
    decodes to the image in the format and with the Exif tags it was
    saved with. *)
Definition plain : PIL.Codec :=
  fun img fmt tags _ => inr (Encoded (mkImage fmt (width img) (height img) tags)).

(** A codec that refuses to write JPEG files, as Pillow does for an image
    with an alpha channel, and leaves no file behind when it does. *)
Definition no_jpeg : PIL.Codec :=
  fun img fmt tags prior =>
    if String.eqb fmt "JPEG" then inl (OSError "cannot write mode RGBA as JPEG", None)
    else plain img fmt tags prior.

(** A track opened on a FLAC file that embeds [img] as its cover. *)
Definition cover_disk (img : Image) : gmap Path bytes :=
  {[ song := FlacFile [("TITLE", "So What")] [Picture "image/jpeg" (Encoded img)] ]}.

Definition cover_track (img : Image) : State :=
  snd (__init__ song (mkState ∅ (cover_disk img))).

Definition photo : Image := mkImage "JPEG" 1200 800 ∅.
Definition scan : Image := mkImage "JPEG" 300 408 ∅.

(** The same track once its FLAC file has gone from the disk. *)
Definition orphan_track : State := mkState (slots (cover_track photo)) ∅.

(** The track without cover, next to a picture file. *)
Definition front : Path := ["art"; "front.png"].
Definition track_and_art : State :=
  mkState (slots track) (<[front := Encoded photo]> (fs track)).

(** The track after two assignments. *)
Definition edited_track : State :=
  assigned "bpm" VNone (assigned "title" (VStr "Blue in Green") track).

(** Vocabulary of the further properties. *)

(** The value [export_to_dict] gives for a slot. *)
Definition exported (s : gmap string value) (key : string) : string * value :=
  (key, default VNone (s !! key)).

(** The comments of a FLAC file as the store holds them once loaded. *)
Definition loaded (comments : list (string * string)) : Mutagen.Tags :=
  List.map (fun kv => (fst kv, VStr (snd kv))) comments.

(** The first picture of the list, decoded. *)
Definition first_image (pics : list picture) : exn + option Image :=
  match pics with
  | [] => inr None
  | pic :: _ =>
      match PIL.open (data pic) with
      | inl e => inl e
      | inr img => inr (Some img)
      end
  end.

(** The text written for a value of the store. *)
Definition text (v : value) : string := snd (Mutagen.comment ("", v)).

(** The values a list of Vorbis comments holds under [key]. *)
Definition values_of (comments : list (string * string)) (key : string) : list string :=
  List.map snd
    (List.filter (fun kv => String.eqb (Mutagen.lower (fst kv)) (Mutagen.lower key))
       comments).

(** Whether a Vorbis key is, up to case, a native key of the pairs [l]. *)
Definition native_in (l : list (string * string)) (key : string) : bool :=
  List.existsb (fun kv => String.eqb (Mutagen.lower (snd kv)) (Mutagen.lower key)) l.

Definition is_native : string -> bool := native_in attrs.

(** The comments no canonical attribute stands for. *)
Definition foreign {A} (comments : list (string * A)) : list (string * A) :=
  List.filter (fun kv => negb (is_native (fst kv))) comments.

(** The comment [save] writes for a pair of the AttributeMap. *)
Definition written (s : gmap string value) (kv : string * string) : string * string :=
  (snd kv, text (collapse (s !! fst kv))).

(** The attributes [__str__] prints, in the order it reads them. *)
Definition fields (parts : list Track.part) : list string :=
  List.flat_map (fun p => match p with Track.Field name => [name] | Track.Text _ => [] end)
    parts.

Definition printed : list string := fields Track.str_parts.

(** A computation that leaves the files as they are, whatever it returns
    or raises. *)
Definition in_memory {A} (m : M A) : Prop := forall st, fs (snd (m st)) = fs st.

(** A track opened on the FLAC file [F]: the store and [path] refer to it. *)
Definition opened (F : Path) (st : State) : Prop :=
  (exists tags pics, slots st !! "flac" = Some (VFlac F tags pics)) /\
  slots st !! "path" = Some (VPath F).

(** On such a track the computation keeps the track on [F] and, whatever
    it returns or raises, leaves every file outside [W] as it is. *)
Definition confined (F : Path) (W : list Path) {A} (m : M A) : Prop :=
  forall st, opened F st ->
    opened F (snd (m st)) /\
    forall q, q ∉ W -> fs (snd (m st)) !! q = fs st !! q.

(** ** Lemmas *)

Example suffix_examples :
  Pathlib.suffix ["music"; "front.png"] = ".png" /\
  Pathlib.suffix ["front.JPG"] = ".JPG" /\
  Pathlib.suffix ["archive.tar.gz"] = ".gz" /\
  Pathlib.suffix [".png"] = "" /\
  Pathlib.suffix ["front."] = "" /\
  Pathlib.suffix ["music.d"; "front"] = "".
Proof. repeat split. Qed.

Lemma contains_spec (l : list string) (name : string) :
  contains l name = true <-> name ∈ l.
Proof.
  unfold contains. rewrite existsb_exists. split.
  - intros (x & Hx & Heq). apply String.eqb_eq in Heq. subst.
    by apply list_elem_of_In.
  - intros Hin. exists name. split; [by apply list_elem_of_In | apply String.eqb_refl].
Qed.

Lemma slots_are_allow_list (name : string) :
  name ∈ __slots__ <-> name ∈ allow_list.
Proof.
  rewrite <- !contains_spec.
  assert (H : forall l1 l2,
             (forall x, x ∈ l1 -> contains l2 x = true) ->
             contains l1 name = true -> contains l2 name = true).
  { intros l1 l2 Hall Hc. apply contains_spec in Hc. by apply Hall. }
  split; apply H; intros x Hx; vm_compute in Hx;
    repeat (apply elem_of_cons in Hx as [-> | Hx]; [reflexivity |]);
    by apply elem_of_nil in Hx.
Qed.

Lemma assoc_is_Some (name : string) :
  is_Some (assoc name attrs) -> name ∈ canonical_attributes.
Proof.
  unfold canonical_attributes. generalize attrs. intros d.
  induction d as [| [k v] d IH]; simpl.
  - by intros [? ?].
  - destruct (String.eqb_spec name k) as [-> | Hne].
    + intros _. apply elem_of_cons. by left.
    + intros H. apply elem_of_cons. right. by apply IH.
Qed.

Lemma setattr_guard (name : string) :
  contains __slots__ name || bool_decide (is_Some (assoc name attrs)) = true
  <-> name ∈ allow_list.
Proof.
  rewrite orb_true_iff, contains_spec, bool_decide_eq_true, slots_are_allow_list.
  split; [| by left].
  intros [H | H]; [done |]. unfold allow_list. apply elem_of_app. left.
  by apply assoc_is_Some.
Qed.

Lemma setattr_allowed (name : string) (v : value) (st : State) :
  name ∈ allow_list -> __setattr__ name v st = (inr tt, assigned name v st).
Proof. intros H. unfold __setattr__. apply setattr_guard in H. rewrite H. reflexivity. Qed.

Lemma setattr_unknown (name : string) (v : value) (st : State) :
  name ∉ allow_list ->
  __setattr__ name v st =
    (inl (AttributeError ("Cannot set unknown attribute '" +:+ name +:+ "'")), st).
Proof.
  intros H. unfold __setattr__.
  destruct (contains __slots__ name || bool_decide (is_Some (assoc name attrs)))
    eqn:E; [| reflexivity].
  apply setattr_guard in E. contradiction.
Qed.

(** C3.  Assigning to an attribute of a FLAC track goes through exactly for
    the declared canonical attributes and the adapter's own fields [path],
    [cover] and [flac]; for every other name the assignment raises an
    AttributeError that quotes the name, and the object is left as it was:
    no field is created. *)
Theorem setattr_strict_allow_list (name : string) (v : value) (st : State) :
  (name ∈ allow_list ->
     __setattr__ name v st = (inr tt, assigned name v st)) /\
  (name ∉ allow_list ->
     __setattr__ name v st =
       (inl (AttributeError ("Cannot set unknown attribute '" +:+ name +:+ "'")), st)).
Proof. split; [apply setattr_allowed | apply setattr_unknown]. Qed.

(** Running a sequence: what the first step leaves decides the rest. *)
Lemma bind_inr {A B} (m : M A) (k : A -> M B) (st st' : State) (a : A) :
  m st = (inr a, st') -> bind m k st = k a st'.
Proof. intros H. unfold bind. rewrite H. reflexivity. Qed.

Lemma bind_inl {A B} (m : M A) (k : A -> M B) (st st' : State) (e : exn) :
  m st = (inl e, st') -> bind m k st = (inl e, st').
Proof. intros H. unfold bind. rewrite H. reflexivity. Qed.

(** Access to the two fields every method starts from. *)
Lemma getattr_slot (st : State) (name : string) (v : value) :
  slots st !! name = Some v -> getattr name st = (inr v, st).
Proof. intros H. unfold getattr, bind, get_slots. rewrite H. reflexivity. Qed.

Lemma flac_slot (st : State) (attr : string) (filename : Path)
    (tags : Mutagen.Tags) (pics : list picture) :
  slots st !! "flac" = Some (VFlac filename tags pics) ->
  flac attr st = (inr (Mutagen.mkFLAC filename tags pics), st).
Proof. intros H. unfold flac, bind. rewrite (getattr_slot _ _ _ H). reflexivity. Qed.

Lemma path_slot (st : State) (attr : string) (p : Path) :
  slots st !! "path" = Some (VPath p) -> path attr st = (inr p, st).
Proof. intros H. unfold path, bind. rewrite (getattr_slot _ _ _ H). reflexivity. Qed.

Lemma read_cover_absent (st : State) (filename : Path) (tags : Mutagen.Tags) :
  slots st !! "flac" = Some (VFlac filename tags []) ->
  read_cover st = (inr None, st).
Proof.
  intros H. unfold read_cover, bind. rewrite (flac_slot _ _ _ _ _ H). reflexivity.
Qed.

Lemma read_cover_present (st : State) (filename : Path) (tags : Mutagen.Tags)
    (mime : string) (img : Image) (rest : list picture) :
  slots st !! "flac" = Some (VFlac filename tags (Picture mime (Encoded img) :: rest)) ->
  read_cover st = (inr (Some img), assigned "cover" (VImage img) st).
Proof.
  intros H. unfold read_cover, bind. rewrite (flac_slot _ _ _ _ _ H). reflexivity.
Qed.

(** A string is never one of the (key, value) tuples of the AttributeMap. *)
Lemma str_not_in_items (tag : string) :
  List.existsb (str_eq tag) (items attrs) = false.
Proof. reflexivity. Qed.

(** C1.  [delete_tag] tests [tag in self.attrs.items()], which no string
    satisfies: the call raises WrongFLACAttributeError for every name, the
    mapped ones included, and the tag store is never touched. *)
Theorem delete_tag_always_raises (tag : string) (st : State) :
  delete_tag tag st = (inl (WrongFLACAttributeError : exn), st).
Proof. unfold delete_tag. rewrite str_not_in_items. reflexivity. Qed.

(** C9.  On a track whose tag store holds no picture, [resize_cover] with
    no extension or one of jpg, jpeg, png raises NoCoverFoundError and
    leaves the whole state, tag store and files, as it was. *)
Theorem resize_cover_without_cover
    (codec : PIL.Codec) (st : State) (width : Z) (extension : option string)
    (filename : Path) (tags : Mutagen.Tags) :
  slots st !! "flac" = Some (VFlac filename tags []) ->
  extension ∈ [None; Some "jpg"; Some "jpeg"; Some "png"] ->
  resize_cover codec width extension st =
    (inl (NoCoverFoundError "No cover found to resize" : exn), st).
Proof.
  intros Hflac Hext. unfold resize_cover.
  assert (Hguard : (match extension with
                    | None => true
                    | Some e => contains ["jpg"; "jpeg"; "png"] e
                    end) = true).
  { repeat (apply elem_of_cons in Hext as [-> | Hext]; [reflexivity |]).
    by apply elem_of_nil in Hext. }
  rewrite Hguard. cbn [negb].
  rewrite (bind_inr _ _ _ _ _ (read_cover_absent _ _ _ Hflac)). reflexivity.
Qed.

(** C8.  Without a picture in the store [export_cover] returns the absent
    result and writes nothing.  Otherwise it writes the bytes of the first
    picture, as they are, to the given path, or by default to
    [cover.png] (mime image/png) or [cover.jpg] (any other mime) in the
    directory of the track, and returns that path. *)
Theorem export_cover_spec (st : State) (dest : option Path)
    (filename : Path) (tags : Mutagen.Tags) :
  (slots st !! "flac" = Some (VFlac filename tags []) ->
     export_cover dest st = (inr None, st)) /\
  (forall (pic : picture) (rest : list picture) (track_path : Path),
     slots st !! "flac" = Some (VFlac filename tags (pic :: rest)) ->
     slots st !! "path" = Some (VPath track_path) ->
     let target :=
       match dest with
       | Some p => p
       | None =>
           Pathlib.joinpath (Pathlib.parent track_path)
             (if String.eqb (mime pic) "image/png" then "cover.png" else "cover.jpg")
       end in
     export_cover dest st =
       (inr (Some target), mkState (slots st) (<[target := data pic]> (fs st)))).
Proof.
  split.
  - intros Hflac. unfold export_cover.
    rewrite (bind_inr _ _ _ _ _ (flac_slot _ _ _ _ _ Hflac)). reflexivity.
  - intros pic rest track_path Hflac Hpath target.
    unfold export_cover.
    rewrite (bind_inr _ _ _ _ _ (flac_slot _ _ _ _ _ Hflac)). cbn [Mutagen.pictures].
    rewrite (bind_inr _ _ _ _ _ (path_slot _ _ _ Hpath)). subst target.
    destruct dest as [p |]; [reflexivity |].
    destruct (String.eqb (mime pic) "image/png"); reflexivity.
Qed.

Lemma mutagen_save_ok (target : Path) (tags : Mutagen.Tags) (pics : list picture)
    (files : gmap Path bytes) :
  is_flac_file (files !! target) = true ->
  Mutagen.validate tags = true ->
  Mutagen.save target tags pics files =
    inr (<[target := FlacFile (List.map Mutagen.comment tags) pics]> files).
Proof.
  intros Hfile Hvalid. unfold Mutagen.save.
  destruct (files !! target) as [[] |]; try discriminate.
  rewrite Hvalid. reflexivity.
Qed.

Lemma mutagen_save_missing (target : Path) (tags : Mutagen.Tags) (pics : list picture)
    (files : gmap Path bytes) :
  is_flac_file (files !! target) = false ->
  Mutagen.save target tags pics files = inl (MutagenError target).
Proof.
  intros Hfile. unfold Mutagen.save.
  destruct (files !! target) as [[] |]; try discriminate; reflexivity.
Qed.

Lemma flac_save_ok (st : State) (target filename : Path) (tags : Mutagen.Tags)
    (pics : list picture) :
  slots st !! "flac" = Some (VFlac filename tags pics) ->
  is_flac_file (fs st !! target) = true ->
  Mutagen.validate tags = true ->
  flac_save target st =
    (inr tt, mkState (slots st)
               (<[target := FlacFile (List.map Mutagen.comment tags) pics]> (fs st))).
Proof.
  intros Hflac Hfile Hvalid. unfold flac_save.
  rewrite (bind_inr _ _ _ _ _ (flac_slot _ _ _ _ _ Hflac)).
  unfold bind, get_fs, put_fs, lift. cbn [Mutagen.tags Mutagen.pictures].
  rewrite (mutagen_save_ok _ _ _ _ Hfile Hvalid). reflexivity.
Qed.

Lemma flac_save_missing (st : State) (target filename : Path) (tags : Mutagen.Tags)
    (pics : list picture) :
  slots st !! "flac" = Some (VFlac filename tags pics) ->
  is_flac_file (fs st !! target) = false ->
  flac_save target st = (inl (MutagenError target), st).
Proof.
  intros Hflac Hfile. unfold flac_save.
  rewrite (bind_inr _ _ _ _ _ (flac_slot _ _ _ _ _ Hflac)).
  unfold bind, get_fs, put_fs, lift. cbn [Mutagen.tags Mutagen.pictures].
  rewrite (mutagen_save_missing _ _ _ _ Hfile). reflexivity.
Qed.

Lemma remove_cover_ok (st : State) (filename : Path) (tags : Mutagen.Tags)
    (pics : list picture) :
  slots st !! "flac" = Some (VFlac filename tags pics) ->
  is_flac_file (fs st !! filename) = true ->
  Mutagen.validate tags = true ->
  remove_cover st =
    (inr tt, mkState (<["flac" := VFlac filename tags []]> (slots st))
               (<[filename := FlacFile (List.map Mutagen.comment tags) []]> (fs st))).
Proof.
  intros Hflac Hfile Hvalid. unfold remove_cover.
  rewrite (bind_inr _ _ _ _ _ (flac_slot _ _ _ _ _ Hflac)).
  cbn [Mutagen.filename Mutagen.tags Mutagen.pictures].
  erewrite bind_inr; [| reflexivity].
  erewrite flac_save_ok; [reflexivity | | done | done].
  cbn [slots Mutagen.to_value Mutagen.filename Mutagen.tags Mutagen.pictures].
  apply lookup_insert_eq.
Qed.

Lemma remove_cover_missing (st : State) (filename : Path) (tags : Mutagen.Tags)
    (pics : list picture) :
  slots st !! "flac" = Some (VFlac filename tags pics) ->
  is_flac_file (fs st !! filename) = false ->
  remove_cover st =
    (inl (MutagenError filename),
     mkState (<["flac" := VFlac filename tags []]> (slots st)) (fs st)).
Proof.
  intros Hflac Hfile. unfold remove_cover.
  rewrite (bind_inr _ _ _ _ _ (flac_slot _ _ _ _ _ Hflac)).
  cbn [Mutagen.filename Mutagen.tags Mutagen.pictures].
  erewrite bind_inr; [| reflexivity].
  erewrite flac_save_missing; [reflexivity | | done].
  cbn [slots Mutagen.to_value Mutagen.filename Mutagen.tags Mutagen.pictures].
  apply lookup_insert_eq.
Qed.

Lemma add_cover_ok (st : State) (p : Path) (content : bytes) (filename : Path)
    (tags : Mutagen.Tags) (pics : list picture) :
  Pathlib.suffix p ∈ [".jpg"; ".jpeg"; ".png"] ->
  fs st !! p = Some content ->
  slots st !! "flac" = Some (VFlac filename tags pics) ->
  is_flac_file (fs st !! filename) = true ->
  Mutagen.validate tags = true ->
  add_cover p st =
    (inr tt,
     mkState (<["flac" := VFlac filename tags [cover_of p content]]> (slots st))
       (<[filename := FlacFile (List.map Mutagen.comment tags) [cover_of p content]]>
          (fs st))).
Proof.
  intros Hsuffix Hfile Hflac Hstore Hvalid. unfold add_cover.
  apply contains_spec in Hsuffix. rewrite Hsuffix.
  erewrite bind_inr; [| reflexivity].
  rewrite Hfile. erewrite bind_inr; [| reflexivity].
  rewrite (bind_inr _ _ _ _ _ (remove_cover_ok _ _ _ _ Hflac Hstore Hvalid)).
  erewrite bind_inr; [| apply flac_slot; apply lookup_insert_eq].
  cbn [Mutagen.filename Mutagen.tags Mutagen.pictures].
  erewrite bind_inr; [| reflexivity].
  erewrite flac_save_ok; [| apply lookup_insert_eq | | done].
  - cbn [slots fs Mutagen.to_value Mutagen.filename Mutagen.tags Mutagen.pictures app].
    rewrite !insert_insert_eq. reflexivity.
  - cbn [fs]. rewrite lookup_insert_eq. reflexivity.
Qed.

(** C7.  A path whose suffix is none of .jpg, .jpeg, .png makes [add_cover]
    raise WrongPictureFormatError with the store as it was.  With one of
    the three, a readable file and a store that can be persisted, the
    picture list afterwards is exactly one picture: the bytes of the file,
    with mime image/png for .png and image/jpeg otherwise, whatever
    pictures were there before; the FLAC file on disk holds the same. *)
Theorem add_cover_spec (st : State) (p : Path) :
  (Pathlib.suffix p ∉ [".jpg"; ".jpeg"; ".png"] ->
     add_cover p st =
       (inl (WrongPictureFormatError "Supported extensions are 'jpg', 'jpeg', 'png'." : exn),
        st)) /\
  (forall (content : bytes) (filename : Path) (tags : Mutagen.Tags)
          (pics : list picture),
     Pathlib.suffix p ∈ [".jpg"; ".jpeg"; ".png"] ->
     fs st !! p = Some content ->
     slots st !! "flac" = Some (VFlac filename tags pics) ->
     is_flac_file (fs st !! filename) = true ->
     Mutagen.validate tags = true ->
     exists st',
       add_cover p st = (inr tt, st') /\
       slots st' !! "flac" =
         Some (VFlac filename tags
                 [Picture (if String.eqb (Pathlib.suffix p) ".png"
                           then "image/png" else "image/jpeg") content]) /\
       fs st' !! filename =
         Some (FlacFile (List.map Mutagen.comment tags)
                 [Picture (if String.eqb (Pathlib.suffix p) ".png"
                           then "image/png" else "image/jpeg") content])).
Proof.
  split.
  - intros Hsuffix. unfold add_cover.
    destruct (contains [".jpg"; ".jpeg"; ".png"] (Pathlib.suffix p)) eqn:E;
      [| reflexivity].
    apply contains_spec in E. contradiction.
  - intros content filename tags pics Hsuffix Hfile Hflac Hstore Hvalid.
    eexists. split; [by eapply add_cover_ok |].
    cbn [slots fs]. rewrite !lookup_insert_eq. done.
Qed.

(** ** [import_from_dict] *)

Lemma slot_has_no_setter (key : string) :
  key ∈ __slots__ -> forall s, exists e, __getattr__ s key = inl e.
Proof.
  intros H s. vm_compute in H.
  repeat (apply elem_of_cons in H as [-> | H]; [eexists; reflexivity |]).
  by apply elem_of_nil in H.
Qed.

Lemma hasattr_recognized (st : State) (key : string) :
  recognized (slots st) key -> hasattr key st = (inr true, st).
Proof.
  intros [Hslot Hset]. unfold hasattr, bind, get_slots, ret, found.
  apply contains_spec in Hslot. rewrite Hslot.
  rewrite (bool_decide_eq_true_2 _ Hset). reflexivity.
Qed.

Lemma import_step_recognized (st : State) (key : string) (v : value)
    (d : list (string * value)) :
  recognized (slots st) key ->
  import_from_dict ((key, v) :: d) st = import_from_dict d (assigned key v st).
Proof.
  intros Hrec. unfold import_from_dict, Track.import_from_dict.
  cbn [for_each]. unfold bind at 1. unfold bind at 1.
  rewrite (hasattr_recognized _ _ Hrec).
  destruct Hrec as [Hslot _].
  assert (Hallow : key ∈ allow_list) by by apply slots_are_allow_list.
  rewrite (setattr_allowed key v st Hallow). reflexivity.
Qed.

Lemma import_step_rejected (st : State) (key : string) (v : value)
    (d : list (string * value)) :
  ~ recognized (slots st) key ->
  import_from_dict ((key, v) :: d) st =
    (inl (AttributeError (rejection (slots st) key)), st).
Proof.
  intros Hrec. unfold import_from_dict, Track.import_from_dict.
  cbn [for_each]. unfold bind at 1. unfold bind at 1.
  unfold hasattr, bind, get_slots, ret, rejection.
  destruct (found (slots st) key
            || match __getattr__ (slots st) key with
               | inr _ => true
               | inl _ => false
               end) eqn:E;
    [| reflexivity].
  assert (Hno : key ∉ allow_list).
  { intros Hallow. apply slots_are_allow_list in Hallow.
    destruct (slot_has_no_setter key Hallow (slots st)) as [e He].
    rewrite He, orb_false_r in E. unfold found in E.
    apply contains_spec in Hallow as Hc. rewrite Hc in E.
    apply bool_decide_eq_true in E. apply Hrec. split; [done |]. exact E. }
  rewrite (setattr_unknown key v st Hno). reflexivity.
Qed.

Lemma recognized_assigned (s : gmap string value) (key key' : string) (v : value) :
  recognized s key -> (recognized (<[key := v]> s) key' <-> recognized s key').
Proof.
  intros [_ Hset]. unfold recognized. split; intros [Hslot H]; split; try done.
  - destruct (decide (key = key')) as [<- | Hne]; [done |].
    by rewrite lookup_insert_ne in H.
  - destruct (decide (key = key')) as [<- | Hne].
    + rewrite lookup_insert_eq. by eexists.
    + by rewrite lookup_insert_ne.
Qed.

Lemma import_recognized_prefix (done_ rest : list (string * value)) (st : State) :
  Forall (fun kv => recognized (slots st) (fst kv)) done_ ->
  import_from_dict (done_ ++ rest) st =
    import_from_dict rest (mkState (assign_all done_ (slots st)) (fs st)).
Proof.
  revert st. induction done_ as [| [key v] done_ IH]; intros st Hall.
  - destruct st. reflexivity.
  - apply Forall_cons in Hall as [Hkey Hall]. cbn [fst] in Hkey.
    cbn [app]. rewrite (import_step_recognized _ _ _ _ Hkey).
    rewrite IH.
    + reflexivity.
    + eapply Forall_impl; [exact Hall |]. intros kv Hkv. cbn [assigned slots].
      by apply recognized_assigned.
Qed.

Lemma assign_all_recognized (d : list (string * value)) (s : gmap string value)
    (key : string) :
  Forall (fun kv => recognized s (fst kv)) d ->
  (recognized (assign_all d s) key <-> recognized s key) /\
  (~ recognized s key -> assign_all d s !! key = s !! key).
Proof.
  revert s. induction d as [| [k v] d IH]; intros s Hall; [done |].
  apply Forall_cons in Hall as [Hk Hall]. cbn [fst] in Hk.
  assert (Hall' : Forall (fun kv => recognized (<[k := v]> s) (fst kv)) d).
  { eapply Forall_impl; [exact Hall |]. intros kv Hkv. by apply recognized_assigned. }
  destruct (IH _ Hall') as [IH1 IH2]. cbn [assign_all fold_left fst snd].
  split.
  - etransitivity; [exact IH1 |]. by apply recognized_assigned.
  - intros Hnot. unfold assign_all in IH2. rewrite IH2.
    + apply lookup_insert_ne. intros ->. contradiction.
    + intros H. apply Hnot. by eapply recognized_assigned.
Qed.

(** C2, as the code has it.  [import_from_dict] takes the items in order.
    A key that names a slot holding a value (a canonical attribute, or one
    of [path], [cover], [flac]) is assigned.  The first key that does not
    stops the import with an AttributeError whose message quotes the key;
    no slot is created for that key, and the keys assigned before it keep
    their new values. *)
Theorem import_from_dict_spec (st : State) (taken : list (string * value)) :
  Forall (fun kv => recognized (slots st) (fst kv)) taken ->
  import_from_dict taken st = (inr tt, mkState (assign_all taken (slots st)) (fs st)) /\
  (forall (key : string) (v : value) (rest : list (string * value)),
     ~ recognized (slots st) key ->
     let after := assign_all taken (slots st) in
     import_from_dict (taken ++ (key, v) :: rest) st =
       (inl (AttributeError (rejection after key)), mkState after (fs st)) /\
     (rejection after key = "Attribute " +:+ key +:+ " not found in Track class" \/
      rejection after key = "Cannot set unknown attribute '" +:+ key +:+ "'") /\
     after !! key = slots st !! key).
Proof.
  intros Hall. split.
  - rewrite <- (app_nil_r taken) at 1. rewrite (import_recognized_prefix _ _ _ Hall).
    reflexivity.
  - intros key v rest Hnot after.
    destruct (assign_all_recognized taken (slots st) key Hall) as [Hiff Hsame].
    split; [| split].
    + rewrite (import_recognized_prefix _ _ _ Hall).
      rewrite import_step_rejected; [reflexivity |].
      cbn [slots]. intros H. apply Hnot. by apply Hiff.
    + unfold rejection. destruct (_ || _); [right | left]; reflexivity.
    + by apply Hsame.
Qed.

(** C2 as stated fails: ["flac"] is not a canonical attribute, yet an
    import that carries this key goes through and replaces the handle of
    the tag store. *)
Lemma import_from_dict_takes_flac :
("flac" ∉ canonical_attributes) /\
  import_from_dict [("flac", VNone)] track = (inr tt, assigned "flac" VNone track).
Proof.
  split.
  - apply (bool_decide_unpack _). vm_compute. exact I.
  - vm_compute. reflexivity.
Qed.

(** ** [save] and [read] *)

Lemma same_key_other (k k' : string) (kv : string * value) :
  Mutagen.lower k <> Mutagen.lower k' ->
  Mutagen.same_key k kv = true -> Mutagen.same_key k' kv = false.
Proof.
  unfold Mutagen.same_key. intros Hne H. apply String.eqb_eq in H.
  apply String.eqb_neq. congruence.
Qed.

Lemma getitem_setitem_eq (tags : Mutagen.Tags) (k : string) (v : value) :
  Mutagen.getitem (Mutagen.setitem tags k v) k = inr [v].
Proof.
  unfold Mutagen.getitem, Mutagen.setitem. rewrite List.filter_app.
  assert (H : List.filter (Mutagen.same_key k)
                (List.filter (fun kv => negb (Mutagen.same_key k kv)) tags) = []).
  { induction tags as [| kv tags IH]; [reflexivity |]. cbn [List.filter].
    destruct (Mutagen.same_key k kv) eqn:E; cbn [negb]; [exact IH |].
    cbn [List.filter]. rewrite E. exact IH. }
  rewrite H. cbn [app List.filter]. unfold Mutagen.same_key at 1. cbn [fst].
  rewrite String.eqb_refl. reflexivity.
Qed.

Lemma getitem_setitem_ne (tags : Mutagen.Tags) (k k' : string) (v : value) :
  Mutagen.lower k <> Mutagen.lower k' ->
  Mutagen.getitem (Mutagen.setitem tags k' v) k = Mutagen.getitem tags k.
Proof.
  intros Hne. unfold Mutagen.getitem, Mutagen.setitem. rewrite List.filter_app.
  assert (H : List.filter (Mutagen.same_key k)
                (List.filter (fun kv => negb (Mutagen.same_key k' kv)) tags)
              = List.filter (Mutagen.same_key k) tags).
  { induction tags as [| kv tags IH]; [reflexivity |]. cbn [List.filter].
    destruct (Mutagen.same_key k kv) eqn:E.
    - rewrite (same_key_other _ _ _ Hne E). cbn [negb List.filter].
      rewrite E, IH. reflexivity.
    - destruct (Mutagen.same_key k' kv); cbn [negb List.filter];
        [| rewrite E]; exact IH. }
  rewrite H. cbn [List.filter]. unfold Mutagen.same_key at 2. cbn [fst].
  assert (E : String.eqb (Mutagen.lower k') (Mutagen.lower k) = false).
  { apply String.eqb_neq. congruence. }
  rewrite E, app_nil_r. reflexivity.
Qed.

Lemma store_all_cons (key native : string) (l : list (string * string))
    (s : gmap string value) (tags : Mutagen.Tags) :
  store_all ((key, native) :: l) s tags =
    store_all l s (Mutagen.setitem tags native (collapse (s !! key))).
Proof. reflexivity. Qed.

Lemma get_store_all_other (l : list (string * string)) (s : gmap string value)
    (tags : Mutagen.Tags) (k : string) (d : list value) :
  Forall (fun kv => Mutagen.lower k <> Mutagen.lower (snd kv)) l ->
  Mutagen.get (store_all l s tags) k d = Mutagen.get tags k d.
Proof.
  revert tags. induction l as [| [key native] l IH]; intros tags Hall; [reflexivity |].
  apply Forall_cons in Hall as [Hne Hall]. cbn [snd] in Hne.
  rewrite store_all_cons, (IH _ Hall).
  unfold Mutagen.get. rewrite (getitem_setitem_ne _ _ _ _ Hne). reflexivity.
Qed.

Lemma get_store_all (l : list (string * string)) (s : gmap string value)
    (tags : Mutagen.Tags) (key native : string) (d : list value) :
  NoDup (List.map (fun kv => Mutagen.lower (snd kv)) l) ->
  (key, native) ∈ l ->
  Mutagen.get (store_all l s tags) native d = [collapse (s !! key)].
Proof.
  revert tags. induction l as [| [key0 native0] l IH]; intros tags Hnodup Hin.
  - by apply elem_of_nil in Hin.
  - cbn [List.map snd] in Hnodup. apply NoDup_cons in Hnodup as [Hfresh Hnodup].
    rewrite store_all_cons.
    apply elem_of_cons in Hin as [Heq | Hin].
    + injection Heq as -> ->. rewrite get_store_all_other.
      * unfold Mutagen.get. rewrite getitem_setitem_eq. reflexivity.
      * apply Forall_forall. intros [k n] Hkn Heq. apply Hfresh.
        rewrite Heq. apply (list_elem_of_fmap_2 (fun kv => Mutagen.lower (snd kv)) _ _ Hkn).
    + by apply IH.
Qed.

Lemma save_unfold :
  save = (for_each attrs save_item ;;;
          (v <- getattr "path" ;; flac_save_to v)).
Proof. reflexivity. Qed.

Lemma read_unfold : read = for_each attrs read_item.
Proof. reflexivity. Qed.

Lemma store_all_ext (l : list (string * string)) (s s' : gmap string value)
    (tags : Mutagen.Tags) :
  Forall (fun kv => s' !! fst kv = s !! fst kv) l ->
  store_all l s' tags = store_all l s tags.
Proof.
  revert tags. induction l as [| [key native] l IH]; intros tags Hall; [reflexivity |].
  apply Forall_cons in Hall as [Hk Hall]. cbn [fst] in Hk.
  rewrite !store_all_cons, Hk. by apply IH.
Qed.

Lemma save_item_ok (key native : string) (s : gmap string value)
    (files : gmap Path bytes) (filename : Path) (tags : Mutagen.Tags)
    (pics : list picture) :
  s !! "flac" = Some (VFlac filename tags pics) ->
  (forall s', exists e, __getattr__ s' key = inl e) ->
  save_item (key, native) (mkState s files) =
    (inr tt,
     mkState (<["flac" := VFlac filename
                            (Mutagen.setitem tags native (collapse (s !! key))) pics]> s)
             files).
Proof.
  intros Hflac Hplain. destruct (Hplain s) as [e He]. unfold save_item.
  erewrite bind_inr; [| reflexivity].
  erewrite bind_inr; [| apply getattr_slot; exact Hflac].
  cbn [slots]. unfold mutate_flac, bind, get_slots, put_slots. cbn [slots fs].
  unfold Mutagen.to_value. cbn [Mutagen.filename Mutagen.tags Mutagen.pictures].
  rewrite He. destruct (s !! key) as [[] |]; reflexivity.
Qed.

Lemma save_loop (l : list (string * string)) (s : gmap string value)
    (files : gmap Path bytes) (filename : Path) (tags : Mutagen.Tags)
    (pics : list picture) :
  s !! "flac" = Some (VFlac filename tags pics) ->
  Forall (fun kv => fst kv <> "flac" /\
                   forall s', exists e, __getattr__ s' (fst kv) = inl e) l ->
  for_each l save_item (mkState s files) =
    (inr tt, mkState (<["flac" := VFlac filename (store_all l s tags) pics]> s) files).
Proof.
  revert s tags. induction l as [| [key native] l IH]; intros s tags Hflac Hall.
  - cbn [for_each store_all fold_left]. rewrite (insert_id _ _ _ Hflac). reflexivity.
  - apply Forall_cons in Hall as [[Hkey Hplain] Hall]. cbn [fst] in Hkey, Hplain.
    cbn [for_each].
    rewrite (bind_inr _ _ _ _ _ (save_item_ok key native _ _ _ _ _ Hflac Hplain)).
    rewrite (IH _ _ (lookup_insert_eq _ _ _) Hall).
    rewrite insert_insert_eq, store_all_cons. f_equal. f_equal. f_equal. f_equal.
    apply store_all_ext. eapply Forall_impl; [exact Hall |].
    intros kv [Hkv _]. by apply lookup_insert_ne.
Qed.

Lemma attrs_keys_plain :
  Forall (fun kv => fst kv <> "flac" /\
                   forall s', exists e, __getattr__ s' (fst kv) = inl e) attrs.
Proof.
  apply Forall_forall. intros kv Hkv. vm_compute in Hkv.
  repeat (apply elem_of_cons in Hkv as [-> | Hkv];
          [split; [discriminate | intros s'; eexists; reflexivity] |]).
  by apply elem_of_nil in Hkv.
Qed.

Lemma save_item_fails (kv : string * string) (st : State) :
  (forall filename tags pics, slots st !! "flac" <> Some (VFlac filename tags pics)) ->
  exists e, save_item kv st = (inl e, st).
Proof.
  intros Hno. destruct kv as [key native]. unfold save_item.
  erewrite bind_inr; [| reflexivity].
  unfold bind at 1. unfold getattr, bind at 1. unfold get_slots.
  destruct (slots st !! "flac") as [v |] eqn:E.
  - destruct v; try (eexists; reflexivity). exfalso. by eapply Hno.
  - eexists. reflexivity.
Qed.

Lemma flac_save_slots (p : Path) (st st' : State) :
  flac_save p st = (inr tt, st') -> slots st' = slots st.
Proof.
  unfold flac_save, bind, flac, getattr, bind, get_slots, get_fs, put_fs, lift, ret, raise.
  destruct (slots st !! "flac") as [[] |]; try discriminate.
  cbn [Mutagen.tags Mutagen.pictures].
  destruct (Mutagen.save _ _ _ _); [discriminate |].
  intros [= <-]. reflexivity.
Qed.

Lemma flac_save_to_slots (v : value) (st st' : State) :
  flac_save_to v st = (inr tt, st') -> slots st' = slots st.
Proof.
  destruct v as [| name | | p | | | |]; cbn [flac_save_to];
    try (unfold bind, flac, getattr, bind, get_slots, ret, raise;
         destruct (slots st !! "flac") as [[] |]; discriminate).
  - unfold bind at 1. unfold flac, bind at 1, getattr, bind at 1, get_slots, ret, raise.
    destruct (slots st !! "flac") as [[] |]; try discriminate.
    apply flac_save_slots.
  - destruct (Os.names_file name); [apply flac_save_slots |].
    unfold bind, flac, getattr, bind, get_slots, ret, raise.
    destruct (slots st !! "flac") as [[] |]; discriminate.
  - apply flac_save_slots.
Qed.

Lemma save_slots (st st1 : State) :
  save st = (inr tt, st1) ->
  exists filename tags pics,
    slots st !! "flac" = Some (VFlac filename tags pics) /\
    slots st1 =
      <["flac" := VFlac filename (store_all attrs (slots st) tags) pics]> (slots st).
Proof.
  intros Hsave.
  destruct (slots st !! "flac") as [v |] eqn:E.
  2: { destruct (save_item_fails ("album", "album") st) as [e He].
       - intros ? ? ?. by rewrite E.
       - rewrite save_unfold in Hsave. unfold attrs in Hsave at 1.
         cbn [for_each] in Hsave.
         erewrite bind_inl in Hsave; [discriminate |].
         erewrite bind_inl; [reflexivity | exact He]. }
  destruct v as [| | | | | | | filename tags pics].
  1-7: destruct (save_item_fails ("album", "album") st) as [e He];
       [ intros ? ? ?; by rewrite E
       | rewrite save_unfold in Hsave; unfold attrs in Hsave at 1;
         cbn [for_each] in Hsave;
         erewrite bind_inl in Hsave;
           [discriminate | erewrite bind_inl; [reflexivity | exact He]] ].
  exists filename, tags, pics. split; [reflexivity |].
  rewrite save_unfold in Hsave. destruct st as [s files]. cbn [slots] in *.
  erewrite bind_inr in Hsave.
  2: { apply save_loop; [exact E | apply attrs_keys_plain]. }
  unfold bind at 1 in Hsave. unfold getattr, bind at 1 in Hsave.
  unfold get_slots at 1 in Hsave. cbn [slots] in Hsave.
  destruct (_ !! "path") as [v |] in Hsave; [| discriminate].
  apply flac_save_to_slots in Hsave. exact Hsave.
Qed.

Lemma get_nonempty (tags : Mutagen.Tags) (k : string) :
  exists v rest, Mutagen.get tags k [VNone] = v :: rest.
Proof.
  unfold Mutagen.get, Mutagen.getitem.
  destruct (List.map snd (List.filter (Mutagen.same_key k) tags)) as [| v rest];
    eexists; eexists; reflexivity.
Qed.

Lemma load_all_cons (key native : string) (l : list (string * string))
    (tags : Mutagen.Tags) (s : gmap string value) :
  load_all ((key, native) :: l) tags s =
    load_all l tags (<[key := hd VNone (Mutagen.get tags native [VNone])]> s).
Proof. reflexivity. Qed.

Lemma read_item_ok (key native : string) (s : gmap string value)
    (files : gmap Path bytes) (filename : Path) (tags : Mutagen.Tags)
    (pics : list picture) :
  s !! "flac" = Some (VFlac filename tags pics) ->
  key ∈ allow_list ->
  read_item (key, native) (mkState s files) =
    (inr tt, mkState (<[key := hd VNone (Mutagen.get tags native [VNone])]> s) files).
Proof.
  intros Hflac Hkey. unfold read_item.
  erewrite bind_inr; [| apply flac_slot; exact Hflac].
  cbn [Mutagen.tags].
  destruct (get_nonempty tags native) as (v & rest & ->). cbn [hd].
  apply (setattr_allowed key v (mkState s files) Hkey).
Qed.

Lemma read_loop (l : list (string * string)) (s : gmap string value)
    (files : gmap Path bytes) (filename : Path) (tags : Mutagen.Tags)
    (pics : list picture) :
  s !! "flac" = Some (VFlac filename tags pics) ->
  Forall (fun kv => fst kv ∈ allow_list /\ fst kv <> "flac") l ->
  for_each l read_item (mkState s files) = (inr tt, mkState (load_all l tags s) files).
Proof.
  revert s. induction l as [| [key native] l IH]; intros s Hflac Hall; [reflexivity |].
  apply Forall_cons in Hall as [[Hallow Hkey] Hall]. cbn [fst] in Hallow, Hkey.
  cbn [for_each].
  rewrite (bind_inr _ _ _ _ _ (read_item_ok key native _ _ _ _ _ Hflac Hallow)).
  rewrite load_all_cons. apply IH; [| exact Hall].
  rewrite lookup_insert_ne; [exact Hflac | congruence].
Qed.

Lemma load_all_other (l : list (string * string)) (tags : Mutagen.Tags)
    (s : gmap string value) (key : string) :
  key ∉ List.map fst l -> load_all l tags s !! key = s !! key.
Proof.
  revert s. induction l as [| [k n] l IH]; intros s Hnot; [reflexivity |].
  cbn [List.map fst] in Hnot. apply not_elem_of_cons in Hnot as [Hne Hnot].
  rewrite load_all_cons, (IH _ Hnot). by apply lookup_insert_ne.
Qed.

Lemma load_all_lookup (l : list (string * string)) (tags : Mutagen.Tags)
    (s : gmap string value) (key native : string) :
  NoDup (List.map fst l) ->
  (key, native) ∈ l ->
  load_all l tags s !! key = Some (hd VNone (Mutagen.get tags native [VNone])).
Proof.
  revert s. induction l as [| [k n] l IH]; intros s Hnodup Hin.
  - by apply elem_of_nil in Hin.
  - cbn [List.map fst] in Hnodup. apply NoDup_cons in Hnodup as [Hfresh Hnodup].
    rewrite load_all_cons. apply elem_of_cons in Hin as [Heq | Hin].
    + injection Heq as -> ->. rewrite (load_all_other _ _ _ _ Hfresh).
      apply lookup_insert_eq.
    + by apply IH.
Qed.

(** The AttributeMap is one to one, also when the case of the native keys
    is ignored, and never names the handle of the store. *)
Lemma attrs_keys_nodup : NoDup (List.map fst attrs).
Proof. apply (bool_decide_unpack _). vm_compute. exact I. Qed.

Lemma attrs_natives_nodup : NoDup (List.map (fun kv => Mutagen.lower (snd kv)) attrs).
Proof. apply (bool_decide_unpack _). vm_compute. exact I. Qed.

Lemma attrs_keys_allowed :
  Forall (fun kv => fst kv ∈ allow_list /\ fst kv <> "flac") attrs.
Proof.
  apply Forall_forall. intros kv Hkv. split.
  - unfold allow_list. apply elem_of_app. left. unfold canonical_attributes.
    by apply (list_elem_of_fmap_2 fst).
  - vm_compute in Hkv.
    repeat (apply elem_of_cons in Hkv as [-> | Hkv]; [discriminate |]).
    by apply elem_of_nil in Hkv.
Qed.

Lemma validate_setitem (tags : Mutagen.Tags) (k : string) (v : value) :
  Mutagen.validate tags = true -> Mutagen.is_str v = true ->
  Mutagen.validate (Mutagen.setitem tags k v) = true.
Proof.
  unfold Mutagen.validate, Mutagen.setitem. intros Htags Hv.
  rewrite forallb_app. apply andb_true_iff. split.
  - rewrite forallb_forall in *. intros kv Hkv.
    apply filter_In in Hkv as [Hkv _]. by apply Htags.
  - cbn. by rewrite Hv.
Qed.

Lemma validate_store_all (l : list (string * string)) (s : gmap string value)
    (tags : Mutagen.Tags) :
  Mutagen.validate tags = true ->
  Forall (fun kv => text_or_none (s !! fst kv) = true) l ->
  Mutagen.validate (store_all l s tags) = true.
Proof.
  revert tags. induction l as [| [key native] l IH]; intros tags Htags Hall; [done |].
  apply Forall_cons in Hall as [Hkey Hall]. cbn [fst] in Hkey.
  rewrite store_all_cons. apply IH; [| exact Hall].
  apply validate_setitem; [exact Htags |].
  destruct (s !! key) as [[] |]; try discriminate; reflexivity.
Qed.

Lemma get_singleton (tags : Mutagen.Tags) (key : string) (v : value) :
  Mutagen.get tags key [] = [v] ->
  List.map snd (List.filter (Mutagen.same_key key) tags) = [v].
Proof.
  unfold Mutagen.get, Mutagen.getitem.
  destruct (List.map snd (List.filter (Mutagen.same_key key) tags)); [discriminate | done].
Qed.

Lemma validate_false (tags : Mutagen.Tags) (key : string) (v : value) :
  List.map snd (List.filter (Mutagen.same_key key) tags) = [v] ->
  Mutagen.is_str v = false ->
  Mutagen.validate tags = false.
Proof.
  intros Hget Hv. destruct (Mutagen.validate tags) eqn:E; [| reflexivity].
  unfold Mutagen.validate in E. rewrite forallb_forall in E.
  assert (Hin : In v (List.map snd (List.filter (Mutagen.same_key key) tags)))
    by (rewrite Hget; by left).
  apply in_map_iff in Hin as (kv & <- & Hkv). apply filter_In in Hkv as [Hkv _].
  rewrite (E kv Hkv) in Hv. discriminate.
Qed.

Lemma flac_save_invalid (st : State) (target filename : Path) (tags : Mutagen.Tags)
    (pics : list picture) :
  slots st !! "flac" = Some (VFlac filename tags pics) ->
  is_flac_file (fs st !! target) = true ->
  Mutagen.validate tags = false ->
  flac_save target st = (inl (ValueError "tag values need to be str"), st).
Proof.
  intros Hflac Hfile Hvalid. unfold flac_save.
  rewrite (bind_inr _ _ _ _ _ (flac_slot _ _ _ _ _ Hflac)).
  unfold bind, get_fs, put_fs, lift. cbn [Mutagen.tags Mutagen.pictures].
  unfold Mutagen.save. destruct (fs st !! target) as [[] |]; try discriminate.
  rewrite Hvalid. reflexivity.
Qed.

(** [save] stores every attribute and then writes the store to the file
    the slot [path] stands for. *)
Lemma save_run (s : gmap string value) (files : gmap Path bytes) (filename : Path)
    (tags : Mutagen.Tags) (pics : list picture) (v : value) :
  s !! "flac" = Some (VFlac filename tags pics) ->
  s !! "path" = Some v ->
  save (mkState s files) =
    flac_save_to v
      (mkState (<["flac" := VFlac filename (store_all attrs s tags) pics]> s) files).
Proof.
  intros Hflac Hpath. rewrite save_unfold.
  erewrite bind_inr.
  2: { apply save_loop; [exact Hflac | apply attrs_keys_plain]. }
  erewrite bind_inr.
  2: { apply getattr_slot. cbn [slots]. rewrite lookup_insert_ne by done. exact Hpath. }
  reflexivity.
Qed.

Lemma flac_save_to_target (st : State) (v : value) (filename p : Path)
    (tags : Mutagen.Tags) (pics : list picture) :
  slots st !! "flac" = Some (VFlac filename tags pics) ->
  save_target filename v = Some p ->
  flac_save_to v st = flac_save p st.
Proof.
  intros Hflac Htarget.
  destruct v as [| name | | p' | | | |]; cbn [save_target] in Htarget;
    try discriminate; cbn [flac_save_to].
  - injection Htarget as <-.
    rewrite (bind_inr _ _ _ _ _ (flac_slot _ "save" _ _ _ Hflac)). reflexivity.
  - destruct (Os.names_file name); [| discriminate].
    injection Htarget as <-. reflexivity.
  - injection Htarget as <-. reflexivity.
Qed.

Lemma save_ok_target (st : State) (filename p : Path) (tags : Mutagen.Tags)
    (pics : list picture) (target : value) :
  slots st !! "flac" = Some (VFlac filename tags pics) ->
  slots st !! "path" = Some target ->
  save_target filename target = Some p ->
  is_flac_file (fs st !! p) = true ->
  Mutagen.validate tags = true ->
  (forall name, name ∈ canonical_attributes -> text_or_none (slots st !! name) = true) ->
  let tags' := store_all attrs (slots st) tags in
  save st =
    (inr tt,
     mkState (<["flac" := VFlac filename tags' pics]> (slots st))
       (<[p := FlacFile (List.map Mutagen.comment tags') pics]> (fs st))).
Proof.
  intros Hflac Hpath Htarget Hfile Hvalid Htext tags'.
  destruct st as [s files]. cbn [slots fs] in *.
  rewrite (save_run _ _ _ _ _ _ Hflac Hpath). fold tags'.
  rewrite (flac_save_to_target _ _ _ _ _ _ (lookup_insert_eq _ _ _) Htarget).
  erewrite flac_save_ok; [reflexivity | apply lookup_insert_eq | exact Hfile |].
  apply validate_store_all; [exact Hvalid |].
  apply Forall_forall. intros [key native] Hin. apply Htext.
  unfold canonical_attributes. by apply (list_elem_of_fmap_2 fst).
Qed.

(** [save] goes through on a track whose attributes are text or [None]
    and whose FLAC file is there to be written. *)
Lemma save_ok (st : State) (filename p : Path) (tags : Mutagen.Tags)
    (pics : list picture) :
  slots st !! "flac" = Some (VFlac filename tags pics) ->
  slots st !! "path" = Some (VPath p) ->
  is_flac_file (fs st !! p) = true ->
  Mutagen.validate tags = true ->
  (forall name, name ∈ canonical_attributes -> text_or_none (slots st !! name) = true) ->
  let tags' := store_all attrs (slots st) tags in
  save st =
    (inr tt,
     mkState (<["flac" := VFlac filename tags' pics]> (slots st))
       (<[p := FlacFile (List.map Mutagen.comment tags') pics]> (fs st))).
Proof.
  intros Hflac Hpath Hfile Hvalid Htext.
  by apply (save_ok_target st filename p tags pics (VPath p)).
Qed.

(** [save] with an attribute that is neither text nor [None]: the store
    takes the value, and writing the store raises before the file is
    touched. *)
Lemma save_invalid (st : State) (filename p : Path) (tags : Mutagen.Tags)
    (pics : list picture) (target : value) (key native : string) (v : value) :
  slots st !! "flac" = Some (VFlac filename tags pics) ->
  slots st !! "path" = Some target ->
  save_target filename target = Some p ->
  is_flac_file (fs st !! p) = true ->
  (key, native) ∈ attrs ->
  slots st !! key = Some v ->
  text_or_none (Some v) = false ->
  save st =
    (inl (ValueError "tag values need to be str"),
     mkState (<["flac" := VFlac filename (store_all attrs (slots st) tags) pics]> (slots st))
             (fs st)).
Proof.
  intros Hflac Hpath Htarget Hfile Hin Hkey Htext.
  destruct st as [s files]. cbn [slots fs] in *.
  set (tags' := store_all attrs s tags).
  assert (Hget : Mutagen.get tags' native [] = [v]).
  { subst tags'. rewrite (get_store_all _ _ _ _ _ _ attrs_natives_nodup Hin).
    rewrite Hkey. by destruct v. }
  assert (Hstr : Mutagen.is_str v = false) by by destruct v.
  assert (Hinvalid : Mutagen.validate tags' = false).
  { eapply validate_false; [| exact Hstr]. by apply get_singleton. }
  rewrite (save_run _ _ _ _ _ _ Hflac Hpath). fold tags'.
  rewrite (flac_save_to_target _ _ _ _ _ _ (lookup_insert_eq _ _ _) Htarget).
  eapply flac_save_invalid; [apply lookup_insert_eq | exact Hfile | exact Hinvalid].
Qed.

Lemma canonical_not_flac (name : string) : name ∈ canonical_attributes -> "flac" <> name.
Proof.
  intros Hname. unfold canonical_attributes in Hname.
  apply list_elem_of_fmap in Hname as (kv & -> & Hkv).
  destruct (proj1 (Forall_forall _ _) attrs_keys_plain kv Hkv) as [Hne _]. congruence.
Qed.

(** C4.  [save] and then [read].  On a track whose canonical attributes
    are text or [None] and whose FLAC file can be written, [save] goes
    through; and whenever [save] goes through, the [read] that follows
    goes through as well and gives every canonical attribute the value it
    had before the [save], an attribute that was [None] (or never
    assigned) coming back as the empty string.  On a track with a
    canonical attribute that is neither text nor [None], a number for
    one, [save] raises ValueError instead: nothing is written to the
    file, and the attributes stay as they are. *)
Theorem save_read_round_trip (st : State) :
  (forall (filename p : Path) (tags : Mutagen.Tags) (pics : list picture)
          (target : value),
     slots st !! "flac" = Some (VFlac filename tags pics) ->
     slots st !! "path" = Some target ->
     save_target filename target = Some p ->
     is_flac_file (fs st !! p) = true ->
     Mutagen.validate tags = true ->
     (forall name, name ∈ canonical_attributes ->
        text_or_none (slots st !! name) = true) ->
     exists st1, save st = (inr tt, st1)) /\
  (forall st1,
     save st = (inr tt, st1) ->
     exists st2,
       read st1 = (inr tt, st2) /\
       forall name, name ∈ canonical_attributes ->
         slots st2 !! name = Some (collapse (slots st !! name))) /\
  (forall (filename p : Path) (tags : Mutagen.Tags) (pics : list picture)
          (target : value) (name : string) (v : value),
     slots st !! "flac" = Some (VFlac filename tags pics) ->
     slots st !! "path" = Some target ->
     save_target filename target = Some p ->
     is_flac_file (fs st !! p) = true ->
     name ∈ canonical_attributes ->
     slots st !! name = Some v ->
     text_or_none (Some v) = false ->
     exists msg st1,
       save st = (inl (ValueError msg), st1) /\
       fs st1 = fs st /\
       forall name', name' ∈ canonical_attributes ->
         slots st1 !! name' = slots st !! name').
Proof.
  split; [| split].
  - intros filename p tags pics target Hflac Hpath Htarget Hfile Hvalid Htext.
    eexists. by eapply save_ok_target.
  - intros st1 Hsave.
    destruct (save_slots _ _ Hsave) as (filename & tags & pics & Hflac & Hslots).
    destruct st1 as [s1 files1]. cbn [slots] in Hslots. subst s1.
    eexists. split.
    + rewrite read_unfold. eapply read_loop; [apply lookup_insert_eq |].
      apply attrs_keys_allowed.
    + intros name Hname. cbn [slots]. unfold canonical_attributes in Hname.
      apply list_elem_of_fmap in Hname as ([key native] & -> & Hin). cbn [fst].
      rewrite (load_all_lookup _ _ _ _ _ attrs_keys_nodup Hin).
      rewrite (get_store_all _ _ _ _ _ _ attrs_natives_nodup Hin). reflexivity.
  - intros filename p tags pics target name v Hflac Hpath Htarget Hfile Hname Hkey Htext.
    assert (Hmapped : exists native, (name, native) ∈ attrs).
    { unfold canonical_attributes in Hname.
      apply list_elem_of_fmap in Hname as ([key native] & -> & Hin). by exists native. }
    destruct Hmapped as [native Hin].
    eexists. eexists. split.
    + by eapply (save_invalid st filename p tags pics target name native v).
    + split; [reflexivity |]. intros name' Hname'. cbn [slots].
      apply lookup_insert_ne. by apply canonical_not_flac.
Qed.

Lemma extension_guard (extension : option string) :
  extension ∈ [None; Some "jpg"; Some "jpeg"; Some "png"] ->
  negb (match extension with
        | None => true
        | Some e => contains ["jpg"; "jpeg"; "png"] e
        end) = false.
Proof.
  intros Hext.
  repeat (apply elem_of_cons in Hext as [-> | Hext]; [reflexivity |]).
  by apply elem_of_nil in Hext.
Qed.

Lemma temp_suffix_allowed (track_path : Path) (img : Image) (extension : option string) :
  extension ∈ [None; Some "jpg"; Some "jpeg"; Some "png"] ->
  Pathlib.suffix (temp_path track_path img extension) =
    "." +:+ temp_suffix img extension /\
  temp_suffix img extension ∈ ["jpg"; "png"].
Proof.
  intros Hext.
  assert (Hsuf : temp_suffix img extension ∈ ["jpg"; "png"]).
  { repeat (apply elem_of_cons in Hext as [-> | Hext];
            [cbn [temp_suffix];
             first [ destruct (String.eqb (format img) "PNG")
                   | idtac ];
             apply (bool_decide_unpack _); vm_compute; exact I |]).
    by apply elem_of_nil in Hext. }
  split; [| exact Hsuf].
  unfold temp_path, Pathlib.joinpath, Pathlib.suffix, Pathlib.name.
  rewrite last_last.
  repeat (apply elem_of_cons in Hsuf as [-> | Hsuf]; [reflexivity |]).
  by apply elem_of_nil in Hsuf.
Qed.

(** Up to [image.save]: the cover is decoded, stamped and resampled; an
    error of the arithmetic or of [thumbnail] ends the call there. *)
Lemma resize_cover_start (codec : PIL.Codec) (st : State) (w : Z)
    (extension : option string) (filename : Path) (tags : Mutagen.Tags) (mime : string)
    (img : Image) (rest : list picture) :
  slots st !! "flac" = Some (VFlac filename tags (Picture mime (Encoded img) :: rest)) ->
  extension ∈ [None; Some "jpg"; Some "jpeg"; Some "png"] ->
  resize_cover codec w extension st =
    match box_height img w with
    | inl e => (inl e, assigned "cover" (VImage (stamped img)) st)
    | inr h =>
        match PIL.thumbnail (stamped img) w h with
        | inl e => (inl e, assigned "cover" (VImage (stamped img)) st)
        | inr img2 =>
            (track_path <- path "parent" ;;
             PIL.save codec img2 (temp_path track_path img extension)
               (temp_format img extension) (stamp (exif img)) ;;;
             add_cover (temp_path track_path img extension) ;;;
             unlink (temp_path track_path img extension))
              (assigned "cover" (VImage img2) st)
        end
    end.
Proof.
  intros Hflac Hext. unfold resize_cover.
  rewrite (extension_guard _ Hext).
  rewrite (bind_inr _ _ _ _ _ (read_cover_present _ _ _ _ _ _ Hflac)).
  erewrite bind_inr; [| reflexivity].
  unfold box_height, image_width, image_height. cbn [width height].
  fold (stamp (exif img)). fold (stamped img).
  destruct (PIL.truediv (width img) (height img)) as [e | aspect_ratio].
  { erewrite bind_inl; [| reflexivity].
    cbn [assigned slots fs]. by rewrite insert_insert_eq. }
  erewrite bind_inr; [| reflexivity].
  destruct (PIL.truediv_float w aspect_ratio) as [e | quotient].
  { erewrite bind_inl; [| reflexivity].
    cbn [assigned slots fs]. by rewrite insert_insert_eq. }
  erewrite bind_inr; [| reflexivity].
  destruct (PIL.of_option (Float64.trunc quotient)) as [e | h].
  { erewrite bind_inl; [| reflexivity].
    cbn [assigned slots fs]. by rewrite insert_insert_eq. }
  erewrite bind_inr; [| reflexivity].
  destruct (PIL.thumbnail (stamped img) w h) as [e | img2].
  { erewrite bind_inl; [| reflexivity].
    cbn [assigned slots fs]. by rewrite insert_insert_eq. }
  erewrite bind_inr; [| reflexivity].
  erewrite bind_inr; [| reflexivity].
  cbn [slots fs assigned]. rewrite !insert_insert_eq. reflexivity.
Qed.

(** Up to the replacement step: the resampled image is handed to the
    codec, to be written to the temporary file. *)
Lemma resize_cover_prepare (codec : PIL.Codec) (st : State) (w : Z)
    (extension : option string) (filename : Path) (tags : Mutagen.Tags) (mime : string)
    (img : Image) (rest : list picture) (track_path : Path) (h : Z) (img2 : Image) :
  slots st !! "flac" = Some (VFlac filename tags (Picture mime (Encoded img) :: rest)) ->
  slots st !! "path" = Some (VPath track_path) ->
  extension ∈ [None; Some "jpg"; Some "jpeg"; Some "png"] ->
  box_height img w = inr h ->
  PIL.thumbnail (stamped img) w h = inr img2 ->
  let temp := temp_path track_path img extension in
  resize_cover codec w extension st =
    (PIL.save codec img2 temp (temp_format img extension) (stamp (exif img)) ;;;
     add_cover temp ;;; unlink temp)
      (assigned "cover" (VImage img2) st).
Proof.
  intros Hflac Hpath Hext Hbox Hthumb temp.
  rewrite (resize_cover_start _ _ _ _ _ _ _ _ _ Hflac Hext), Hbox, Hthumb.
  erewrite bind_inr; [reflexivity |].
  apply path_slot. cbn [slots assigned]. rewrite lookup_insert_ne by done. exact Hpath.
Qed.

Lemma pil_save_ok (codec : PIL.Codec) (img : Image) (p : Path) (fmt : string)
    (tags : gmap Z string) (st : State) (content : bytes) :
  codec img fmt tags (fs st !! p) = inr content ->
  PIL.save codec img p fmt tags st =
    (inr tt, mkState (slots st) (<[p := content]> (fs st))).
Proof. intros H. unfold PIL.save, bind, get_fs. rewrite H. reflexivity. Qed.

Lemma pil_save_fails (codec : PIL.Codec) (img : Image) (p : Path) (fmt : string)
    (tags : gmap Z string) (st : State) (e : exn) (after : option bytes) :
  codec img fmt tags (fs st !! p) = inl (e, after) ->
  PIL.save codec img p fmt tags st =
    (inl e,
     mkState (slots st)
       (match after with
        | Some partial => <[p := partial]> (fs st)
        | None => delete p (fs st)
        end)).
Proof. intros H. unfold PIL.save, bind, get_fs. rewrite H. by destruct after. Qed.

Lemma is_flac_file_insert_ne (files : gmap Path bytes) (p q : Path) (b : bytes) :
  p <> q -> is_flac_file (<[p := b]> files !! q) = is_flac_file (files !! q).
Proof. intros H. by rewrite lookup_insert_ne. Qed.

Lemma temp_suffix_ok (track_path : Path) (img : Image) (extension : option string) :
  extension ∈ [None; Some "jpg"; Some "jpeg"; Some "png"] ->
  Pathlib.suffix (temp_path track_path img extension) ∈ [".jpg"; ".jpeg"; ".png"].
Proof.
  intros Hext. destruct (temp_suffix_allowed track_path img extension Hext) as [-> H].
  repeat (apply elem_of_cons in H as [-> | H];
          [apply (bool_decide_unpack _); vm_compute; exact I |]).
  by apply elem_of_nil in H.
Qed.

(** The whole run when the image can be written and the store can be
    persisted. *)
Lemma resize_cover_ok (codec : PIL.Codec) (st : State) (w : Z)
    (extension : option string) (filename : Path) (tags : Mutagen.Tags) (mime : string)
    (img : Image) (rest : list picture) (track_path : Path) (h : Z) (img2 : Image)
    (content : bytes) :
  slots st !! "flac" = Some (VFlac filename tags (Picture mime (Encoded img) :: rest)) ->
  slots st !! "path" = Some (VPath track_path) ->
  extension ∈ [None; Some "jpg"; Some "jpeg"; Some "png"] ->
  box_height img w = inr h ->
  PIL.thumbnail (stamped img) w h = inr img2 ->
  codec img2 (temp_format img extension) (stamp (exif img))
    (fs st !! temp_path track_path img extension) = inr content ->
  is_flac_file (fs st !! filename) = true ->
  Mutagen.validate tags = true ->
  temp_path track_path img extension <> filename ->
  let temp := temp_path track_path img extension in
  let cover := cover_of temp content in
  resize_cover codec w extension st =
    (inr tt,
     mkState (<["flac" := VFlac filename tags [cover]]>
                (<["cover" := VImage img2]> (slots st)))
       (delete temp
          (<[filename := FlacFile (List.map Mutagen.comment tags) [cover]]>
             (<[temp := content]> (fs st))))).
Proof.
  intros Hflac Hpath Hext Hbox Hthumb Hcodec Hstore Hvalid Hne temp cover.
  rewrite (resize_cover_prepare _ _ _ _ _ _ _ _ _ _ _ _ Hflac Hpath Hext Hbox Hthumb).
  fold temp.
  erewrite bind_inr; [| by apply pil_save_ok].
  erewrite bind_inr.
  2: { eapply add_cover_ok.
       - by apply temp_suffix_ok.
       - cbn [fs]. apply lookup_insert_eq.
       - cbn [slots assigned]. rewrite lookup_insert_ne by done. exact Hflac.
       - cbn [fs assigned]. rewrite is_flac_file_insert_ne by done. exact Hstore.
       - exact Hvalid. }
  unfold unlink, bind, get_fs, put_fs. cbn [fs slots assigned].
  rewrite lookup_insert_ne by (intros Heq; apply Hne; by rewrite Heq).
  rewrite lookup_insert_eq. reflexivity.
Qed.

(** The run when the FLAC file cannot be written: the first [save] of the
    replacement step raises, and nothing after it is executed. *)
Lemma resize_cover_unsaved (codec : PIL.Codec) (st : State) (w : Z)
    (extension : option string) (filename : Path) (tags : Mutagen.Tags) (mime : string)
    (img : Image) (rest : list picture) (track_path : Path) (h : Z) (img2 : Image)
    (content : bytes) :
  slots st !! "flac" = Some (VFlac filename tags (Picture mime (Encoded img) :: rest)) ->
  slots st !! "path" = Some (VPath track_path) ->
  extension ∈ [None; Some "jpg"; Some "jpeg"; Some "png"] ->
  box_height img w = inr h ->
  PIL.thumbnail (stamped img) w h = inr img2 ->
  codec img2 (temp_format img extension) (stamp (exif img))
    (fs st !! temp_path track_path img extension) = inr content ->
  is_flac_file (fs st !! filename) = false ->
  temp_path track_path img extension <> filename ->
  let temp := temp_path track_path img extension in
  resize_cover codec w extension st =
    (inl (MutagenError filename),
     mkState (<["flac" := VFlac filename tags []]>
                (<["cover" := VImage img2]> (slots st)))
       (<[temp := content]> (fs st))).
Proof.
  intros Hflac Hpath Hext Hbox Hthumb Hcodec Hstore Hne temp.
  rewrite (resize_cover_prepare _ _ _ _ _ _ _ _ _ _ _ _ Hflac Hpath Hext Hbox Hthumb).
  fold temp.
  erewrite bind_inr; [| by apply pil_save_ok].
  erewrite bind_inl; [reflexivity |].
  unfold add_cover.
  pose proof (temp_suffix_ok track_path img extension Hext) as Hsuffix.
  apply contains_spec in Hsuffix. fold temp in Hsuffix. rewrite Hsuffix.
  erewrite bind_inr; [| reflexivity].
  cbn [fs]. rewrite lookup_insert_eq.
  erewrite bind_inr; [| reflexivity].
  erewrite bind_inl; [reflexivity |].
  erewrite remove_cover_missing; [reflexivity | |].
  - cbn [slots assigned]. rewrite lookup_insert_ne by done. exact Hflac.
  - cbn [fs assigned]. rewrite is_flac_file_insert_ne by done. exact Hstore.
Qed.

Lemma remove_cover_invalid (st : State) (filename : Path) (tags : Mutagen.Tags)
    (pics : list picture) :
  slots st !! "flac" = Some (VFlac filename tags pics) ->
  is_flac_file (fs st !! filename) = true ->
  Mutagen.validate tags = false ->
  remove_cover st =
    (inl (ValueError "tag values need to be str"),
     mkState (<["flac" := VFlac filename tags []]> (slots st)) (fs st)).
Proof.
  intros Hflac Hfile Hvalid. unfold remove_cover.
  rewrite (bind_inr _ _ _ _ _ (flac_slot _ _ _ _ _ Hflac)).
  cbn [Mutagen.filename Mutagen.tags Mutagen.pictures].
  erewrite bind_inr; [| reflexivity].
  erewrite flac_save_invalid; [reflexivity | | exact Hfile | exact Hvalid].
  cbn [slots Mutagen.to_value Mutagen.filename Mutagen.tags Mutagen.pictures].
  apply lookup_insert_eq.
Qed.

(** The run when the store holds a value that is no text: the first
    [save] of the replacement step raises as well. *)
Lemma resize_cover_invalid (codec : PIL.Codec) (st : State) (w : Z)
    (extension : option string) (filename : Path) (tags : Mutagen.Tags) (mime : string)
    (img : Image) (rest : list picture) (track_path : Path) (h : Z) (img2 : Image)
    (content : bytes) :
  slots st !! "flac" = Some (VFlac filename tags (Picture mime (Encoded img) :: rest)) ->
  slots st !! "path" = Some (VPath track_path) ->
  extension ∈ [None; Some "jpg"; Some "jpeg"; Some "png"] ->
  box_height img w = inr h ->
  PIL.thumbnail (stamped img) w h = inr img2 ->
  codec img2 (temp_format img extension) (stamp (exif img))
    (fs st !! temp_path track_path img extension) = inr content ->
  is_flac_file (fs st !! filename) = true ->
  Mutagen.validate tags = false ->
  temp_path track_path img extension <> filename ->
  let temp := temp_path track_path img extension in
  resize_cover codec w extension st =
    (inl (ValueError "tag values need to be str"),
     mkState (<["flac" := VFlac filename tags []]>
                (<["cover" := VImage img2]> (slots st)))
       (<[temp := content]> (fs st))).
Proof.
  intros Hflac Hpath Hext Hbox Hthumb Hcodec Hstore Hvalid Hne temp.
  rewrite (resize_cover_prepare _ _ _ _ _ _ _ _ _ _ _ _ Hflac Hpath Hext Hbox Hthumb).
  fold temp.
  erewrite bind_inr; [| by apply pil_save_ok].
  erewrite bind_inl; [reflexivity |].
  unfold add_cover.
  pose proof (temp_suffix_ok track_path img extension Hext) as Hsuffix.
  apply contains_spec in Hsuffix. fold temp in Hsuffix. rewrite Hsuffix.
  erewrite bind_inr; [| reflexivity].
  cbn [fs]. rewrite lookup_insert_eq.
  erewrite bind_inr; [| reflexivity].
  erewrite bind_inl; [reflexivity |].
  erewrite remove_cover_invalid; [reflexivity | | | exact Hvalid].
  - cbn [slots assigned]. rewrite lookup_insert_ne by done. exact Hflac.
  - cbn [fs assigned]. rewrite is_flac_file_insert_ne by done. exact Hstore.
Qed.

(** The run when the codec raises: the error goes to the caller, and the
    temporary file is left as the codec left it. *)
Lemma resize_cover_unencoded (codec : PIL.Codec) (st : State) (w : Z)
    (extension : option string) (filename : Path) (tags : Mutagen.Tags) (mime : string)
    (img : Image) (rest : list picture) (track_path : Path) (h : Z) (img2 : Image)
    (e : exn) (after : option bytes) :
  slots st !! "flac" = Some (VFlac filename tags (Picture mime (Encoded img) :: rest)) ->
  slots st !! "path" = Some (VPath track_path) ->
  extension ∈ [None; Some "jpg"; Some "jpeg"; Some "png"] ->
  box_height img w = inr h ->
  PIL.thumbnail (stamped img) w h = inr img2 ->
  codec img2 (temp_format img extension) (stamp (exif img))
    (fs st !! temp_path track_path img extension) = inl (e, after) ->
  let temp := temp_path track_path img extension in
  resize_cover codec w extension st =
    (inl e,
     mkState (<["cover" := VImage img2]> (slots st))
       (match after with
        | Some partial => <[temp := partial]> (fs st)
        | None => delete temp (fs st)
        end)).
Proof.
  intros Hflac Hpath Hext Hbox Hthumb Hcodec temp.
  rewrite (resize_cover_prepare _ _ _ _ _ _ _ _ _ _ _ _ Hflac Hpath Hext Hbox Hthumb).
  fold temp.
  erewrite bind_inl; [reflexivity |].
  exact (pil_save_fails codec img2 temp _ _ (assigned "cover" (VImage img2) st) e after
           Hcodec).
Qed.

(** [thumbnail] never enlarges: an image that fits in the box is kept. *)
Lemma thumbnail_fits (img : Image) (x y : Z) :
  width img <= x -> height img <= y -> PIL.thumbnail img x y = inr img.
Proof.
  intros Hx Hy. unfold PIL.thumbnail, PIL.thumbnail_size.
  apply Z.leb_le in Hx, Hy. rewrite Hx, Hy. reflexivity.
Qed.

(** Otherwise one side of the box is kept and the other recomputed. *)
Lemma thumbnail_resized (img img2 : Image) (x y : Z) :
  0 < width img -> 0 < height img ->
  ~ (width img <= x /\ height img <= y) ->
  PIL.thumbnail img x y = inr img2 ->
  1 <= width img2 /\ 1 <= height img2 /\ (width img2 = x \/ height img2 = y).
Proof.
  intros Hw Hh Hbox. unfold PIL.thumbnail.
  destruct (PIL.thumbnail_size (width img) (height img) x y) as [e | [[x' y'] |]] eqn:E;
    [discriminate | |].
  - assert (Hside : x' = x \/ y' = y).
    { unfold PIL.thumbnail_size in E.
      destruct ((width img <=? x) && (height img <=? y)); [discriminate |].
      destruct (PIL.truediv (width img) (height img)); [discriminate |].
      destruct (PIL.truediv x y); [discriminate |].
      destruct (Float64.geb _ _).
      - destruct (PIL.mul_float _ _); [discriminate |].
        destruct (PIL.round_aspect _ _); [discriminate |].
        injection E as _ ->. by right.
      - destruct (PIL.truediv_float _ _); [discriminate |].
        destruct (PIL.round_aspect _ _); [discriminate |].
        injection E as -> _. by left. }
    destruct ((x' =? width img) && (y' =? height img)) eqn:Esame.
    + intros [= <-]. apply andb_true_iff in Esame as [Ex Ey].
      apply Z.eqb_eq in Ex, Ey. lia.
    + destruct ((x' <? 1) || (y' <? 1)) eqn:Epos; [discriminate |].
      intros [= <-]. cbn [width height].
      apply orb_false_iff in Epos as [Ex Ey]. apply Z.ltb_ge in Ex, Ey. lia.
  - unfold PIL.thumbnail_size in E.
    destruct ((width img <=? x) && (height img <=? y)) eqn:Efit.
    + apply andb_true_iff in Efit as [Ex Ey]. apply Z.leb_le in Ex, Ey. lia.
    + destruct (PIL.truediv (width img) (height img)); [discriminate |].
      destruct (PIL.truediv x y); [discriminate |].
      destruct (Float64.geb _ _).
      * destruct (PIL.mul_float _ _); [discriminate |].
        destruct (PIL.round_aspect _ _); discriminate.
      * destruct (PIL.truediv_float _ _); [discriminate |].
        destruct (PIL.round_aspect _ _); discriminate.
Qed.

(** ** binary64: the operations that are exact *)

Lemma digits2_pos_size (p : positive) : digits2_pos p = Pos.size p.
Proof. induction p; simpl; congruence. Qed.

Lemma Zdigits2_log2 (p : positive) : Zdigits2 (Z.pos p) = Z.log2 (Z.pos p) + 1.
Proof.
  unfold Zdigits2. rewrite digits2_pos_size.
  destruct p; simpl; lia.
Qed.

Lemma iter_pos_nat {A} (f : A -> A) (p : positive) (x : A) :
  SpecFloat.iter_pos f p x = Nat.iter (Pos.to_nat p) f x.
Proof.
  revert x. induction p as [p IH | p IH |]; intros x; cbn [SpecFloat.iter_pos].
  - rewrite !IH. rewrite Pos2Nat.inj_xI.
    replace (S (2 * Pos.to_nat p))%nat with (Pos.to_nat p + (Pos.to_nat p + 1))%nat by lia.
    rewrite !Nat.iter_add. reflexivity.
  - rewrite !IH. rewrite Pos2Nat.inj_xO.
    replace (2 * Pos.to_nat p)%nat with (Pos.to_nat p + Pos.to_nat p)%nat by lia.
    rewrite Nat.iter_add. reflexivity.
  - reflexivity.
Qed.

Lemma shr_1_even (m : Z) :
  0 < m -> shr_1 (Build_shr_record (2 * m) false false) = Build_shr_record m false false.
Proof. intros H. destruct m; try lia. reflexivity. Qed.

Lemma shr_exact (j : nat) (m : Z) :
  0 < m ->
  Nat.iter j shr_1 (Build_shr_record (m * 2 ^ Z.of_nat j) false false) =
    Build_shr_record m false false.
Proof.
  intros Hm. induction j as [| j IH].
  - cbn. f_equal. lia.
  - rewrite Nat.iter_succ_r.
    replace (m * 2 ^ Z.of_nat (S j)) with (2 * (m * 2 ^ Z.of_nat j)).
    2: { rewrite Nat2Z.inj_succ, Z.pow_succ_r by lia. lia. }
    rewrite shr_1_even by (apply Z.mul_pos_pos; [lia | apply Z.pow_pos_nonneg; lia]).
    exact IH.
Qed.

(** A significand of 53 bits followed by [j] zero bits is rounded to
    itself. *)
Lemma round_exact (s : bool) (m0 j e : Z) :
  2 ^ 52 <= m0 < 2 ^ 53 -> 0 <= j -> -1074 <= e + j <= 971 ->
  binary_round_aux 53 1024 s (m0 * 2 ^ j) e loc_Exact =
    S754_finite s (Z.to_pos m0) (e + j).
Proof.
  intros Hm Hj He.
  assert (Hm0 : 0 < m0) by lia.
  assert (Hlog : Z.log2 m0 = 52).
  { apply Z.log2_unique; lia. }
  assert (HM : 0 < m0 * 2 ^ j) by (apply Z.mul_pos_pos; [lia | apply Z.pow_pos_nonneg; lia]).
  assert (HlogM : Z.log2 (m0 * 2 ^ j) = 52 + j).
  { rewrite Z.log2_mul_pow2 by lia. lia. }
  unfold binary_round_aux, shr_fexp.
  destruct (m0 * 2 ^ j) as [| M |] eqn:EM; try lia.
  rewrite Zdigits2_log2, HlogM.
  unfold fexp, emin.
  replace (Z.max (52 + j + 1 + e - 53) (3 - 1024 - 53) - e) with j by lia.
  cbn [shr_record_of_loc].
  assert (Hshr : shr (Build_shr_record (Z.pos M) false false) e j =
                 (Build_shr_record m0 false false, e + j)).
  { unfold shr. destruct j as [| pj |]; try lia.
    - f_equal; [| lia]. f_equal. rewrite <- EM. lia.
    - rewrite iter_pos_nat. f_equal. rewrite <- EM.
      rewrite <- (positive_nat_Z pj) at 1. apply shr_exact. lia. }
  rewrite Hshr. cbn [shr_m loc_of_shr_record round_nearest_even].
  destruct m0 as [| p0 |] eqn:Em0; try lia.
  rewrite Zdigits2_log2, Hlog.
  replace (Z.max (52 + 1 + (e + j) - 53) (3 - 1024 - 53) - (e + j)) with 0 by lia.
  cbn [shr shr_record_of_loc shr_m].
  destruct (Z.leb_spec (e + j) (1024 - 53)); [| lia].
  reflexivity.
Qed.

(** [n / n] is 1.0. *)
Lemma truediv_self (n : Z) : 0 < n -> PIL.truediv n n = inr one.
Proof.
  intros Hn. unfold PIL.truediv.
  destruct (Z.eqb_spec n 0) as [-> | _]; [lia |].
  destruct n as [| p |]; try lia.
  assert (Hq : Float64.div (PIL.exact (Z.pos p)) (PIL.exact (Z.pos p)) = one).
  { unfold PIL.exact, Float64.div, SFdiv, SFdiv_core_binary.
    replace (Zdigits2 (Z.pos p) + 0 - (Zdigits2 (Z.pos p) + 0)) with 0 by lia.
    change (Z.min (fexp Float64.prec Float64.emax 0) (0 - 0)) with (-53).
    change (0 - 0 - -53) with 53.
    cbv iota.
    change (IntDef.Z.div_eucl (Z.shiftl (Z.pos p) 53) (Z.pos p))
      with (Z.div_eucl (Z.shiftl (Z.pos p) 53) (Z.pos p)).
    rewrite Z.shiftl_mul_pow2 by lia. rewrite (Z.mul_comm (Z.pos p)).
    pose proof (Z.div_mul (2 ^ 53) (Z.pos p) ltac:(lia)) as Hdiv.
    pose proof (Z.mod_mul (2 ^ 53) (Z.pos p) ltac:(lia)) as Hmod.
    unfold Z.div, Z.modulo in Hdiv, Hmod.
    destruct (Z.div_eucl (2 ^ 53 * Z.pos p) (Z.pos p)) as [q r].
    subst q r.
    unfold new_location.
    destruct (Z.even (Z.pos p)); reflexivity. }
  rewrite Hq. reflexivity.
Qed.

(** [float(w)] is [w] below 2^53. *)
Lemma of_int_exact (w : Z) :
  0 < w < 2 ^ 53 ->
  Float64.of_int w =
    S754_finite false (Z.to_pos (w * 2 ^ (52 - Z.log2 w))) (Z.log2 w - 52).
Proof.
  intros Hw. destruct w as [| p |]; try lia.
  assert (Hlog : 0 <= Z.log2 (Z.pos p) <= 52).
  { split; [apply Z.log2_nonneg |].
    assert (Z.log2 (Z.pos p) < 53); [| lia]. apply Z.log2_lt_pow2; lia. }
  pose proof (Z.log2_spec (Z.pos p) ltac:(lia)) as Hspec.
  unfold Float64.of_int, binary_normalize, binary_round, shl_align.
  change (Z.pos (digits2_pos p)) with (Zdigits2 (Z.pos p)).
  rewrite Zdigits2_log2. unfold fexp, emin, Float64.prec, Float64.emax.
  replace (Z.max (Z.log2 (Z.pos p) + 1 + 0 - 53) (3 - 1024 - 53) - 0)
    with (Z.log2 (Z.pos p) - 52) by lia.
  replace (Z.max (Z.log2 (Z.pos p) + 1 + 0 - 53) (3 - 1024 - 53))
    with (Z.log2 (Z.pos p) - 52) by lia.
  destruct (Z.log2 (Z.pos p) - 52) as [| k | k] eqn:Ek; try lia.
  - replace (Z.pos p) with (Z.pos p * 2 ^ 0) at 1 by lia.
    rewrite round_exact; try lia.
    + f_equal. replace (52 - Z.log2 (Z.pos p)) with 0 by lia. f_equal. lia.
    + replace (Z.log2 (Z.pos p)) with 52 in Hspec by lia. lia.
  - change (Pos.iter xO p k) with (shift_pos k p).
    rewrite shift_pos_correct.
    change (Z.pow_pos 2 k) with (2 ^ Z.pos k).
    assert (Hk : 52 - Z.log2 (Z.pos p) = Z.pos k) by lia.
    rewrite Hk.
    assert (Hm : 2 ^ 52 <= Z.pos p * 2 ^ Z.pos k < 2 ^ 53).
    { replace (Z.succ (Z.log2 (Z.pos p))) with (53 - Z.pos k) in Hspec by lia.
      replace (Z.log2 (Z.pos p)) with (52 - Z.pos k) in Hspec by lia.
      assert (H52 : 2 ^ 52 = 2 ^ (52 - Z.pos k) * 2 ^ Z.pos k)
        by (rewrite <- Z.pow_add_r by lia; f_equal; lia).
      assert (H53 : 2 ^ 53 = 2 ^ (53 - Z.pos k) * 2 ^ Z.pos k)
        by (rewrite <- Z.pow_add_r by lia; f_equal; lia).
      assert (Hpos : 0 < 2 ^ Z.pos k) by (apply Z.pow_pos_nonneg; lia).
      rewrite H52, H53. split.
      - apply Z.mul_le_mono_nonneg_r; lia.
      - apply Z.mul_lt_mono_pos_r; lia. }
    replace (2 ^ Z.pos k * Z.pos p) with (Z.pos p * 2 ^ Z.pos k * 2 ^ 0) by lia.
    rewrite round_exact; try lia.
    reflexivity.
Qed.

Lemma of_int_canonical (w : Z) :
  0 < w < 2 ^ 53 ->
  exists m e,
    Float64.of_int w = S754_finite false m e /\
    2 ^ 52 <= Z.pos m < 2 ^ 53 /\ -52 <= e <= 0 /\ Z.pos m = w * 2 ^ (- e).
Proof.
  intros Hw. rewrite (of_int_exact w Hw).
  assert (Hlog : 0 <= Z.log2 w <= 52).
  { split; [apply Z.log2_nonneg |].
    assert (Z.log2 w < 53); [| lia]. apply Z.log2_lt_pow2; lia. }
  pose proof (Z.log2_spec w ltac:(lia)) as Hspec.
  set (k := 52 - Z.log2 w) in *.
  assert (Hm : 2 ^ 52 <= w * 2 ^ k < 2 ^ 53).
  { replace (Z.succ (Z.log2 w)) with (53 - k) in Hspec by lia.
    replace (Z.log2 w) with (52 - k) in Hspec by lia.
    assert (H52 : 2 ^ 52 = 2 ^ (52 - k) * 2 ^ k)
      by (rewrite <- Z.pow_add_r by lia; f_equal; lia).
    assert (H53 : 2 ^ 53 = 2 ^ (53 - k) * 2 ^ k)
      by (rewrite <- Z.pow_add_r by lia; f_equal; lia).
    assert (Hpos : 0 < 2 ^ k) by (apply Z.pow_pos_nonneg; lia).
    rewrite H52, H53. split.
    - apply Z.mul_le_mono_nonneg_r; lia.
    - apply Z.mul_lt_mono_pos_r; lia. }
  eexists. eexists. split; [reflexivity |].
  rewrite Z2Pos.id by lia.
  split; [exact Hm |]. split; [lia |]. subst k. do 2 f_equal. lia.
Qed.

Lemma mul_one (m : positive) (e : Z) :
  2 ^ 52 <= Z.pos m < 2 ^ 53 -> -1074 <= e <= 971 ->
  Float64.mul (S754_finite false m e) one = S754_finite false m e.
Proof.
  intros Hm He. unfold Float64.mul, SFmul, one, Float64.prec, Float64.emax.
  cbn [xorb]. rewrite Pos2Z.inj_mul. change (Z.pos 4503599627370496) with (2 ^ 52).
  rewrite (round_exact false (Z.pos m) 52 (e + -52)); try lia.
  f_equal. lia.
Qed.

Lemma div_one (m : positive) (e : Z) :
  2 ^ 52 <= Z.pos m < 2 ^ 53 -> -1073 <= e <= 971 ->
  Float64.div (S754_finite false m e) one = S754_finite false m e.
Proof.
  intros Hm He. unfold Float64.div, SFdiv, SFdiv_core_binary, one. cbn [xorb].
  rewrite Zdigits2_log2.
  assert (Hlog : Z.log2 (Z.pos m) = 52) by (apply Z.log2_unique; lia).
  rewrite Hlog.
  change (Zdigits2 (Z.pos 4503599627370496)) with 53.
  unfold fexp, emin, Float64.prec, Float64.emax.
  replace (Z.min (Z.max (52 + 1 + e - (53 + -52) - 53) (3 - 1024 - 53)) (e - -52))
    with (e - 1) by lia.
  replace (e - -52 - (e - 1)) with 53 by lia. cbv iota.
  change (IntDef.Z.div_eucl (Z.shiftl (Z.pos m) 53) (Z.pos 4503599627370496))
    with (Z.div_eucl (Z.shiftl (Z.pos m) 53) (2 ^ 52)).
  rewrite Z.shiftl_mul_pow2 by lia.
  replace (Z.pos m * 2 ^ 53) with (2 * Z.pos m * 2 ^ 52) by lia.
  pose proof (Z.div_mul (2 * Z.pos m) (2 ^ 52) ltac:(lia)) as Hdiv.
  pose proof (Z.mod_mul (2 * Z.pos m) (2 ^ 52) ltac:(lia)) as Hmod.
  unfold Z.div, Z.modulo in Hdiv, Hmod.
  destruct (Z.div_eucl (2 * Z.pos m * 2 ^ 52) (2 ^ 52)) as [q r].
  subst q r.
  change (new_location (Z.pos 4503599627370496) 0) with loc_Exact.
  replace (2 * Z.pos m) with (Z.pos m * 2 ^ 1) by lia.
  rewrite (round_exact false (Z.pos m) 1 (e - 1)); try lia.
  f_equal. lia.
Qed.

Lemma integer_part (m : positive) (e w : Z) :
  -52 <= e <= 0 -> Z.pos m = w * 2 ^ (- e) ->
  Float64.floor (S754_finite false m e) = Some w /\
  Float64.ceil (S754_finite false m e) = Some w /\
  Float64.trunc (S754_finite false m e) = Some w.
Proof.
  intros He Hm. unfold Float64.floor, Float64.ceil, Float64.trunc.
  assert (Hpos : 0 < 2 ^ (- e)) by (apply Z.pow_pos_nonneg; lia).
  destruct (Z.leb_spec 0 e).
  - replace e with 0 in * by lia. cbn in Hm. repeat split; f_equal; cbn; lia.
  - rewrite Hm. repeat split; f_equal.
    + apply Z.div_mul. lia.
    + rewrite <- Z.mul_opp_l, Z.div_mul by lia. lia.
    + apply Z.quot_mul. lia.
Qed.

Lemma to_float_exact (w : Z) :
  0 < w < 2 ^ 53 -> PIL.to_float w = inr (Float64.of_int w).
Proof.
  intros Hw. unfold PIL.to_float.
  destruct (of_int_canonical w Hw) as (m & e & -> & _). reflexivity.
Qed.

(** For an aspect ratio of 1 nothing is rounded. *)
Lemma box_height_square (img : Image) (w : Z) :
  width img = height img -> 0 < width img -> 0 < w < 2 ^ 53 ->
  box_height img w = inr w.
Proof.
  intros Hsq Hpos Hw. unfold box_height. rewrite <- Hsq.
  rewrite (truediv_self _ Hpos). unfold PIL.truediv_float.
  rewrite (to_float_exact w Hw). cbn [Float64.is_zero one].
  destruct (of_int_canonical w Hw) as (m & e & -> & Hm & He & Hval).
  rewrite div_one by lia.
  destruct (integer_part m e w He Hval) as (_ & _ & ->). reflexivity.
Qed.

Lemma thumbnail_size_square (n w : Z) :
  0 < w < n -> w < 2 ^ 53 ->
  PIL.thumbnail_size n n w w = inr (Some (w, w)).
Proof.
  intros Hw Hlt. unfold PIL.thumbnail_size.
  destruct (Z.leb_spec n w); [lia |]. cbn [andb].
  rewrite (truediv_self n) by lia. rewrite (truediv_self w) by lia.
  change (Float64.geb one one) with true. cbv iota.
  unfold PIL.mul_float. rewrite (to_float_exact w) by lia.
  destruct (of_int_canonical w ltac:(lia)) as (m & e & -> & Hm & He & Hval).
  rewrite mul_one by lia.
  unfold PIL.round_aspect.
  destruct (integer_part m e w He Hval) as (-> & -> & _).
  cbn [PIL.of_option]. rewrite (truediv_self w) by lia.
  cbn [PIL.dist].
  change (Float64.ltb (Float64.abs (Float64.sub one one))
            (Float64.abs (Float64.sub one one))) with false.
  cbv iota. do 3 f_equal. lia.
Qed.

(** On a square cover the box is [w] by [w] and the cover becomes the
    smaller of the two squares. *)
Lemma thumbnail_square (img : Image) (w : Z) :
  width img = height img -> 0 < w < 2 ^ 53 ->
  PIL.thumbnail img w w =
    inr (if width img <=? w then img else mkImage (format img) w w (exif img)).
Proof.
  intros Hsq Hw. destruct (Z.leb_spec (width img) w) as [Hfit | Hbig].
  - apply thumbnail_fits; lia.
  - unfold PIL.thumbnail. rewrite <- Hsq.
    rewrite thumbnail_size_square by lia.
    destruct (Z.eqb_spec w (width img)); [lia |]. cbn [andb].
    destruct (Z.ltb_spec w 1); [lia |]. reflexivity.
Qed.

(** ** binary64: division rounds to within one unit in the last place *)

Lemma loc_of_record_of_loc (m : Z) (l : location) :
  loc_of_shr_record (shr_record_of_loc m l) = l /\ shr_m (shr_record_of_loc m l) = m.
Proof. destruct l as [| []]; split; reflexivity. Qed.

Lemma round_nearest_even_cases (m : Z) (l : location) :
  round_nearest_even m l = m \/ round_nearest_even m l = m + 1.
Proof.
  destruct l as [| []]; cbn; auto. destruct (Z.even m); auto.
Qed.

Lemma shr_1_half (m : Z) (l : location) :
  1 < m -> shr_m (shr_1 (shr_record_of_loc m l)) = m / 2.
Proof.
  intros Hm. destruct m as [| p |]; try lia.
  destruct p as [p | p |]; try lia.
  - transitivity (Z.pos p); [destruct l as [| []]; reflexivity |].
    apply (Z.div_unique _ 2 _ 1); lia.
  - transitivity (Z.pos p); [destruct l as [| []]; reflexivity |].
    apply (Z.div_unique _ 2 _ 0); lia.
Qed.

(** Rounding a quotient of 53 or 54 bits: the result has 53 bits and lies
    between the quotient truncated to 53 bits and its successor. *)
Lemma round_53 (q e : Z) (l : location) :
  2 ^ 52 <= q < 2 ^ 54 -> -1074 <= e <= 960 ->
  let n := if q <? 2 ^ 53 then 0 else 1 in
  let f := q / 2 ^ n in
  exists mr er,
    binary_round_aux 53 1024 false q e l = S754_finite false mr er /\
    2 ^ 52 <= Z.pos mr < 2 ^ 53 /\
    ((er = e + n /\ (Z.pos mr = f \/ Z.pos mr = f + 1)) \/
     (er = e + n + 1 /\ Z.pos mr = 2 ^ 52 /\ f + 1 = 2 ^ 53)).
Proof.
  intros Hq He. cbv zeta.
  assert (Hfinish : forall f' g, 2 ^ 52 <= f' <= 2 ^ 53 -> -1074 <= g <= 965 ->
            exists mr er,
              (let '(mrs'', e'') := shr_fexp 53 1024 f' g loc_Exact in
               match shr_m mrs'' with
               | 0 => S754_zero false
               | Z.pos m => if e'' <=? 1024 - 53 then S754_finite false m e''
                            else S754_infinity false
               | Z.neg _ => S754_nan
               end) = S754_finite false mr er /\
              2 ^ 52 <= Z.pos mr < 2 ^ 53 /\
              ((er = g /\ Z.pos mr = f') \/
               (er = g + 1 /\ Z.pos mr = 2 ^ 52 /\ f' = 2 ^ 53))).
  { intros f' g Hf' Hg. unfold shr_fexp.
    destruct f' as [| p |] eqn:Ef; try lia.
    rewrite Zdigits2_log2.
    destruct (Z.eq_dec (Z.pos p) (2 ^ 53)) as [Hcarry | Hno].
    - rewrite Hcarry. change (Z.log2 (2 ^ 53)) with 53.
      unfold fexp, emin.
      replace (Z.max (53 + 1 + g - 53) (3 - 1024 - 53) - g) with 1 by lia.
      cbn [shr shr_record_of_loc SpecFloat.iter_pos]. change (2 ^ 53) with (Z.pos (xO 4503599627370496)).
      cbn [shr_1 shr_m orb].
      destruct (Z.leb_spec (g + 1) (1024 - 53)); [| lia].
      eexists. eexists. split; [reflexivity |]. split; [lia |]. right. lia.
    - assert (Hlog : Z.log2 (Z.pos p) = 52) by (apply Z.log2_unique; lia).
      rewrite Hlog. unfold fexp, emin.
      replace (Z.max (52 + 1 + g - 53) (3 - 1024 - 53) - g) with 0 by lia.
      cbn [shr shr_record_of_loc shr_m].
      destruct (Z.leb_spec g (1024 - 53)); [| lia].
      eexists. eexists. split; [reflexivity |]. split; [lia |]. left. lia. }
  unfold binary_round_aux. unfold shr_fexp at 1.
  destruct q as [| pq |] eqn:Eq; try lia. rewrite <- Eq in *.
  assert (Hd : Zdigits2 q = Z.log2 q + 1) by (subst q; apply Zdigits2_log2).
  rewrite Hd.
  destruct (Z.ltb_spec q (2 ^ 53)) as [Hsmall | Hbig].
  - assert (Hlog : Z.log2 q = 52) by (apply Z.log2_unique; lia).
    rewrite Hlog. unfold fexp at 1, emin at 1.
    replace (Z.max (52 + 1 + e - 53) (3 - 1024 - 53) - e) with 0 by lia.
    cbn [shr].
    destruct (loc_of_record_of_loc q l) as [-> ->].
    rewrite Z.pow_0_r, Z.div_1_r, Z.add_0_r.
    destruct (round_nearest_even_cases q l) as [-> | ->].
    + destruct (Hfinish q e ltac:(lia) ltac:(lia)) as (mr & er & -> & Hr & Hc).
      exists mr, er. split; [reflexivity |]. split; [exact Hr |].
      destruct Hc as [[-> ->] | (-> & -> & ?)]; [left | lia]. split; auto.
    + destruct (Hfinish (q + 1) e ltac:(lia) ltac:(lia)) as (mr & er & -> & Hr & Hc).
      exists mr, er. split; [reflexivity |]. split; [exact Hr |].
      destruct Hc as [[-> ->] | (-> & -> & ?)]; [left | right]; repeat split; auto; lia.
  - assert (Hlog : Z.log2 q = 53) by (apply Z.log2_unique; lia).
    rewrite Hlog. unfold fexp at 1, emin at 1.
    replace (Z.max (53 + 1 + e - 53) (3 - 1024 - 53) - e) with 1 by lia.
    cbn [shr SpecFloat.iter_pos].
    rewrite Z.pow_1_r.
    assert (Hhalf : shr_m (shr_1 (shr_record_of_loc q l)) = q / 2)
      by (apply shr_1_half; lia).
    assert (Hrange : 2 ^ 52 <= q / 2 < 2 ^ 53).
    { split; [apply Z.div_le_lower_bound; lia | apply Z.div_lt_upper_bound; lia]. }
    rewrite Hhalf.
    destruct (round_nearest_even_cases (q / 2)
                (loc_of_shr_record (shr_1 (shr_record_of_loc q l)))) as [-> | ->].
    + destruct (Hfinish (q / 2) (e + 1) ltac:(lia) ltac:(lia)) as (mr & er & -> & Hr & Hc).
      exists mr, er. split; [reflexivity |]. split; [exact Hr |].
      destruct Hc as [[-> ->] | (-> & -> & ?)]; [left | lia]. split; auto.
    + destruct (Hfinish (q / 2 + 1) (e + 1) ltac:(lia) ltac:(lia)) as (mr & er & -> & Hr & Hc).
      exists mr, er. split; [reflexivity |]. split; [exact Hr |].
      destruct Hc as [[-> ->] | (-> & -> & ?)]; [left | right]; repeat split; auto; lia.
Qed.

(** Division of two positive floats, as a quotient of integers that is
    then rounded. *)
Lemma div_unfold (m1 m2 : positive) (e1 e2 : Z) :
  let s := 53 - Z.log2 (Z.pos m1) + Z.log2 (Z.pos m2) in
  1 <= s -> -1074 <= e1 - e2 - s ->
  Float64.div (S754_finite false m1 e1) (S754_finite false m2 e2) =
    binary_round_aux 53 1024 false (Z.pos m1 * 2 ^ s / Z.pos m2) (e1 - e2 - s)
      (new_location (Z.pos m2) ((Z.pos m1 * 2 ^ s) mod Z.pos m2)).
Proof.
  intros s Hs He. unfold Float64.div, SFdiv, SFdiv_core_binary.
  rewrite !Zdigits2_log2. unfold fexp, emin, Float64.prec, Float64.emax.
  replace (Z.min (Z.max (Z.log2 (Z.pos m1) + 1 + e1 - (Z.log2 (Z.pos m2) + 1 + e2) - 53)
                    (3 - 1024 - 53)) (e1 - e2))
    with (e1 - e2 - s) by (subst s; lia).
  replace (e1 - e2 - (e1 - e2 - s)) with s by lia.
  destruct s as [| ps |] eqn:Es; try lia.
  change (IntDef.Z.div_eucl (Z.shiftl (Z.pos m1) (Z.pos ps)) (Z.pos m2))
    with (Z.div_eucl (Z.shiftl (Z.pos m1) (Z.pos ps)) (Z.pos m2)).
  rewrite Z.shiftl_mul_pow2 by lia.
  unfold Z.div, Z.modulo.
  destruct (Z.div_eucl (Z.pos m1 * 2 ^ Z.pos ps) (Z.pos m2)) as [q r].
  reflexivity.
Qed.

Lemma quotient_range (a b s : Z) :
  0 < a -> 0 < b -> s = 53 - Z.log2 a + Z.log2 b -> 0 <= s ->
  2 ^ 52 <= a * 2 ^ s / b < 2 ^ 54.
Proof.
  intros Ha Hb Hs Hs0.
  pose proof (Z.log2_spec a Ha) as [Ha1 Ha2].
  pose proof (Z.log2_spec b Hb) as [Hb1 Hb2].
  pose proof (Z.log2_nonneg a) as Hla. pose proof (Z.log2_nonneg b) as Hlb.
  assert (Hp : 0 < 2 ^ s) by (apply Z.pow_pos_nonneg; lia).
  split.
  - apply Z.div_le_lower_bound; [lia |].
    (* b * 2^52 <= 2^(lb+1) * 2^52 = 2^(la) * 2^s <= a * 2^s *)
    apply Z.le_trans with (2 ^ Z.succ (Z.log2 b) * 2 ^ 52).
    + apply Z.mul_le_mono_nonneg_r; lia.
    + replace (2 ^ Z.succ (Z.log2 b) * 2 ^ 52) with (2 ^ Z.log2 a * 2 ^ s).
      * apply Z.mul_le_mono_nonneg_r; lia.
      * rewrite <- !Z.pow_add_r by lia. f_equal. lia.
  - apply Z.div_lt_upper_bound; [lia |].
    apply Z.lt_le_trans with (2 ^ Z.succ (Z.log2 a) * 2 ^ s).
    + apply Z.mul_lt_mono_pos_r; lia.
    + replace (2 ^ Z.succ (Z.log2 a) * 2 ^ s) with (2 ^ Z.log2 b * 2 ^ 54).
      * apply Z.mul_le_mono_nonneg_r; lia.
      * rewrite <- !Z.pow_add_r by lia. f_equal. lia.
Qed.

(** The aspect ratio is at most one unit in the last place above W/H:
    its product with H stays below W + 1. *)
Lemma aspect_ratio_upper (W H : Z) :
  0 < W < 2 ^ 52 -> 0 < H < 2 ^ 52 ->
  exists ma ka,
    PIL.truediv W H = inr (S754_finite false ma (- ka)) /\
    0 <= ka <= 104 /\ 2 ^ 52 <= Z.pos ma < 2 ^ 53 /\
    Z.pos ma * H <= (W + 1) * 2 ^ ka.
Proof.
  intros HW HH. unfold PIL.truediv.
  destruct (Z.eqb_spec H 0) as [-> | _]; [lia |].
  destruct W as [| pW |]; try lia. destruct H as [| pH |]; try lia.
  cbn [PIL.exact].
  assert (HlW : 0 <= Z.log2 (Z.pos pW) <= 51).
  { split; [apply Z.log2_nonneg |].
    assert (Z.log2 (Z.pos pW) < 52); [apply Z.log2_lt_pow2; lia | lia]. }
  assert (HlH : 0 <= Z.log2 (Z.pos pH) <= 51).
  { split; [apply Z.log2_nonneg |].
    assert (Z.log2 (Z.pos pH) < 52); [apply Z.log2_lt_pow2; lia | lia]. }
  set (s := 53 - Z.log2 (Z.pos pW) + Z.log2 (Z.pos pH)).
  assert (Hs : 2 <= s <= 104) by (subst s; lia).
  rewrite div_unfold by (fold s; lia). fold s.
  replace (0 - 0 - s) with (- s) by lia.
  set (Q := Z.pos pW * 2 ^ s / Z.pos pH).
  assert (HQ : 2 ^ 52 <= Q < 2 ^ 54) by (apply quotient_range; subst s; lia).
  assert (HQH : Q * Z.pos pH <= Z.pos pW * 2 ^ s).
  { subst Q. rewrite Z.mul_comm. apply Z.mul_div_le. lia. }
  destruct (round_53 Q (- s) (new_location (Z.pos pH) ((Z.pos pW * 2 ^ s) mod Z.pos pH))
              HQ ltac:(lia)) as (mr & er & -> & Hmr & Hcase).
  cbn [Float64.is_finite].
  set (n := if Q <? 2 ^ 53 then 0 else 1) in *.
  assert (Hn : n = 0 \/ n = 1) by (subst n; destruct (Q <? 2 ^ 53); auto).
  assert (Hf : Q / 2 ^ n * 2 ^ n <= Q).
  { rewrite Z.mul_comm. apply Z.mul_div_le. apply Z.pow_pos_nonneg; lia. }
  assert (Hsplit : 2 ^ s = 2 ^ (s - n) * 2 ^ n).
  { rewrite <- Z.pow_add_r by lia. f_equal. lia. }
  assert (HT : 0 < 2 ^ (s - n)) by (apply Z.pow_pos_nonneg; lia).
  assert (Hn2 : 0 < 2 ^ n) by (apply Z.pow_pos_nonneg; lia).
  assert (HfH : Q / 2 ^ n * Z.pos pH <= Z.pos pW * 2 ^ (s - n)).
  { apply (Z.mul_le_mono_pos_r _ _ (2 ^ n)); [lia |].
    replace (Z.pos pW * 2 ^ (s - n) * 2 ^ n) with (Z.pos pW * 2 ^ s)
      by (rewrite Hsplit; ring).
    apply Z.le_trans with (Q * Z.pos pH); [| exact HQH].
    replace (Q / 2 ^ n * Z.pos pH * 2 ^ n) with (Q / 2 ^ n * 2 ^ n * Z.pos pH) by ring.
    apply Z.mul_le_mono_nonneg_r; lia. }
  set (f := Q / 2 ^ n) in *.
  destruct Hcase as [[-> Hm] | (-> & Hm & Hcarry)].
  - exists mr, (s - n). split; [do 2 f_equal; lia |]. split; [lia |]. split; [exact Hmr |].
    set (T := 2 ^ (s - n)) in *.
    assert (HHT : Z.pos pH <= T) by nia.
    nia.
  - exists mr, (s - n - 1). split; [do 2 f_equal; lia |]. split; [lia |].
    split; [exact Hmr |].
    assert (Hsplit2 : 2 ^ (s - n) = 2 * 2 ^ (s - n - 1)).
    { rewrite <- Z.pow_succ_r by lia. f_equal. lia. }
    assert (HT' : 0 < 2 ^ (s - n - 1)) by (apply Z.pow_pos_nonneg; lia).
    set (T := 2 ^ (s - n - 1)) in *.
    rewrite Hsplit2 in HfH.
    assert (HHT : Z.pos pH <= T) by nia.
    nia.
Qed.

(** Dividing [w] by a float whose product with H is at most [w] gives at
    least H, also after truncation. *)
Lemma quotient_lower (w H ka : Z) (ma : positive) :
  0 < w < 2 ^ 53 -> 0 < H < 2 ^ 52 -> 0 <= ka <= 104 ->
  2 ^ 52 <= Z.pos ma < 2 ^ 53 ->
  Z.pos ma * H <= w * 2 ^ ka ->
  exists q h,
    PIL.truediv_float w (S754_finite false ma (- ka)) = inr q /\
    Float64.trunc q = Some h /\ H <= h.
Proof.
  intros Hw HH Hka Hma Hle. unfold PIL.truediv_float.
  rewrite (to_float_exact w Hw). cbn [Float64.is_zero].
  destruct (of_int_canonical w Hw) as (mx & ex & -> & Hmx & Hex & Hval).
  assert (Hlx : Z.log2 (Z.pos mx) = 52) by (apply Z.log2_unique; lia).
  assert (Hla : Z.log2 (Z.pos ma) = 52) by (apply Z.log2_unique; lia).
  rewrite div_unfold by (rewrite Hlx, Hla; lia).
  rewrite Hlx, Hla. replace (53 - 52 + 52) with 53 by lia.
  set (kx := - ex) in *.
  replace (ex - - ka - 53) with (- (kx + 53 - ka)) by lia.
  set (t := kx + 53 - ka).
  set (Q := Z.pos mx * 2 ^ 53 / Z.pos ma).
  assert (HQ : 2 ^ 52 <= Q < 2 ^ 54) by (apply quotient_range; lia).
  destruct (round_53 Q (- t) (new_location (Z.pos ma) ((Z.pos mx * 2 ^ 53) mod Z.pos ma))
              HQ ltac:(lia)) as (mr & er & -> & Hmr & Hcase).
  set (n := if Q <? 2 ^ 53 then 0 else 1) in *.
  assert (Hn : n = 0 \/ n = 1) by (subst n; destruct (Q <? 2 ^ 53); auto).
  set (f := Q / 2 ^ n) in *.
  eexists. eexists. split; [reflexivity |]. cbn [Float64.trunc]. split; [reflexivity |].
  assert (Hbig : forall g, 0 <= g -> H <= Z.pos mr * 2 ^ g).
  { intros g Hg. assert (0 < 2 ^ g) by (apply Z.pow_pos_nonneg; lia). nia. }
  (* the quotient dominates H scaled by 2^t *)
  assert (HtQ : 0 <= t -> H * 2 ^ t <= Q).
  { intros Ht. apply Z.div_le_lower_bound; [lia |].
    assert (Hp : 0 < 2 ^ t) by (apply Z.pow_pos_nonneg; lia).
    assert (Hmx53 : Z.pos mx * 2 ^ 53 = w * 2 ^ ka * 2 ^ t).
    { rewrite Hval. rewrite <- !Z.mul_assoc, <- !Z.pow_add_r by lia.
      do 2 f_equal. lia. }
    rewrite Hmx53.
    replace (Z.pos ma * (H * 2 ^ t)) with (Z.pos ma * H * 2 ^ t) by ring.
    apply Z.mul_le_mono_nonneg_r; lia. }
  assert (Htf : 0 <= t - n -> H * 2 ^ (t - n) <= f).
  { intros Ht. apply Z.div_le_lower_bound; [apply Z.pow_pos_nonneg; lia |].
    replace (2 ^ n * (H * 2 ^ (t - n))) with (H * 2 ^ t).
    - apply HtQ. lia.
    - replace t with (t - n + n) at 1 by lia. rewrite Z.pow_add_r by lia. ring. }
  destruct Hcase as [[-> Hm] | (-> & Hm & Hcarry)].
  - destruct (Z.leb_spec 0 (- t + n)) as [Hpos | Hneg].
    + apply Hbig. lia.
    + replace (- (- t + n)) with (t - n) by lia.
      rewrite Z.quot_div_nonneg by (try apply Z.pow_nonneg; lia).
      apply Z.div_le_lower_bound; [apply Z.pow_pos_nonneg; lia |].
      specialize (Htf ltac:(lia)). lia.
  - destruct (Z.leb_spec 0 (- t + n + 1)) as [Hpos | Hneg].
    + apply Hbig. lia.
    + replace (- (- t + n + 1)) with (t - n - 1) by lia.
      rewrite Z.quot_div_nonneg by (try apply Z.pow_nonneg; lia).
      apply Z.div_le_lower_bound; [apply Z.pow_pos_nonneg; lia |].
      specialize (Htf ltac:(lia)).
      assert (Hs2 : 2 ^ (t - n) = 2 * 2 ^ (t - n - 1)).
      { rewrite <- Z.pow_succ_r by lia. f_equal. lia. }
      rewrite Hs2 in Htf. lia.
Qed.

(** For a requested width above the width of the cover, the box holds the
    cover. *)
Lemma box_height_larger (img : Image) (w : Z) :
  0 < width img < 2 ^ 52 -> 0 < height img < 2 ^ 52 ->
  width img < w < 2 ^ 53 ->
  exists h, box_height img w = inr h /\ height img <= h.
Proof.
  intros HW HH Hw. unfold box_height.
  destruct (aspect_ratio_upper _ _ HW HH) as (ma & ka & -> & Hka & Hma & Hup).
  assert (Hle : Z.pos ma * height img <= w * 2 ^ ka).
  { apply Z.le_trans with ((width img + 1) * 2 ^ ka); [exact Hup |].
    apply Z.mul_le_mono_nonneg_r; [apply Z.pow_nonneg |]; lia. }
  destruct (quotient_lower w (height img) ka ma ltac:(lia) HH Hka Hma Hle)
    as (q & h & -> & -> & Hh).
  exists h. split; [reflexivity | exact Hh].
Qed.

Lemma stored_cover_ok (s : gmap string value) (files : gmap Path bytes)
    (filename : Path) (tags : Mutagen.Tags) (p : Path) (img : Image) :
  stored_cover
    (mkState (<["flac" := VFlac filename tags [cover_of p (Encoded img)]]> s) files) =
    Some img.
Proof. unfold stored_cover. cbn [slots]. rewrite lookup_insert_eq. reflexivity. Qed.

(** A requested width above the width of the cover leaves the cover as it
    is: the box holds it, and [thumbnail] never enlarges. *)
Lemma resize_cover_larger_width (codec : PIL.Codec) (st : State) (w : Z)
    (extension : option string) (filename : Path) (tags : Mutagen.Tags) (mime : string)
    (img : Image) (rest : list picture) (track_path : Path) (content : bytes) :
  slots st !! "flac" = Some (VFlac filename tags (Picture mime (Encoded img) :: rest)) ->
  slots st !! "path" = Some (VPath track_path) ->
  extension ∈ [None; Some "jpg"; Some "jpeg"; Some "png"] ->
  is_flac_file (fs st !! filename) = true ->
  Mutagen.validate tags = true ->
  temp_path track_path img extension <> filename ->
  0 < width img < 2 ^ 52 -> 0 < height img < 2 ^ 52 ->
  width img < w < 2 ^ 53 ->
  codec (stamped img) (temp_format img extension) (stamp (exif img))
    (fs st !! temp_path track_path img extension) = inr content ->
  exists st',
    resize_cover codec w extension st = (inr tt, st') /\
    slots st' !! "cover" = Some (VImage (stamped img)) /\
    slots st' !! "flac" =
      Some (VFlac filename tags [cover_of (temp_path track_path img extension) content]).
Proof.
  intros Hflac Hpath Hext Hstore Hvalid Hne HW HH Hw Hcodec.
  destruct (box_height_larger img w HW HH Hw) as (h & Hbox & Hh).
  eexists. split; [| split].
  - eapply resize_cover_ok; try eassumption.
    apply thumbnail_fits; unfold stamped; cbn [width height]; lia.
  - cbn [slots]. rewrite lookup_insert_ne by done. apply lookup_insert_eq.
  - cbn [slots]. apply lookup_insert_eq.
Qed.

(** The size of the image [thumbnail] makes of the cover. *)
Lemma resampled_size (img : Image) (w h : Z) (img2 : Image) :
  0 < width img -> 0 < height img ->
  box_height img w = inr h ->
  PIL.thumbnail (stamped img) w h = inr img2 ->
  (width img <= w -> height img <= h -> size img2 = size img) /\
  (width img < 2 ^ 52 -> height img < 2 ^ 52 -> width img < w < 2 ^ 53 ->
     height img <= h /\ size img2 = size img) /\
  (~ (width img <= w /\ height img <= h) ->
     1 <= width img2 /\ 1 <= height img2 /\ (width img2 = w \/ height img2 = h)) /\
  (width img = height img -> 0 < w < 2 ^ 53 ->
     h = w /\ size img2 = (Z.min w (width img), Z.min w (width img))) /\
  (size img = (1200, 800) -> w = 300 -> size img2 = (300, 200)).
Proof.
  intros Hw Hh Hbox Hthumb.
  split; [| split; [| split; [| split]]].
  - intros Hfw Hfh.
    rewrite (thumbnail_fits (stamped img) w h) in Hthumb by done.
    injection Hthumb as <-. reflexivity.
  - intros HW HH Hrange.
    destruct (box_height_larger img w ltac:(lia) ltac:(lia) Hrange) as (h' & Hbox' & Hh').
    rewrite Hbox in Hbox'. injection Hbox' as <-. split; [exact Hh' |].
    rewrite (thumbnail_fits (stamped img) w h) in Hthumb
      by (unfold stamped; cbn [width height]; lia).
    injection Hthumb as <-. reflexivity.
  - intros Hbig. by apply (thumbnail_resized (stamped img)).
  - intros Hsq Hrange.
    rewrite (box_height_square img w Hsq Hw Hrange) in Hbox. injection Hbox as <-.
    split; [reflexivity |].
    rewrite (thumbnail_square (stamped img) w Hsq Hrange) in Hthumb.
    injection Hthumb as <-. unfold stamped. cbn [width].
    destruct (Z.leb_spec (width img) w) as [Hfit | Hbig]; unfold size; cbn [width height].
    + rewrite <- Hsq, Z.min_r by lia. reflexivity.
    + rewrite Z.min_l by lia. reflexivity.
  - intros [= Hiw Hih] ->. revert Hbox Hthumb.
    unfold box_height, PIL.thumbnail, stamped. cbn [width height].
    rewrite Hiw, Hih.
    assert (Hb : match PIL.truediv 1200 800 with
                 | inl e => inl e
                 | inr aspect_ratio =>
                     match PIL.truediv_float 300 aspect_ratio with
                     | inl e => inl e
                     | inr quotient => PIL.of_option (Float64.trunc quotient)
                     end
                 end = inr 200) by (vm_compute; reflexivity).
    rewrite Hb. intros [= <-].
    assert (Ht : PIL.thumbnail_size 1200 800 300 200 = inr (Some (300, 200)))
      by (vm_compute; reflexivity).
    rewrite Ht. cbn. intros [= <-]. reflexivity.
Qed.

(** The box and the image for a width of 300 on a 1200 x 800 cover. *)
Lemma resampled_1200_800 (img : Image) :
  size img = (1200, 800) ->
  box_height img 300 = inr 200 /\
  PIL.thumbnail (stamped img) 300 200 =
    inr (mkImage (format img) 300 200 (stamp (exif img))).
Proof.
  intros [= Hiw Hih]. unfold box_height, PIL.thumbnail, stamped. cbn [width height].
  rewrite Hiw, Hih. split; [vm_compute; reflexivity |].
  assert (Ht : PIL.thumbnail_size 1200 800 300 200 = inr (Some (300, 200)))
    by (vm_compute; reflexivity).
  rewrite Ht. reflexivity.
Qed.

(** An error of the arithmetic or of [thumbnail] leaves store and files
    as they were. *)
Lemma resize_cover_unresampled (codec : PIL.Codec) (st : State) (w : Z)
    (extension : option string) (filename : Path) (tags : Mutagen.Tags) (mime : string)
    (img : Image) (rest : list picture) (e : exn) :
  slots st !! "flac" = Some (VFlac filename tags (Picture mime (Encoded img) :: rest)) ->
  extension ∈ [None; Some "jpg"; Some "jpeg"; Some "png"] ->
  box_height img w = inl e \/
  (exists h, box_height img w = inr h /\ PIL.thumbnail (stamped img) w h = inl e) ->
  resize_cover codec w extension st =
    (inl e, assigned "cover" (VImage (stamped img)) st).
Proof.
  intros Hflac Hext Hfails.
  rewrite (resize_cover_start _ _ _ _ _ _ _ _ _ Hflac Hext).
  destruct Hfails as [-> | (h & -> & ->)]; reflexivity.
Qed.

(** C5, as the code has it.  On an existing cover of size W x H,
    [resize_cover(w)] derives the height [h] of a box from [w] and the
    aspect ratio, has [thumbnail] resample the cover into the box of [w]
    by [h], and hands the resampled image to the codec.  When the three
    go through, what the codec wrote is the only picture of the store and
    the attribute [cover] holds the resampled image.  That image has the
    original size when the box holds the cover (the cover is never
    enlarged), which it does for every [w] above W; otherwise a size of
    at least 1 x 1 with one side that of the box.  On a square cover the
    box is [w] by [w] and the image is the smaller of the two squares.
    On a 1200 x 800 cover and [w] = 300 the box is 300 x 200 and so is
    the image.  When the height cannot be computed or [thumbnail] raises,
    as it does for the box 1 x 0 of the width 1 on a 1200 x 800 cover, or
    when the codec raises, the error goes to the caller and the store
    keeps the pictures it had. *)
Theorem resize_cover_stored_size (codec : PIL.Codec) (st : State) (w : Z)
    (extension : option string) (filename : Path) (tags : Mutagen.Tags) (mime : string)
    (img : Image) (rest : list picture) (track_path : Path) :
  slots st !! "flac" = Some (VFlac filename tags (Picture mime (Encoded img) :: rest)) ->
  slots st !! "path" = Some (VPath track_path) ->
  extension ∈ [None; Some "jpg"; Some "jpeg"; Some "png"] ->
  is_flac_file (fs st !! filename) = true ->
  Mutagen.validate tags = true ->
  temp_path track_path img extension <> filename ->
  0 < width img -> 0 < height img ->
  let temp := temp_path track_path img extension in
  let written (img2 : Image) :=
    codec img2 (temp_format img extension) (stamp (exif img)) (fs st !! temp) in
  (forall (h : Z) (img2 : Image) (content : bytes),
     box_height img w = inr h ->
     PIL.thumbnail (stamped img) w h = inr img2 ->
     written img2 = inr content ->
     exists st',
       resize_cover codec w extension st = (inr tt, st') /\
       slots st' !! "flac" = Some (VFlac filename tags [cover_of temp content]) /\
       slots st' !! "cover" = Some (VImage img2) /\
       (width img <= w -> height img <= h -> size img2 = size img) /\
       (width img < 2 ^ 52 -> height img < 2 ^ 52 -> width img < w < 2 ^ 53 ->
          height img <= h /\ size img2 = size img) /\
       (~ (width img <= w /\ height img <= h) ->
          1 <= width img2 /\ 1 <= height img2 /\ (width img2 = w \/ height img2 = h)) /\
       (width img = height img -> 0 < w < 2 ^ 53 ->
          h = w /\ size img2 = (Z.min w (width img), Z.min w (width img))) /\
       (size img = (1200, 800) -> w = 300 -> size img2 = (300, 200))) /\
  (size img = (1200, 800) -> w = 300 ->
     box_height img w = inr 200 /\
     PIL.thumbnail (stamped img) w 200 =
       inr (mkImage (format img) 300 200 (stamp (exif img)))) /\
  (width img < 2 ^ 52 -> height img < 2 ^ 52 -> width img < w < 2 ^ 53 ->
     exists h,
       box_height img w = inr h /\ PIL.thumbnail (stamped img) w h = inr (stamped img)) /\
  (width img = height img -> 0 < w < 2 ^ 53 ->
     box_height img w = inr w /\
     exists img2, PIL.thumbnail (stamped img) w w = inr img2) /\
  (forall e : exn,
     box_height img w = inl e \/
     (exists h, box_height img w = inr h /\ PIL.thumbnail (stamped img) w h = inl e) ->
     exists st',
       resize_cover codec w extension st = (inl e, st') /\
       slots st' !! "flac" = slots st !! "flac" /\
       fs st' = fs st) /\
  (forall (h : Z) (img2 : Image) (e : exn) (after : option bytes),
     box_height img w = inr h ->
     PIL.thumbnail (stamped img) w h = inr img2 ->
     written img2 = inl (e, after) ->
     exists st',
       resize_cover codec w extension st = (inl e, st') /\
       slots st' !! "flac" = slots st !! "flac" /\
       forall q, q <> temp -> fs st' !! q = fs st !! q).
Proof.
  intros Hflac Hpath Hext Hstore Hvalid Hne Hw Hh temp written.
  split; [| split; [| split; [| split; [| split]]]].
  - intros h img2 content Hbox Hthumb Hcodec.
    eexists. split; [by eapply resize_cover_ok |].
    split; [cbn [slots]; apply lookup_insert_eq |].
    split; [cbn [slots]; rewrite lookup_insert_ne by done; apply lookup_insert_eq |].
    by apply resampled_size.
  - intros Hsize ->. by apply resampled_1200_800.
  - intros HW HH Hrange.
    destruct (box_height_larger img w ltac:(lia) ltac:(lia) Hrange) as (h & Hbox & Hle).
    exists h. split; [exact Hbox |].
    apply thumbnail_fits; unfold stamped; cbn [width height]; lia.
  - intros Hsq Hrange. split; [by apply box_height_square |].
    eexists. by apply (thumbnail_square (stamped img)).
  - intros e Hfails. eexists.
    split; [by eapply resize_cover_unresampled |].
    split; [| reflexivity]. cbn [slots assigned]. by rewrite lookup_insert_ne.
  - intros h img2 e after Hbox Hthumb Hcodec. eexists.
    split; [by eapply resize_cover_unencoded |].
    split; [cbn [slots]; by rewrite lookup_insert_ne |].
    intros q Hq. cbn [fs]. fold temp.
    destruct after; [by rewrite lookup_insert_ne | by rewrite lookup_delete_ne].
Qed.

(** C6, as the code has it.  [resize_cover] has the codec write the
    resampled image to [temp_cover.<suffix>] in the directory of the
    track.  When the image is written and the replacement goes through,
    the file is removed before the method returns.  When the replacement
    step raises, because the FLAC file cannot be written or because the
    store holds a value that is no text, the error goes to the caller and
    the temporary file stays where it was written: nothing removes it on
    that path.  When the codec raises, the error goes to the caller as
    well, and the path holds what the codec left there. *)
Theorem resize_cover_temp_file (codec : PIL.Codec) (st : State) (w : Z)
    (extension : option string) (filename : Path) (tags : Mutagen.Tags) (mime : string)
    (img : Image) (rest : list picture) (track_path : Path) (h : Z) (img2 : Image) :
  slots st !! "flac" = Some (VFlac filename tags (Picture mime (Encoded img) :: rest)) ->
  slots st !! "path" = Some (VPath track_path) ->
  extension ∈ [None; Some "jpg"; Some "jpeg"; Some "png"] ->
  box_height img w = inr h ->
  PIL.thumbnail (stamped img) w h = inr img2 ->
  temp_path track_path img extension <> filename ->
  let temp := temp_path track_path img extension in
  let written :=
    codec img2 (temp_format img extension) (stamp (exif img)) (fs st !! temp) in
  (forall content : bytes,
     written = inr content ->
     (is_flac_file (fs st !! filename) = true ->
      Mutagen.validate tags = true ->
      exists st',
        resize_cover codec w extension st = (inr tt, st') /\ fs st' !! temp = None) /\
     (is_flac_file (fs st !! filename) = false ->
      exists st',
        resize_cover codec w extension st = (inl (MutagenError filename), st') /\
        fs st' !! temp = Some content) /\
     (is_flac_file (fs st !! filename) = true ->
      Mutagen.validate tags = false ->
      exists msg st',
        resize_cover codec w extension st = (inl (ValueError msg), st') /\
        fs st' !! temp = Some content)) /\
  (forall (e : exn) (after : option bytes),
     written = inl (e, after) ->
     exists st',
       resize_cover codec w extension st = (inl e, st') /\ fs st' !! temp = after).
Proof.
  intros Hflac Hpath Hext Hbox Hthumb Hne temp written. split.
  - intros content Hcodec. split; [| split].
    + intros Hstore Hvalid. eexists. split; [by eapply resize_cover_ok |].
      cbn [fs]. apply lookup_delete_eq.
    + intros Hstore. eexists. split; [by eapply resize_cover_unsaved |].
      cbn [fs]. apply lookup_insert_eq.
    + intros Hstore Hvalid. eexists. eexists.
      split; [by eapply resize_cover_invalid |].
      cbn [fs]. apply lookup_insert_eq.
  - intros e after Hcodec. eexists. split; [by eapply resize_cover_unencoded |].
    cbn [fs]. fold temp.
    destruct after; [apply lookup_insert_eq | apply lookup_delete_eq].
Qed.

Lemma setattr_strict_allow_list_witness :
  __setattr__ "title" (VStr "So What") track =
    (inr tt, assigned "title" (VStr "So What") track) /\
  __setattr__ "rating" (VInt 5) track =
    (inl (AttributeError "Cannot set unknown attribute 'rating'"), track).
Proof.
  split.
  - apply (proj1 (setattr_strict_allow_list "title" (VStr "So What") track)).
    apply (bool_decide_unpack _). vm_compute. exact I.
  - apply (proj2 (setattr_strict_allow_list "rating" (VInt 5) track)).
    apply (bool_decide_unpack _). vm_compute. exact I.
Defined.

Lemma resize_cover_without_cover_witness :
  resize_cover plain 300 (Some "png") track =
    (inl (NoCoverFoundError "No cover found to resize" : exn), track).
Proof.
  apply (resize_cover_without_cover plain track 300 (Some "png") song
           [("TITLE", VStr "So What"); ("ARTIST", VStr "Miles Davis")]).
  - vm_compute. reflexivity.
  - apply (bool_decide_unpack _). vm_compute. exact I.
Defined.

Lemma export_cover_spec_witness :
  export_cover None track = (inr None, track) /\
  export_cover None (cover_track photo) =
    (inr (Some ["music"; "cover.jpg"]),
     mkState (slots (cover_track photo))
       (<[["music"; "cover.jpg"] := Encoded photo]> (fs (cover_track photo)))).
Proof.
  split.
  - apply (proj1 (export_cover_spec track None song
                    [("TITLE", VStr "So What"); ("ARTIST", VStr "Miles Davis")])).
    vm_compute. reflexivity.
  - apply (proj2 (export_cover_spec (cover_track photo) None song
                    [("TITLE", VStr "So What")])
             (Picture "image/jpeg" (Encoded photo)) [] song).
    + vm_compute. reflexivity.
    + vm_compute. reflexivity.
Defined.

Lemma add_cover_spec_witness :
  add_cover ["art"; "front.gif"] track_and_art =
    (inl (WrongPictureFormatError "Supported extensions are 'jpg', 'jpeg', 'png'." : exn),
     track_and_art) /\
  exists st',
    add_cover front track_and_art = (inr tt, st') /\
    slots st' !! "flac" =
      Some (VFlac song [("TITLE", VStr "So What"); ("ARTIST", VStr "Miles Davis")]
              [Picture "image/png" (Encoded photo)]) /\
    fs st' !! song =
      Some (FlacFile [("TITLE", "So What"); ("ARTIST", "Miles Davis")]
              [Picture "image/png" (Encoded photo)]).
Proof.
  split.
  - apply (proj1 (add_cover_spec track_and_art ["art"; "front.gif"])).
    apply (bool_decide_unpack _). vm_compute. exact I.
  - apply (proj2 (add_cover_spec track_and_art front) (Encoded photo) song
             [("TITLE", VStr "So What"); ("ARTIST", VStr "Miles Davis")] []).
    + apply (bool_decide_unpack _). vm_compute. exact I.
    + vm_compute. reflexivity.
    + vm_compute. reflexivity.
    + vm_compute. reflexivity.
    + vm_compute. reflexivity.
Defined.

Lemma save_read_round_trip_witness :
  (exists st1 st2,
     save edited_track = (inr tt, st1) /\
     read st1 = (inr tt, st2) /\
     slots st2 !! "title" = Some (VStr "Blue in Green") /\
     slots st2 !! "bpm" = Some (VStr "") /\
     slots st2 !! "artist" = Some (VStr "Miles Davis")) /\
  (exists msg st1,
     save (assigned "bpm" (VInt 120) (assigned "path" VNone track)) =
       (inl (ValueError msg), st1) /\
     fs st1 = fs track /\
     slots st1 !! "bpm" = Some (VInt 120)).
Proof.
  split.
  - destruct (save_read_round_trip edited_track) as (Hruns & Hsame & _).
    destruct (Hruns song song
                [("TITLE", VStr "So What"); ("ARTIST", VStr "Miles Davis")] []
                (VPath song))
      as [st1 Hsave].
    + vm_compute. reflexivity.
    + vm_compute. reflexivity.
    + reflexivity.
    + vm_compute. reflexivity.
    + vm_compute. reflexivity.
    + intros name Hname. vm_compute in Hname.
      repeat (apply elem_of_cons in Hname as [-> | Hname]; [vm_compute; reflexivity |]).
      by apply elem_of_nil in Hname.
    + destruct (Hsame st1 Hsave) as (st2 & Hread & Hvalues).
      exists st1, st2. split; [exact Hsave |]. split; [exact Hread |].
      rewrite (Hvalues "title"), (Hvalues "bpm"), (Hvalues "artist");
        try (apply (bool_decide_unpack _); vm_compute; exact I).
      vm_compute. repeat split.
  - destruct (save_read_round_trip (assigned "bpm" (VInt 120) (assigned "path" VNone track)))
      as (_ & _ & Hfails).
    destruct (Hfails song song
                [("TITLE", VStr "So What"); ("ARTIST", VStr "Miles Davis")] []
                VNone "bpm" (VInt 120))
      as (msg & st1 & Hsave & Hfs & Hslots).
    + vm_compute. reflexivity.
    + vm_compute. reflexivity.
    + reflexivity.
    + vm_compute. reflexivity.
    + apply (bool_decide_unpack _). vm_compute. exact I.
    + vm_compute. reflexivity.
    + reflexivity.
    + exists msg, st1. split; [exact Hsave |]. split; [exact Hfs |].
      rewrite (Hslots "bpm"); [vm_compute; reflexivity |].
      apply (bool_decide_unpack _). vm_compute. exact I.
Defined.

(** C4 as stated fails: on the track of the example with [bpm] set to the
    number 120, [save] raises ValueError and the file keeps its two
    comments, so that [save] and then [read] never gets to the [read]. *)
Lemma save_bpm_120_raises :
  exists msg,
    fst (save (assigned "bpm" (VInt 120) track)) = inl (ValueError msg) /\
    fs (snd (save (assigned "bpm" (VInt 120) track))) = disk /\
    fst ((save ;;; read) (assigned "bpm" (VInt 120) track)) = inl (ValueError msg).
Proof.
  assert (H : save (assigned "bpm" (VInt 120) track) =
              (inl (ValueError "tag values need to be str"),
               mkState
                 (<["flac" :=
                      VFlac song
                        (store_all attrs (slots (assigned "bpm" (VInt 120) track))
                           [("TITLE", VStr "So What"); ("ARTIST", VStr "Miles Davis")])
                        []]> (slots (assigned "bpm" (VInt 120) track)))
                 (fs (assigned "bpm" (VInt 120) track)))).
  { apply (save_invalid _ song song _ _ (VPath song) "bpm" "bpm" (VInt 120)).
    - vm_compute. reflexivity.
    - vm_compute. reflexivity.
    - reflexivity.
    - vm_compute. reflexivity.
    - apply (bool_decide_unpack _). vm_compute. exact I.
    - vm_compute. reflexivity.
    - reflexivity. }
  eexists. unfold bind. rewrite H. cbn [fst snd fs].
  split; [reflexivity |]. split; reflexivity.
Qed.

Lemma import_from_dict_spec_witness :
  import_from_dict [("title", VStr "Blue in Green")] track =
    (inr tt, assigned "title" (VStr "Blue in Green") track) /\
  import_from_dict
    [("title", VStr "Blue in Green"); ("rating", VInt 5); ("album", VStr "Kind of Blue")]
    track =
    (inl (AttributeError "Attribute rating not found in Track class"),
     assigned "title" (VStr "Blue in Green") track).
Proof.
  assert (Htaken : Forall (fun kv => recognized (slots track) (fst kv))
                     [("title", VStr "Blue in Green")]).
  { apply List.Forall_cons; [| apply List.Forall_nil]. split.
    - apply (bool_decide_unpack _). vm_compute. exact I.
    - eexists. vm_compute. reflexivity. }
  destruct (import_from_dict_spec track [("title", VStr "Blue in Green")] Htaken)
    as [Hall Hfirst].
  split; [exact Hall |].
  apply (Hfirst "rating" (VInt 5) [("album", VStr "Kind of Blue")]).
  intros [Hslot _]. revert Hslot. apply (bool_decide_unpack _). vm_compute. exact I.
Defined.

Lemma resize_cover_stored_size_witness :
  (exists st',
     resize_cover plain 300 None (cover_track photo) = (inr tt, st') /\
     size <$> stored_cover st' = Some (300, 200)) /\
  (exists st',
     resize_cover plain 1 None (cover_track photo) = (inl ZeroDivisionError, st') /\
     stored_cover st' = Some photo) /\
  (exists st',
     resize_cover no_jpeg 300 None (cover_track photo) =
       (inl (OSError "cannot write mode RGBA as JPEG"), st') /\
     stored_cover st' = Some photo).
Proof.
  split; [| split].
  - destruct (resize_cover_stored_size plain (cover_track photo) 300 None song
                [("TITLE", VStr "So What")] "image/jpeg" photo [] song)
      as (Hstores & _).
    + vm_compute. reflexivity.
    + vm_compute. reflexivity.
    + apply (bool_decide_unpack _). vm_compute. exact I.
    + vm_compute. reflexivity.
    + vm_compute. reflexivity.
    + discriminate.
    + reflexivity.
    + reflexivity.
    + destruct (Hstores 200 (mkImage "JPEG" 300 200 (stamp ∅))
                  (Encoded (mkImage "JPEG" 300 200 (stamp ∅))))
        as (st' & Hrun & Hflac & _).
      * vm_compute. reflexivity.
      * vm_compute. reflexivity.
      * reflexivity.
      * exists st'. split; [exact Hrun |].
        unfold stored_cover. rewrite Hflac. reflexivity.
  - destruct (resize_cover_stored_size plain (cover_track photo) 1 None song
                [("TITLE", VStr "So What")] "image/jpeg" photo [] song)
      as (_ & _ & _ & _ & Hraises & _).
    + vm_compute. reflexivity.
    + vm_compute. reflexivity.
    + apply (bool_decide_unpack _). vm_compute. exact I.
    + vm_compute. reflexivity.
    + vm_compute. reflexivity.
    + discriminate.
    + reflexivity.
    + reflexivity.
    + destruct (Hraises ZeroDivisionError) as (st' & Hrun & Hflac & _).
      * right. exists 0. split; vm_compute; reflexivity.
      * exists st'. split; [exact Hrun |].
        unfold stored_cover. rewrite Hflac. vm_compute. reflexivity.
  - destruct (resize_cover_stored_size no_jpeg (cover_track photo) 300 None song
                [("TITLE", VStr "So What")] "image/jpeg" photo [] song)
      as (_ & _ & _ & _ & _ & Hraises).
    + vm_compute. reflexivity.
    + vm_compute. reflexivity.
    + apply (bool_decide_unpack _). vm_compute. exact I.
    + vm_compute. reflexivity.
    + vm_compute. reflexivity.
    + discriminate.
    + reflexivity.
    + reflexivity.
    + destruct (Hraises 200 (mkImage "JPEG" 300 200 (stamp ∅))
                  (OSError "cannot write mode RGBA as JPEG") None)
        as (st' & Hrun & Hflac & _).
      * vm_compute. reflexivity.
      * vm_compute. reflexivity.
      * reflexivity.
      * exists st'. split; [exact Hrun |].
        unfold stored_cover. rewrite Hflac. vm_compute. reflexivity.
Defined.

(** C5 as stated fails: asked for a width of 2400 on the 1200 x 800 cover,
    [resize_cover] stores a cover that is still 1200 wide. *)
Lemma resize_cover_2400_keeps_1200 :
  exists st' img',
    resize_cover plain 2400 None (cover_track photo) = (inr tt, st') /\
    stored_cover st' = Some img' /\
    size img' = (1200, 800) /\
    width img' <> 2400.
Proof.
  eexists. eexists. split; [vm_compute; reflexivity |].
  split; [vm_compute; reflexivity |].
  split; [reflexivity | discriminate].
Qed.

Lemma resize_cover_temp_file_witness :
  (exists st',
     resize_cover plain 300 None (cover_track photo) = (inr tt, st') /\
     fs st' !! ["music"; "temp_cover.jpg"] = None) /\
  (exists st',
     resize_cover plain 300 None orphan_track = (inl (MutagenError song), st') /\
     fs st' !! ["music"; "temp_cover.jpg"] =
       Some (Encoded (mkImage "JPEG" 300 200 (stamp ∅)))) /\
  (exists st',
     resize_cover no_jpeg 300 None (cover_track photo) =
       (inl (OSError "cannot write mode RGBA as JPEG"), st') /\
     fs st' !! ["music"; "temp_cover.jpg"] = None).
Proof.
  split; [| split].
  - destruct (resize_cover_temp_file plain (cover_track photo) 300 None song
                [("TITLE", VStr "So What")] "image/jpeg" photo [] song 200
                (mkImage "JPEG" 300 200 (stamp ∅))
                ltac:(vm_compute; reflexivity) ltac:(vm_compute; reflexivity)
                ltac:(apply (bool_decide_unpack _); vm_compute; exact I)
                ltac:(vm_compute; reflexivity) ltac:(vm_compute; reflexivity)
                ltac:(discriminate))
      as (Hwritten & _).
    destruct (Hwritten (Encoded (mkImage "JPEG" 300 200 (stamp ∅))) ltac:(reflexivity))
      as (Hsaved & _).
    apply Hsaved; vm_compute; reflexivity.
  - destruct (resize_cover_temp_file plain orphan_track 300 None song
                [("TITLE", VStr "So What")] "image/jpeg" photo [] song 200
                (mkImage "JPEG" 300 200 (stamp ∅))
                ltac:(vm_compute; reflexivity) ltac:(vm_compute; reflexivity)
                ltac:(apply (bool_decide_unpack _); vm_compute; exact I)
                ltac:(vm_compute; reflexivity) ltac:(vm_compute; reflexivity)
                ltac:(discriminate))
      as (Hwritten & _).
    destruct (Hwritten (Encoded (mkImage "JPEG" 300 200 (stamp ∅))) ltac:(reflexivity))
      as (_ & Hunsaved & _).
    apply Hunsaved. vm_compute. reflexivity.
  - destruct (resize_cover_temp_file no_jpeg (cover_track photo) 300 None song
                [("TITLE", VStr "So What")] "image/jpeg" photo [] song 200
                (mkImage "JPEG" 300 200 (stamp ∅))
                ltac:(vm_compute; reflexivity) ltac:(vm_compute; reflexivity)
                ltac:(apply (bool_decide_unpack _); vm_compute; exact I)
                ltac:(vm_compute; reflexivity) ltac:(vm_compute; reflexivity)
                ltac:(discriminate))
      as (_ & Hunwritten).
    apply (Hunwritten (OSError "cannot write mode RGBA as JPEG") None).
    reflexivity.
Defined.

(** C6 as stated fails: when the FLAC file cannot be written, the
    replacement step raises and the temporary file is still there. *)
Lemma resize_cover_leaves_temp_file :
  exists st',
    resize_cover plain 300 None orphan_track = (inl (MutagenError song), st') /\
    is_Some (fs st' !! ["music"; "temp_cover.jpg"]).
Proof.
  eexists. split; [vm_compute; reflexivity |].
  eexists. vm_compute. reflexivity.
Qed.

(** The arithmetic behind it, in binary64: 300/408 is rounded to
    6622940628486024 * 2^-53, and 300 divided by that to
    7177611906121727 * 2^-44, one unit in the last place short of 408. *)
Example aspect_ratio_300_408 :
  PIL.truediv 300 408 = inr (S754_finite false 6622940628486024 (-53)) /\
  PIL.truediv_float 300 (S754_finite false 6622940628486024 (-53)) =
    inr (S754_finite false 7177611906121727 (-44)) /\
  Float64.trunc (S754_finite false 7177611906121727 (-44)) = Some 407 /\
  408 * 2 ^ 44 = 7177611906121727 + 1.
Proof. repeat split; vm_compute; reflexivity. Qed.

(** C10, at the input where the code departs from it: asked for the width
    the 300 x 408 cover already has, [resize_cover] computes a box height
    of 407 and has a 299 x 407 image stored, whatever codec writes it;
    with the codec of the examples the stored cover is 299 x 407. *)
Lemma resize_cover_same_width_shrinks :
  box_height scan 300 = inr 407 /\
  (forall (codec : PIL.Codec) (content : bytes),
     codec (mkImage "JPEG" 299 407 (stamp ∅)) "JPEG" (stamp ∅) None = inr content ->
     exists st',
       resize_cover codec 300 None (cover_track scan) = (inr tt, st') /\
       slots st' !! "cover" = Some (VImage (mkImage "JPEG" 299 407 (stamp ∅))) /\
       slots st' !! "flac" =
         Some (VFlac song [("TITLE", VStr "So What")] [Picture "image/jpeg" content])) /\
  exists st',
    resize_cover plain 300 None (cover_track scan) = (inr tt, st') /\
    size <$> stored_cover st' = Some (299, 407).
Proof.
  split; [vm_compute; reflexivity |]. split.
  - intros codec content Hcodec. eexists. split; [| split].
    + eapply (resize_cover_ok codec (cover_track scan) 300 None song
                [("TITLE", VStr "So What")] "image/jpeg" scan [] song 407
                (mkImage "JPEG" 299 407 (stamp ∅)) content).
      * vm_compute. reflexivity.
      * vm_compute. reflexivity.
      * apply (bool_decide_unpack _). vm_compute. exact I.
      * vm_compute. reflexivity.
      * vm_compute. reflexivity.
      * exact Hcodec.
      * vm_compute. reflexivity.
      * reflexivity.
      * discriminate.
    + cbn [slots]. rewrite lookup_insert_ne by done. apply lookup_insert_eq.
    + cbn [slots]. apply lookup_insert_eq.
  - eexists. split; vm_compute; reflexivity.
Qed.

(** The mapped name ["title"] is refused like any other, and its tag stays
    in the store. *)
Lemma delete_tag_title_refused :
  "title" ∈ canonical_attributes /\
  delete_tag "title" track = (inl (WrongFLACAttributeError : exn), track) /\
  slots track !! "flac" =
    Some (VFlac song [("TITLE", VStr "So What"); ("ARTIST", VStr "Miles Davis")] []).
Proof.
  split; [apply (bool_decide_unpack _); vm_compute; exact I |].
  split; vm_compute; reflexivity.
Qed.

(** * Further properties of the two classes *)

(** ** Item access and the setters *)

Lemma assoc_lookup (d : list (string * string)) (key native : string) :
  NoDup (List.map fst d) -> (key, native) ∈ d -> assoc key d = Some native.
Proof.
  induction d as [| [k n] d IH]; intros Hnodup Hin.
  - by apply elem_of_nil in Hin.
  - cbn [List.map fst] in Hnodup. apply NoDup_cons in Hnodup as [Hfresh Hnodup].
    cbn [assoc]. apply elem_of_cons in Hin as [Heq | Hin].
    + injection Heq as -> ->. by rewrite String.eqb_refl.
    + destruct (String.eqb_spec key k) as [-> | _]; [| by apply IH].
      exfalso. apply Hfresh. by apply (list_elem_of_fmap_2 fst _ (k, native)).
Qed.


Lemma assoc_unmapped (key : string) :
  key ∉ canonical_attributes -> assoc key attrs = None.
Proof.
  intros Hnot. destruct (assoc key attrs) as [native |] eqn:E; [| reflexivity].
  exfalso. apply Hnot. apply assoc_is_Some. by eexists.
Qed.

Lemma flac_setitem_ok (st : State) (flac_key : string) (v : value) (filename : Path)
    (tags : Mutagen.Tags) (pics : list picture) :
  slots st !! "flac" = Some (VFlac filename tags pics) ->
  flac_setitem flac_key v st =
    (inr tt,
     mkState (<["flac" := VFlac filename (Mutagen.setitem tags flac_key v) pics]> (slots st))
       (fs st)).
Proof.
  intros Hflac. unfold flac_setitem.
  rewrite (bind_inr _ _ _ _ _ (getattr_slot _ _ _ Hflac)). reflexivity.
Qed.

Lemma get_default_nonempty (tags : Mutagen.Tags) (k : string) (d : value) :
  exists v rest, Mutagen.get tags k [d] = v :: rest.
Proof.
  unfold Mutagen.get, Mutagen.getitem.
  destruct (List.map snd (List.filter (Mutagen.same_key k) tags)) as [| v rest];
    eexists; eexists; reflexivity.
Qed.

Lemma getitem_ok (st : State) (key native : string) (filename : Path)
    (tags : Mutagen.Tags) (pics : list picture) :
  assoc key attrs = Some native ->
  slots st !! "flac" = Some (VFlac filename tags pics) ->
  __getitem__ key st = (inr (hd (VStr "") (Mutagen.get tags native [VStr ""])), st).
Proof.
  intros Hkey Hflac. unfold __getitem__. rewrite Hkey.
  rewrite (bind_inr _ _ _ _ _ (flac_slot _ _ _ _ _ Hflac)). cbn [Mutagen.tags].
  destruct (get_default_nonempty tags native (VStr "")) as (v & rest & ->). reflexivity.
Qed.




(** X2.  A key that is not a canonical attribute ([path], [cover] and
    [flac] included) makes both [self[key]] and [self[key] = v] raise a
    KeyError that quotes the key, with the track as it was. *)
Theorem item_access_unmapped (st : State) (key : string) (v : value) :
  key ∉ canonical_attributes ->
  __getitem__ key st =
    (inl (KeyError ("'" +:+ key +:+ "' is not a valid attribute key")), st) /\
  __setitem__ key v st =
    (inl (KeyError ("'" +:+ key +:+ "' is not a valid attribute key")), st).
Proof.
  intros Hnot. apply assoc_unmapped in Hnot.
  unfold __getitem__, __setitem__. rewrite Hnot. split; reflexivity.
Qed.

Lemma item_access_unmapped_witness :
  __getitem__ "path" track =
    (inl (KeyError "'path' is not a valid attribute key"), track) /\
  __setitem__ "path" (VPath song) track =
    (inl (KeyError "'path' is not a valid attribute key"), track).
Proof.
  apply (item_access_unmapped track "path" (VPath song)).
  apply (bool_decide_unpack _). vm_compute. exact I.
Defined.

(** X3.  [read] and [__getitem__] agree on a tag the store holds (both
    give its first value) and differ on a tag it lacks: [read] sets the
    attribute to [None], [self[key]] returns the empty string. *)
Theorem getitem_and_read_defaults (st : State) (key native : string)
    (filename : Path) (tags : Mutagen.Tags) (pics : list picture) :
  (key, native) ∈ attrs ->
  slots st !! "flac" = Some (VFlac filename tags pics) ->
  exists st',
    read st = (inr tt, st') /\
    match Mutagen.getitem tags native with
    | inr (v :: _) =>
        slots st' !! key = Some v /\ __getitem__ key st = (inr v, st)
    | _ =>
        slots st' !! key = Some VNone /\ __getitem__ key st = (inr (VStr ""), st)
    end.
Proof.
  intros Hin Hflac. destruct st as [s files]. cbn [slots] in Hflac.
  pose proof (assoc_lookup _ _ _ attrs_keys_nodup Hin) as Hkey.
  eexists. split.
  - rewrite read_unfold. eapply read_loop; [exact Hflac | apply attrs_keys_allowed].
  - cbn [slots]. rewrite (load_all_lookup _ _ _ _ _ attrs_keys_nodup Hin).
    rewrite (getitem_ok (mkState s files) _ _ _ _ _ Hkey Hflac). unfold Mutagen.get.
    destruct (Mutagen.getitem tags native) as [e | [| v vs]]; split; reflexivity.
Qed.

Lemma getitem_and_read_defaults_witness :
  exists st',
    read track = (inr tt, st') /\
    (slots st' !! "title" = Some (VStr "So What") /\
     __getitem__ "title" track = (inr (VStr "So What"), track)) /\
    (slots st' !! "genre" = Some VNone /\
     __getitem__ "genre" track = (inr (VStr ""), track)).
Proof.
  destruct (getitem_and_read_defaults track "title" "title" song
              [("TITLE", VStr "So What"); ("ARTIST", VStr "Miles Davis")] []
              ltac:(apply (bool_decide_unpack _); vm_compute; exact I)
              ltac:(vm_compute; reflexivity)) as (st1 & Hread1 & Htitle).
  destruct (getitem_and_read_defaults track "genre" "genre" song
              [("TITLE", VStr "So What"); ("ARTIST", VStr "Miles Davis")] []
              ltac:(apply (bool_decide_unpack _); vm_compute; exact I)
              ltac:(vm_compute; reflexivity)) as (st2 & Hread2 & Hgenre).
  exists st1. split; [exact Hread1 |]. split; [exact Htitle |].
  rewrite Hread1 in Hread2. injection Hread2 as <-. exact Hgenre.
Defined.

(** The comments left when those of [k] are dropped. *)
Lemma filter_comm {A} (f g : A -> bool) (l : list A) :
  List.filter f (List.filter g l) = List.filter g (List.filter f l).
Proof.
  induction l as [| x l IH]; [reflexivity |]. cbn [List.filter].
  destruct (f x) eqn:Ef, (g x) eqn:Eg; cbn [List.filter];
    rewrite ?Ef, ?Eg, IH; reflexivity.
Qed.

Lemma filter_idem {A} (f : A -> bool) (l : list A) :
  List.filter f (List.filter f l) = List.filter f l.
Proof.
  induction l as [| x l IH]; [reflexivity |]. cbn [List.filter].
  destruct (f x) eqn:Ef; cbn [List.filter]; rewrite ?Ef, IH; reflexivity.
Qed.

Lemma setitem_hides (t1 t2 : Mutagen.Tags) (k k' : string) (x : value) :
  List.filter (fun kv => negb (Mutagen.same_key k kv)) t1 =
    List.filter (fun kv => negb (Mutagen.same_key k kv)) t2 ->
  List.filter (fun kv => negb (Mutagen.same_key k kv)) (Mutagen.setitem t1 k' x) =
    List.filter (fun kv => negb (Mutagen.same_key k kv)) (Mutagen.setitem t2 k' x).
Proof.
  intros H. unfold Mutagen.setitem. rewrite !List.filter_app. f_equal.
  rewrite (filter_comm _ _ t1), (filter_comm _ _ t2), H. reflexivity.
Qed.

Lemma store_all_hides (l : list (string * string)) (s : gmap string value)
    (t1 t2 : Mutagen.Tags) (key native : string) :
  (key, native) ∈ l ->
  List.filter (fun kv => negb (Mutagen.same_key native kv)) t1 =
    List.filter (fun kv => negb (Mutagen.same_key native kv)) t2 ->
  store_all l s t1 = store_all l s t2.
Proof.
  revert t1 t2. induction l as [| [k n] l IH]; intros t1 t2 Hin H.
  - by apply elem_of_nil in Hin.
  - rewrite !store_all_cons.
    destruct (decide (n = native)) as [-> | Hne].
    + unfold Mutagen.setitem. rewrite H. reflexivity.
    + apply elem_of_cons in Hin as [[= -> ->] | Hin]; [done |].
      apply IH; [exact Hin |]. by apply setitem_hides.
Qed.

Lemma store_all_setitem (l : list (string * string)) (s : gmap string value)
    (tags : Mutagen.Tags) (key native : string) (v : value) :
  (key, native) ∈ l ->
  store_all l s (Mutagen.setitem tags native v) = store_all l s tags.
Proof.
  intros Hin. apply (store_all_hides _ _ _ _ _ _ Hin).
  unfold Mutagen.setitem. rewrite List.filter_app, filter_idem.
  cbn [List.filter]. unfold Mutagen.same_key at 2. cbn [fst].
  rewrite String.eqb_refl. cbn [negb]. apply app_nil_r.
Qed.

(** X4.  [save] writes the attributes of the track, not the items of
    the store: an item assigned just before [save] is overwritten, and the
    run ends in the very state [save] alone ends in. *)
Theorem setitem_overwritten_by_save (st : State) (key native : string) (v : value)
    (filename : Path) (tags : Mutagen.Tags) (pics : list picture) :
  (key, native) ∈ attrs ->
  slots st !! "flac" = Some (VFlac filename tags pics) ->
  (__setitem__ key v ;;; save) st = save st.
Proof.
  intros Hin Hflac. destruct st as [s files]. cbn [slots] in Hflac.
  pose proof (assoc_lookup _ _ _ attrs_keys_nodup Hin) as Hkey.
  erewrite bind_inr.
  2: { unfold __setitem__. rewrite Hkey. by apply flac_setitem_ok. }
  cbn [slots fs]. rewrite save_unfold.
  assert (Hloop : for_each attrs save_item
                    (mkState (<["flac" := VFlac filename (Mutagen.setitem tags native v) pics]> s)
                       files) =
                  for_each attrs save_item (mkState s files)).
  { rewrite (save_loop attrs _ files filename (Mutagen.setitem tags native v) pics
               (lookup_insert_eq _ _ _) attrs_keys_plain).
    rewrite (save_loop attrs s files filename tags pics Hflac attrs_keys_plain).
    rewrite insert_insert_eq. do 4 f_equal.
    rewrite (store_all_setitem _ _ _ _ _ _ Hin).
    apply store_all_ext. eapply Forall_impl; [apply attrs_keys_allowed |].
    intros kv [_ Hkv]. by apply lookup_insert_ne. }
  unfold bind at 1. rewrite Hloop. reflexivity.
Qed.

Lemma setitem_overwritten_by_save_witness :
  (__setitem__ "title" (VStr "Blue in Green") ;;; save) track = save track.
Proof.
  apply (setitem_overwritten_by_save track "title" "title" (VStr "Blue in Green") song
           [("TITLE", VStr "So What"); ("ARTIST", VStr "Miles Davis")] []).
  - apply (bool_decide_unpack _). vm_compute. exact I.
  - vm_compute. reflexivity.
Defined.






(** ** [export_to_dict] *)

Lemma getattr_default_plain (st : State) (key : string) (d : value) :
  (forall s, exists e, __getattr__ s key = inl e) ->
  getattr_default key d st = (inr (default d (slots st !! key)), st).
Proof.
  intros Hplain. destruct (Hplain (slots st)) as [e He]. unfold getattr_default, bind, get_slots, ret. rewrite He.
  destruct (slots st !! key); reflexivity.
Qed.

Lemma dict_setitem_fresh (d : list (string * value)) (k : string) (v : value) :
  Dict.get d k = None -> Dict.setitem d k v = (d ++ [(k, v)])%list.
Proof.
  induction d as [| [k' v'] d IH]; [reflexivity |]. cbn [Dict.get Dict.setitem].
  destruct (String.eqb k k'); [discriminate |]. intros H. cbn [app]. by rewrite IH.
Qed.

Lemma dict_get_app_fresh (d : list (string * value)) (k k' : string) (v : value) :
  k' <> k -> Dict.get d k' = None -> Dict.get (d ++ [(k, v)]) k' = None.
Proof.
  intros Hne. induction d as [| [k0 v0] d IH]; cbn [app Dict.get].
  - intros _. by destruct (String.eqb_spec k' k).
  - destruct (String.eqb k' k0); [discriminate | exact IH].
Qed.

Lemma export_keys_spec (st : State) (keys : list string) (acc : list (string * value)) :
  Forall (fun key => forall s, exists e, __getattr__ s key = inl e) keys ->
  NoDup keys ->
  (forall key, key ∈ keys -> Dict.get acc key = None) ->
  Track.export_keys getattr_default keys acc st =
    (inr (acc ++ List.map (exported (slots st))
                   (List.filter
                      (fun key => negb (List.existsb (String.eqb key) ["path"; "cover"]))
                      keys))%list,
     st).
Proof.
  revert acc. induction keys as [| key keys IH]; intros acc Hplain Hnodup Hfresh.
  - cbn. by rewrite app_nil_r.
  - apply Forall_cons in Hplain as [Hkey Hplain].
    apply NoDup_cons in Hnodup as [Hnew Hnodup].
    cbn [Track.export_keys List.filter].
    destruct (negb (List.existsb (String.eqb key) ["path"; "cover"])).
    + rewrite (bind_inr _ _ _ _ _ (getattr_default_plain st key VNone Hkey)).
      rewrite dict_setitem_fresh by (apply Hfresh; apply elem_of_cons; by left).
      rewrite IH; [| exact Hplain | exact Hnodup |].
      * cbn [List.map]. by rewrite <- app_assoc.
      * intros k Hk. apply dict_get_app_fresh.
        -- intros ->. contradiction.
        -- apply Hfresh. apply elem_of_cons. by right.
    + apply IH; [exact Hplain | exact Hnodup |].
      intros k Hk. apply Hfresh. apply elem_of_cons. by right.
Qed.

Lemma slots_plain :
  Forall (fun key => forall s, exists e, __getattr__ s key = inl e) __slots__.
Proof. apply Forall_forall. intros key Hkey. by apply slot_has_no_setter. Qed.

Lemma slots_nodup : NoDup __slots__.
Proof. apply (bool_decide_unpack _). vm_compute. exact I. Qed.

Lemma dict_pop_map (s : gmap string value) (keys : list string) (k : string) :
  Dict.pop (List.map (exported s) keys) k =
    List.map (exported s) (List.filter (fun key => negb (String.eqb k key)) keys).
Proof.
  induction keys as [| key keys IH]; [reflexivity |].
  cbn [List.map List.filter]. unfold Dict.pop in *. cbn [List.filter exported fst].
  destruct (negb (String.eqb k key)); cbn [List.map]; by rewrite IH.
Qed.

Lemma export_to_dict_ok (st : State) :
  export_to_dict st = (inr (List.map (exported (slots st)) canonical_attributes), st).
Proof.
  unfold export_to_dict, Track.export_to_dict.
  erewrite bind_inr.
  2: { apply export_keys_spec; [apply slots_plain | apply slots_nodup | reflexivity]. }
  cbn [app]. unfold ret. rewrite dict_pop_map. reflexivity.
Qed.

(** X6.  [export_to_dict] never fails and never changes the track.  Its
    keys are the canonical attributes, in the order of the AttributeMap,
    never [path], [cover] or [flac]; a slot never assigned is exported
    as [None]. *)
Theorem export_to_dict_spec (st : State) :
  exists out,
    export_to_dict st = (inr out, st) /\
    List.map fst out = canonical_attributes /\
    (forall key, key ∈ internal_fields -> Dict.get out key = None) /\
    (forall key, key ∈ canonical_attributes ->
       Dict.get out key = Some (default VNone (slots st !! key))).
Proof.
  exists (List.map (exported (slots st)) canonical_attributes).
  split; [apply export_to_dict_ok |].
  split; [| split].
  - rewrite List.map_map. cbn [exported fst]. apply List.map_id.
  - intros key Hkey.
    assert (Hnot : key ∉ canonical_attributes).
    { vm_compute in Hkey.
      repeat (apply elem_of_cons in Hkey as [-> | Hkey];
              [apply (bool_decide_unpack _); vm_compute; exact I |]).
      by apply elem_of_nil in Hkey. }
    revert Hnot. generalize canonical_attributes. intros l.
    induction l as [| k l IH]; [reflexivity |]. intros Hnot.
    apply not_elem_of_cons in Hnot as [Hne Hnot]. cbn [List.map exported Dict.get].
    destruct (String.eqb_spec key k); [contradiction | by apply IH].
  - generalize canonical_attributes. intros l key Hkey.
    induction l as [| k l IH]; [by apply elem_of_nil in Hkey |].
    cbn [List.map exported Dict.get].
    destruct (String.eqb_spec key k) as [-> | Hne]; [reflexivity |].
    apply IH. apply elem_of_cons in Hkey as [-> | Hkey]; [contradiction | exact Hkey].
Qed.

Lemma canonical_is_slot (key : string) : key ∈ canonical_attributes -> key ∈ __slots__.
Proof.
  intros H. apply slots_are_allow_list. unfold allow_list. apply elem_of_app. by left.
Qed.

Lemma assign_all_exported (s : gmap string value) (keys : list string) :
  Forall (fun key => is_Some (s !! key)) keys ->
  assign_all (List.map (exported s) keys) s = s.
Proof.
  induction keys as [| key keys IH]; intros Hall; [reflexivity |].
  apply Forall_cons in Hall as [[v Hv] Hall].
  cbn [List.map assign_all fold_left exported fst snd]. rewrite Hv. cbn [default].
  rewrite (insert_id _ _ _ Hv). by apply IH.
Qed.

Lemma rejection_unassigned (s : gmap string value) (key : string) :
  key ∈ __slots__ -> s !! key = None ->
  rejection s key = "Attribute " +:+ key +:+ " not found in Track class".
Proof.
  intros Hslot Hnone. unfold rejection, found.
  destruct (slot_has_no_setter key Hslot s) as [e ->].
  apply contains_spec in Hslot. rewrite Hslot, Hnone. reflexivity.
Qed.

(** X7.  Importing what [export_to_dict] returned leaves the track as
    it was when every canonical attribute is assigned.  Otherwise the
    import stops at the first attribute never assigned, with the
    AttributeError of [import_from_dict] and the track unchanged: the
    exported [None] of such a slot cannot be imported. *)
Theorem export_then_import (st : State) :
  ((forall key, key ∈ canonical_attributes -> is_Some (slots st !! key)) ->
     (d <- export_to_dict ;; import_from_dict d) st = (inr tt, st)) /\
  (forall (before after : list string) (key : string),
     canonical_attributes = (before ++ key :: after)%list ->
     Forall (fun k => is_Some (slots st !! k)) before ->
     slots st !! key = None ->
     (d <- export_to_dict ;; import_from_dict d) st =
       (inl (AttributeError ("Attribute " +:+ key +:+ " not found in Track class")), st)).
Proof.
  split.
  - intros Hall. rewrite (bind_inr _ _ _ _ _ (export_to_dict_ok st)).
    assert (Hset : Forall (fun k => is_Some (slots st !! k)) canonical_attributes)
      by (apply Forall_forall; exact Hall).
    rewrite <- (app_nil_r (List.map _ _)). rewrite import_recognized_prefix.
    + rewrite assign_all_exported by exact Hset. by destruct st.
    + apply Forall_forall. intros kv Hkv.
      apply list_elem_of_fmap in Hkv as (k & -> & Hk). cbn [exported fst].
      split; [by apply canonical_is_slot | by apply Hall].
  - intros before after key Hsplit Hbefore Hnone.
    rewrite (bind_inr _ _ _ _ _ (export_to_dict_ok st)).
    assert (Hkey : key ∈ canonical_attributes).
    { rewrite Hsplit. apply elem_of_app. right. apply elem_of_cons. by left. }
    assert (Hsub : forall k, k ∈ before -> k ∈ canonical_attributes).
    { intros k Hk. rewrite Hsplit. apply elem_of_app. by left. }
    rewrite Hsplit, List.map_app. cbn [List.map].
    rewrite import_recognized_prefix.
    + rewrite assign_all_exported by exact Hbefore.
      change (exported (slots st) key) with (key, default VNone (slots st !! key)).
      rewrite import_step_rejected.
      * cbn [slots]. rewrite rejection_unassigned; [by destruct st | | exact Hnone].
        by apply canonical_is_slot.
      * cbn [slots]. intros [_ [v Hv]]. congruence.
    + apply Forall_forall. intros kv Hkv.
      apply list_elem_of_fmap in Hkv as (k & -> & Hk). cbn [exported fst].
      split; [apply canonical_is_slot; by apply Hsub |].
      by apply (proj1 (Forall_forall _ _) Hbefore).
Qed.

Lemma export_then_import_witness :
  (d <- export_to_dict ;; import_from_dict d) track = (inr tt, track) /\
  (d <- export_to_dict ;; import_from_dict d) (mkState ∅ disk) =
    (inl (AttributeError "Attribute album not found in Track class"), mkState ∅ disk).
Proof.
  split.
  - apply (proj1 (export_then_import track)).
    intros key Hkey. vm_compute in Hkey.
    repeat (apply elem_of_cons in Hkey as [-> | Hkey]; [eexists; vm_compute; reflexivity |]).
    by apply elem_of_nil in Hkey.
  - apply (proj2 (export_then_import (mkState ∅ disk)) [] (List.tl canonical_attributes)
             "album").
    + reflexivity.
    + apply List.Forall_nil.
    + reflexivity.
Defined.

Lemma assign_all_app (d1 d2 : list (string * value)) (s : gmap string value) :
  assign_all (d1 ++ d2) s = assign_all d2 (assign_all d1 s).
Proof. unfold assign_all. apply fold_left_app. Qed.

Lemma assign_all_lookup (d : list (string * value)) (s : gmap string value)
    (key : string) (v : value) :
  NoDup (List.map fst d) -> (key, v) ∈ d -> assign_all d s !! key = Some v.
Proof.
  revert s. induction d as [| [k0 v0] d IH]; intros s Hnodup Hin.
  - by apply elem_of_nil in Hin.
  - cbn [List.map fst] in Hnodup. apply NoDup_cons in Hnodup as [Hfresh Hnodup].
    cbn [assign_all fold_left fst snd].
    apply elem_of_cons in Hin as [[= -> ->] | Hin]; [| by apply IH].
    assert (Hkeep : forall s', s' !! k0 = Some v0 -> assign_all d s' !! k0 = Some v0).
    { clear IH Hnodup. induction d as [| [k1 v1] d IH]; intros s' Hs'; [exact Hs' |].
      cbn [List.map fst] in Hfresh. apply not_elem_of_cons in Hfresh as [Hne Hfresh].
      cbn [assign_all fold_left fst snd]. apply IH; [exact Hfresh |].
      by rewrite lookup_insert_ne. }
    apply Hkeep. apply lookup_insert_eq.
Qed.

(** X8.  After importing a dictionary with distinct keys that are
    assigned canonical attributes, [export_to_dict] gives each of these
    keys the imported value and every other attribute the value it
    had. *)
Theorem import_then_export (st : State) (d : list (string * value)) :
  Forall (fun kv => fst kv ∈ canonical_attributes /\ is_Some (slots st !! fst kv)) d ->
  NoDup (List.map fst d) ->
  exists st' out,
    (import_from_dict d ;;; export_to_dict) st = (inr out, st') /\
    (forall key v, (key, v) ∈ d -> Dict.get out key = Some v) /\
    (forall key, key ∈ canonical_attributes -> key ∉ List.map fst d ->
       Dict.get out key = Some (default VNone (slots st !! key))).
Proof.
  intros Hall Hnodup.
  assert (Hrec : Forall (fun kv => recognized (slots st) (fst kv)) d).
  { eapply Forall_impl; [exact Hall |]. intros kv [Hkey Hset].
    split; [by apply canonical_is_slot | exact Hset]. }
  assert (Hget : forall (s : gmap string value) key, key ∈ canonical_attributes ->
            Dict.get (List.map (exported s) canonical_attributes) key =
              Some (default VNone (s !! key))).
  { intros s. generalize canonical_attributes. intros l key Hkey.
    induction l as [| k l IH]; [by apply elem_of_nil in Hkey |].
    cbn [List.map exported Dict.get].
    destruct (String.eqb_spec key k) as [-> | Hne]; [reflexivity |].
    apply IH. apply elem_of_cons in Hkey as [-> | Hkey]; [contradiction | exact Hkey]. }
  assert (Himport : import_from_dict d st =
                      (inr tt, mkState (assign_all d (slots st)) (fs st))).
  { rewrite <- (app_nil_r d) at 1. by rewrite (import_recognized_prefix _ _ _ Hrec). }
  eexists. eexists. split; [| split].
  - rewrite (bind_inr _ _ _ _ _ Himport). apply export_to_dict_ok.
  - intros key v Hin. cbn [slots]. rewrite Hget.
    + by rewrite (assign_all_lookup _ _ _ _ Hnodup Hin).
    + apply (proj1 (Forall_forall _ _) Hall (key, v) Hin).
  - intros key Hkey Hnot. cbn [slots]. rewrite Hget by exact Hkey. do 2 f_equal.
    clear Hall Hnodup Hrec Himport. revert Hnot. generalize (slots st).
    induction d as [| [k0 v0] d IH]; intros s Hnot; [reflexivity |].
    cbn [List.map fst] in Hnot. apply not_elem_of_cons in Hnot as [Hne Hnot].
    cbn [assign_all fold_left fst snd]. unfold assign_all in IH. rewrite IH by exact Hnot.
    by apply lookup_insert_ne.
Qed.

Lemma import_then_export_witness :
  exists st' out,
    (import_from_dict [("title", VStr "Blue in Green"); ("bpm", VInt 60)] ;;;
     export_to_dict) track = (inr out, st') /\
    Dict.get out "title" = Some (VStr "Blue in Green") /\
    Dict.get out "bpm" = Some (VInt 60) /\
    Dict.get out "artist" = Some (VStr "Miles Davis").
Proof.
  destruct (import_then_export track [("title", VStr "Blue in Green"); ("bpm", VInt 60)])
    as (st' & out & Hrun & Hin & Hout).
  - repeat apply List.Forall_cons; try apply List.Forall_nil;
      (split; [apply (bool_decide_unpack _); vm_compute; exact I
              | eexists; vm_compute; reflexivity]).
  - apply (bool_decide_unpack _). vm_compute. exact I.
  - exists st', out. split; [exact Hrun |]. split; [| split].
    + apply Hin. apply elem_of_cons. left. reflexivity.
    + apply Hin. apply elem_of_cons. right. apply elem_of_cons. left. reflexivity.
    + rewrite Hout.
      * vm_compute. reflexivity.
      * apply (bool_decide_unpack _). vm_compute. exact I.
      * apply (bool_decide_unpack _). vm_compute. exact I.
Defined.

(** ** [__init__] *)

Lemma read_ok (s : gmap string value) (files : gmap Path bytes) (filename : Path)
    (tags : Mutagen.Tags) (pics : list picture) :
  s !! "flac" = Some (VFlac filename tags pics) ->
  read (mkState s files) = (inr tt, mkState (load_all attrs tags s) files).
Proof.
  intros Hflac. rewrite read_unfold.
  eapply read_loop; [exact Hflac | apply attrs_keys_allowed].
Qed.

Lemma load_all_flac (tags : Mutagen.Tags) (s : gmap string value) (name : string) :
  name ∈ internal_fields -> load_all attrs tags s !! name = s !! name.
Proof.
  intros Hname. apply load_all_other. vm_compute in Hname.
  repeat (apply elem_of_cons in Hname as [-> | Hname];
          [apply (bool_decide_unpack _); vm_compute; exact I |]).
  by apply elem_of_nil in Hname.
Qed.

Lemma internal_path : "path" ∈ internal_fields.
Proof. apply (bool_decide_unpack _). vm_compute. exact I. Qed.
Lemma internal_cover : "cover" ∈ internal_fields.
Proof. apply (bool_decide_unpack _). vm_compute. exact I. Qed.
Lemma internal_flac : "flac" ∈ internal_fields.
Proof. apply (bool_decide_unpack _). vm_compute. exact I. Qed.

Lemma internal_allowed (name : string) : name ∈ internal_fields -> name ∈ allow_list.
Proof. intros H. unfold allow_list. apply elem_of_app. by right. Qed.

Lemma read_cover_first (st : State) (filename : Path) (tags : Mutagen.Tags)
    (pics : list picture) :
  slots st !! "flac" = Some (VFlac filename tags pics) ->
  read_cover st =
    match first_image pics with
    | inl e => (inl e, st)
    | inr None => (inr None, st)
    | inr (Some img) => (inr (Some img), assigned "cover" (VImage img) st)
    end.
Proof.
  intros Hflac. unfold read_cover.
  rewrite (bind_inr _ _ _ _ _ (flac_slot _ _ _ _ _ Hflac)). cbn [Mutagen.pictures].
  destruct pics as [| pic rest]; [reflexivity |]. cbn [first_image].
  destruct (PIL.open (data pic)) as [e | img]; [reflexivity |].
  unfold lift. erewrite bind_inr; [| reflexivity].
  erewrite bind_inr; [reflexivity |].
  apply setattr_allowed. apply internal_allowed, internal_cover.
Qed.

(** The slots once [__init__] has read the tags. *)
Lemma init_read (p : Path) (files : gmap Path bytes) (comments : list (string * string))
    (pics : list picture) :
  files !! p = Some (FlacFile comments pics) ->
  __init__ p (mkState ∅ files) =
    (_ <- read_cover ;; ret tt)
      (mkState (load_all attrs (loaded comments)
                  (<["flac" := VFlac p (loaded comments) pics]> (<["path" := VPath p]> ∅)))
         files).
Proof.
  intros Hfile. unfold __init__.
  erewrite bind_inr.
  2: { apply setattr_allowed. apply internal_allowed, internal_path. }
  erewrite bind_inr.
  2: { erewrite bind_inr; [| reflexivity]. cbn [assigned fs slots].
       unfold Mutagen.load. rewrite Hfile. unfold lift.
       erewrite bind_inr; [| reflexivity].
       apply setattr_allowed. apply internal_allowed, internal_flac. }
  cbn [assigned fs slots Mutagen.to_value Mutagen.filename Mutagen.tags Mutagen.pictures].
  erewrite bind_inr.
  2: { apply (read_ok _ _ p (loaded comments) pics). apply lookup_insert_eq. }
  reflexivity.
Qed.

Lemma init_run (p : Path) (files : gmap Path bytes) (comments : list (string * string))
    (pics : list picture) :
  files !! p = Some (FlacFile comments pics) ->
  let s := load_all attrs (loaded comments)
             (<["flac" := VFlac p (loaded comments) pics]> (<["path" := VPath p]> ∅)) in
  __init__ p (mkState ∅ files) =
    match first_image pics with
    | inl e => (inl e, mkState s files)
    | inr None => (inr tt, mkState s files)
    | inr (Some img) => (inr tt, assigned "cover" (VImage img) (mkState s files))
    end /\
  s !! "path" = Some (VPath p) /\
  s !! "flac" = Some (VFlac p (loaded comments) pics) /\
  s !! "cover" = None /\
  (forall key native, (key, native) ∈ attrs ->
     s !! key = Some (hd VNone (Mutagen.get (loaded comments) native [VNone]))).
Proof.
  intros Hfile s.
  assert (Hflac : s !! "flac" = Some (VFlac p (loaded comments) pics)).
  { subst s. rewrite (load_all_flac _ _ _ internal_flac). apply lookup_insert_eq. }
  split; [| split; [| split; [exact Hflac | split]]].
  - rewrite (init_read _ _ _ _ Hfile). fold s.
    unfold bind. rewrite (read_cover_first (mkState s files) p _ pics Hflac).
    by destruct (first_image pics) as [e | [img |]].
  - subst s. rewrite (load_all_flac _ _ _ internal_path).
    rewrite lookup_insert_ne by done. apply lookup_insert_eq.
  - subst s. rewrite (load_all_flac _ _ _ internal_cover).
    rewrite !lookup_insert_ne by done. apply lookup_empty.
  - intros key native Hin. subst s. by apply load_all_lookup; [apply attrs_keys_nodup |].
Qed.

Lemma attrs_not_cover (key native : string) : (key, native) ∈ attrs -> "cover" <> key.
Proof.
  intros Hin <-. revert Hin. apply (bool_decide_unpack _). vm_compute. exact I.
Qed.

(** [__init__] on a FLAC file whose first picture, if any, decodes. *)
Lemma init_ok (p : Path) (files : gmap Path bytes) (comments : list (string * string))
    (pics : list picture) (r : option Image) :
  files !! p = Some (FlacFile comments pics) ->
  first_image pics = inr r ->
  exists st',
    __init__ p (mkState ∅ files) = (inr tt, st') /\
    fs st' = files /\
    slots st' !! "path" = Some (VPath p) /\
    slots st' !! "flac" = Some (VFlac p (loaded comments) pics) /\
    slots st' !! "cover" = VImage <$> r /\
    (forall key native, (key, native) ∈ attrs ->
       slots st' !! key =
         Some (hd VNone (Mutagen.get (loaded comments) native [VNone]))).
Proof.
  intros Hfile Hr.
  destruct (init_run p files comments pics Hfile) as (Hrun & Hpath & Hflac & Hcover & Hattr).
  rewrite Hr in Hrun. destruct r as [img |]; eexists; (split; [exact Hrun |]);
    cbn [assigned slots fs]; (split; [reflexivity |]).
  - rewrite !lookup_insert_ne by done. rewrite lookup_insert_eq.
    repeat split; try done.
    intros key native Hin. rewrite lookup_insert_ne; [by apply Hattr |].
    by eapply attrs_not_cover.
  - done.
Qed.

(** X9.  Construction on a FLAC file: the store is loaded, [path] and
    [flac] are set, every canonical attribute is assigned the first
    value of its native tag or [None], and [cover] is set exactly when the
    file holds a picture; the files are not touched.  A first picture
    that does not decode makes the constructor raise the decoder's error,
    and a path that holds no FLAC file makes it raise before any tag is
    read. *)
Theorem init_spec (p : Path) (files : gmap Path bytes) :
  (forall (comments : list (string * string)) (pics : list picture),
     files !! p = Some (FlacFile comments pics) ->
     match first_image pics with
     | inl e => fst (__init__ p (mkState ∅ files)) = inl e
     | inr r =>
         exists st',
           __init__ p (mkState ∅ files) = (inr tt, st') /\
           fs st' = files /\
           slots st' !! "path" = Some (VPath p) /\
           slots st' !! "flac" = Some (VFlac p (loaded comments) pics) /\
           slots st' !! "cover" = VImage <$> r /\
           (forall key native, (key, native) ∈ attrs ->
              slots st' !! key =
                Some (hd VNone (Mutagen.get (loaded comments) native [VNone])))
     end) /\
  (is_flac_file (files !! p) = false ->
     __init__ p (mkState ∅ files) =
       (inl (MutagenError p), mkState {["path" := VPath p]} files)).
Proof.
  split.
  - intros comments pics Hfile.
    destruct (first_image pics) as [e | r] eqn:Hr.
    + destruct (init_run p files comments pics Hfile) as (Hrun & _).
      rewrite Hr in Hrun. by rewrite Hrun.
    + by eapply init_ok.
  - intros Hfile. unfold __init__.
    erewrite bind_inr.
    2: { apply setattr_allowed. apply internal_allowed, internal_path. }
    erewrite bind_inl; [reflexivity |].
    erewrite bind_inr; [| reflexivity]. cbn [assigned fs slots].
    unfold Mutagen.load.
    destruct (files !! p) as [[] |]; try discriminate; reflexivity.
Qed.

Lemma init_spec_witness :
  (exists st',
     __init__ song (mkState ∅ disk) = (inr tt, st') /\
     slots st' !! "title" = Some (VStr "So What") /\
     slots st' !! "genre" = Some VNone /\
     slots st' !! "cover" = None) /\
  __init__ song (mkState ∅ ∅) = (inl (MutagenError song), mkState {["path" := VPath song]} ∅).
Proof.
  split.
  - destruct (proj1 (init_spec song disk)
                [("TITLE", "So What"); ("ARTIST", "Miles Davis")] []
                ltac:(vm_compute; reflexivity))
      as (st' & Hrun & _ & _ & _ & Hcover & Hattr).
    exists st'. split; [exact Hrun |]. split; [| split; [| exact Hcover]].
    + rewrite (Hattr "title" "title"); [reflexivity |].
      apply (bool_decide_unpack _). vm_compute. exact I.
    + rewrite (Hattr "genre" "genre"); [reflexivity |].
      apply (bool_decide_unpack _). vm_compute. exact I.
  - apply (proj2 (init_spec song ∅)). reflexivity.
Defined.

(** ** [read] *)

Lemma load_all_agree (l : list (string * string)) (tags : Mutagen.Tags)
    (s s' : gmap string value) :
  NoDup (List.map fst l) ->
  (forall key, key ∉ List.map fst l -> s !! key = s' !! key) ->
  load_all l tags s = load_all l tags s'.
Proof.
  intros Hnodup Hagree. apply map_eq. intros key.
  destruct (decide (key ∈ List.map fst l)) as [Hin | Hnot].
  - apply list_elem_of_fmap in Hin as ([k n] & -> & Hin). cbn [fst].
    by rewrite !(load_all_lookup _ _ _ _ _ Hnodup Hin).
  - rewrite !load_all_other by exact Hnot. by apply Hagree.
Qed.

(** X10.  [read] takes every canonical attribute from the store: an
    attribute assigned before it is overwritten, a second [read] changes
    nothing, and the other slots and the files stay as they were. *)
Theorem read_restores_stored_values (st : State) (filename : Path)
    (tags : Mutagen.Tags) (pics : list picture) :
  slots st !! "flac" = Some (VFlac filename tags pics) ->
  (forall (name : string) (v : value),
     name ∈ canonical_attributes -> (__setattr__ name v ;;; read) st = read st) /\
  (read ;;; read) st = read st /\
  exists st',
    read st = (inr tt, st') /\
    fs st' = fs st /\
    (forall name, name ∉ canonical_attributes -> slots st' !! name = slots st !! name) /\
    (forall key native, (key, native) ∈ attrs ->
       slots st' !! key = Some (hd VNone (Mutagen.get tags native [VNone]))).
Proof.
  intros Hflac. destruct st as [s files]. cbn [slots fs] in *.
  split; [| split].
  - intros name v Hname.
    assert (Hallow : name ∈ allow_list) by (unfold allow_list; apply elem_of_app; by left).
    rewrite (bind_inr _ _ _ _ _ (setattr_allowed name v _ Hallow)).
    unfold assigned. cbn [slots fs].
    assert (Hne : name <> "flac").
    { intros ->. revert Hname. apply (bool_decide_unpack _). vm_compute. exact I. }
    rewrite (read_ok _ _ filename tags pics)
      by (rewrite lookup_insert_ne by done; exact Hflac).
    rewrite (read_ok _ _ filename tags pics Hflac). do 2 f_equal.
    apply load_all_agree; [apply attrs_keys_nodup |].
    intros key Hkey. apply lookup_insert_ne. intros <-. contradiction.
  - rewrite (bind_inr _ _ _ _ _ (read_ok _ _ _ _ _ Hflac)).
    rewrite (read_ok _ _ filename tags pics)
      by (rewrite (load_all_flac _ _ _ internal_flac); exact Hflac).
    rewrite (read_ok _ _ filename tags pics Hflac). do 2 f_equal.
    apply load_all_agree; [apply attrs_keys_nodup |].
    intros key Hkey. by apply load_all_other.
  - eexists. split; [by eapply read_ok |]. cbn [slots fs].
    split; [reflexivity |]. split.
    + intros name Hname. by apply load_all_other.
    + intros key native Hin. by apply load_all_lookup; [apply attrs_keys_nodup |].
Qed.

Lemma read_restores_stored_values_witness :
  (__setattr__ "title" (VStr "Blue in Green") ;;; read) track = read track /\
  (read ;;; read) track = read track.
Proof.
  destruct (read_restores_stored_values track song
              [("TITLE", VStr "So What"); ("ARTIST", VStr "Miles Davis")] []
              ltac:(vm_compute; reflexivity)) as (Hset & Hidem & _).
  split; [| exact Hidem].
  apply Hset. apply (bool_decide_unpack _). vm_compute. exact I.
Defined.

(** ** [delete_tags] *)

Lemma delete_tags_ok (st : State) (filename : Path) (tags : Mutagen.Tags)
    (pics : list picture) :
  slots st !! "flac" = Some (VFlac filename tags pics) ->
  is_flac_file (fs st !! filename) = true ->
  delete_tags st =
    (inr tt, mkState (<["flac" := VFlac filename [] pics]> (slots st))
               (<[filename := FlacFile [] pics]> (fs st))).
Proof.
  intros Hflac Hfile. unfold delete_tags.
  rewrite (bind_inr _ _ _ _ _ (flac_slot _ _ _ _ _ Hflac)).
  erewrite bind_inr; [| reflexivity].
  unfold Mutagen.delete. cbn [Mutagen.filename Mutagen.pictures].
  destruct (fs st !! filename) as [[] |]; try discriminate. reflexivity.
Qed.

Lemma delete_tags_missing (st : State) (filename : Path) (tags : Mutagen.Tags)
    (pics : list picture) :
  slots st !! "flac" = Some (VFlac filename tags pics) ->
  is_flac_file (fs st !! filename) = false ->
  delete_tags st = (inl (MutagenError filename), st).
Proof.
  intros Hflac Hfile. unfold delete_tags.
  rewrite (bind_inr _ _ _ _ _ (flac_slot _ _ _ _ _ Hflac)).
  erewrite bind_inr; [| reflexivity].
  unfold Mutagen.delete. cbn [Mutagen.filename Mutagen.pictures].
  destruct (fs st !! filename) as [[] |]; try discriminate; reflexivity.
Qed.

(** X11.  [delete_tags] empties the comments of the store and of the
    FLAC file and keeps the pictures; the attributes of the track stay as
    they were until a [read], which then sets every one of them to [None].
    Without the FLAC file on disk it raises and changes nothing. *)
Theorem delete_tags_spec (st : State) (filename : Path) (tags : Mutagen.Tags)
    (pics : list picture) :
  slots st !! "flac" = Some (VFlac filename tags pics) ->
  (is_flac_file (fs st !! filename) = true ->
     exists st1,
       delete_tags st = (inr tt, st1) /\
       slots st1 !! "flac" = Some (VFlac filename [] pics) /\
       fs st1 !! filename = Some (FlacFile [] pics) /\
       (forall name, name <> "flac" -> slots st1 !! name = slots st !! name) /\
       exists st2,
         read st1 = (inr tt, st2) /\
         forall name, name ∈ canonical_attributes -> slots st2 !! name = Some VNone) /\
  (is_flac_file (fs st !! filename) = false ->
     delete_tags st = (inl (MutagenError filename), st)).
Proof.
  intros Hflac. split.
  - intros Hfile. eexists. split; [by eapply delete_tags_ok |].
    cbn [slots fs]. rewrite !lookup_insert_eq.
    split; [reflexivity |]. split; [reflexivity |]. split.
    + intros name Hname. by rewrite lookup_insert_ne.
    + eexists. split.
      * apply (read_ok _ _ filename [] pics). apply lookup_insert_eq.
      * intros name Hname. cbn [slots]. unfold canonical_attributes in Hname.
        apply list_elem_of_fmap in Hname as ([key native] & -> & Hin). cbn [fst].
        by rewrite (load_all_lookup _ _ _ _ _ attrs_keys_nodup Hin).
  - intros Hfile. by eapply delete_tags_missing.
Qed.

Lemma delete_tags_spec_witness :
  (exists st1,
     delete_tags track = (inr tt, st1) /\
     fs st1 !! song = Some (FlacFile [] []) /\
     slots st1 !! "title" = Some (VStr "So What")) /\
  delete_tags orphan_track = (inl (MutagenError song), orphan_track).
Proof.
  split.
  - destruct (proj1 (delete_tags_spec track song
                       [("TITLE", VStr "So What"); ("ARTIST", VStr "Miles Davis")] []
                       ltac:(vm_compute; reflexivity)) ltac:(vm_compute; reflexivity))
      as (st1 & Hrun & _ & Hfile & Hkeep & _).
    exists st1. split; [exact Hrun |]. split; [exact Hfile |].
    rewrite Hkeep by discriminate. vm_compute. reflexivity.
  - apply (proj2 (delete_tags_spec orphan_track song [("TITLE", VStr "So What")]
                    [Picture "image/jpeg" (Encoded photo)]
                    ltac:(vm_compute; reflexivity))).
    vm_compute. reflexivity.
Defined.

(** ** What [save] writes *)

Lemma store_all_app (l1 l2 : list (string * string)) (s : gmap string value)
    (tags : Mutagen.Tags) :
  store_all (l1 ++ l2) s tags = store_all l2 s (store_all l1 s tags).
Proof. unfold store_all. apply fold_left_app. Qed.

Lemma native_in_app (l1 l2 : list (string * string)) (key : string) :
  native_in (l1 ++ l2) key = native_in l1 key || native_in l2 key.
Proof. unfold native_in. apply existsb_app. Qed.

Lemma filter_all {A} (f : A -> bool) (l : list A) :
  Forall (fun x => f x = true) l -> List.filter f l = l.
Proof.
  induction l as [| x l IH]; intros Hall; [reflexivity |].
  apply Forall_cons in Hall as [Hx Hall]. cbn [List.filter]. by rewrite Hx, IH.
Qed.

Lemma filter_and {A} (f g : A -> bool) (l : list A) :
  List.filter f (List.filter g l) = List.filter (fun x => g x && f x) l.
Proof.
  induction l as [| x l IH]; [reflexivity |]. cbn [List.filter].
  destruct (g x); cbn [List.filter andb]; [destruct (f x) |]; by rewrite IH.
Qed.

(** The store after the loop of [save]: the comments of other keys, then
    one comment for each pair, in the order of the pairs. *)
Lemma store_all_form (l : list (string * string)) (s : gmap string value)
    (tags : Mutagen.Tags) :
  NoDup (List.map (fun kv => Mutagen.lower (snd kv)) l) ->
  store_all l s tags =
    (List.filter (fun kv => negb (native_in l (fst kv))) tags ++
     List.map (fun kv => (snd kv, collapse (s !! fst kv))) l)%list.
Proof.
  induction l as [| [key native] l IH] using rev_ind; intros Hnodup.
  - cbn. rewrite app_nil_r. symmetry. apply filter_all. by apply Forall_forall.
  - rewrite List.map_app in Hnodup. apply NoDup_app in Hnodup as (Hl & Hfresh & _).
    rewrite store_all_app, (IH Hl). cbn [store_all fold_left fst snd].
    unfold Mutagen.setitem. rewrite List.filter_app, List.map_app. cbn [List.map fst snd].
    rewrite <- app_assoc. f_equal; [| f_equal].
    + rewrite filter_and. apply List.filter_ext. intros kv.
      rewrite native_in_app, negb_orb. f_equal.
      unfold native_in, Mutagen.same_key. cbn [List.existsb snd].
      by rewrite orb_false_r, String.eqb_sym.
    + apply filter_all. apply Forall_forall. intros kv Hkv.
      apply list_elem_of_fmap in Hkv as ([k n] & -> & Hkn).
      unfold Mutagen.same_key. cbn [fst snd].
      apply negb_true_iff, String.eqb_neq. intros Heq.
      apply (Hfresh (Mutagen.lower n)).
      * apply (list_elem_of_fmap_2 (fun kv => Mutagen.lower (snd kv)) _ _ Hkn).
      * cbn [List.map snd]. rewrite Heq. apply elem_of_cons. by left.
Qed.

Lemma save_tags_form (s : gmap string value) (tags : Mutagen.Tags) :
  store_all attrs s tags =
    (foreign tags ++ List.map (fun kv => (snd kv, collapse (s !! fst kv))) attrs)%list.
Proof. apply store_all_form, attrs_natives_nodup. Qed.

Lemma foreign_comment (tags : Mutagen.Tags) :
  foreign (List.map Mutagen.comment tags) = List.map Mutagen.comment (foreign tags).
Proof.
  unfold foreign. induction tags as [| [k v] tags IH]; [reflexivity |].
  cbn [List.map List.filter]. unfold Mutagen.comment at 1. cbn [fst].
  destruct (negb (is_native k)); cbn [List.map]; by rewrite IH.
Qed.

Lemma save_comments_form (s : gmap string value) (tags : Mutagen.Tags) :
  List.map Mutagen.comment (store_all attrs s tags) =
    (foreign (List.map Mutagen.comment tags) ++ List.map (written s) attrs)%list.
Proof.
  rewrite save_tags_form, List.map_app, foreign_comment, List.map_map. reflexivity.
Qed.

Lemma foreign_app {A} (l1 l2 : list (string * A)) :
  foreign (l1 ++ l2) = (foreign l1 ++ foreign l2)%list.
Proof. unfold foreign. apply List.filter_app. Qed.

Lemma foreign_idem {A} (l : list (string * A)) : foreign (foreign l) = foreign l.
Proof.
  unfold foreign. induction l as [| x l IH]; [reflexivity |]. cbn [List.filter].
  destruct (negb (is_native (fst x))) eqn:E; cbn [List.filter]; rewrite ?E, IH; reflexivity.
Qed.

Lemma foreign_written (s : gmap string value) (l : list (string * string)) :
  Forall (fun kv => is_native (snd kv) = true) l ->
  foreign (List.map (fun kv => (snd kv, collapse (s !! fst kv))) l) = [].
Proof.
  unfold foreign. induction l as [| kv l IH]; intros Hall; [reflexivity |].
  apply Forall_cons in Hall as [Hn Hall]. cbn [List.map List.filter fst].
  rewrite Hn. cbn [negb]. by apply IH.
Qed.

Lemma attrs_natives : Forall (fun kv => is_native (snd kv) = true) attrs.
Proof.
  apply Forall_forall. intros kv Hkv. vm_compute in Hkv.
  repeat (apply elem_of_cons in Hkv as [-> | Hkv]; [reflexivity |]).
  by apply elem_of_nil in Hkv.
Qed.

Lemma store_all_idem (s s' : gmap string value) (tags : Mutagen.Tags) :
  (forall kv, kv ∈ attrs -> s' !! fst kv = s !! fst kv) ->
  store_all attrs s' (store_all attrs s tags) = store_all attrs s tags.
Proof.
  intros Hsame. rewrite (store_all_ext attrs s s').
  2: { apply Forall_forall. exact Hsame. }
  rewrite !save_tags_form, foreign_app, foreign_idem.
  rewrite (foreign_written _ _ attrs_natives). by rewrite app_nil_r.
Qed.

Lemma comment_loaded (comments : list (string * string)) :
  List.map Mutagen.comment (loaded comments) = comments.
Proof.
  unfold loaded. induction comments as [| [k v] comments IH]; [reflexivity |].
  cbn [List.map]. by rewrite IH.
Qed.

Lemma validate_loaded (comments : list (string * string)) :
  Mutagen.validate (loaded comments) = true.
Proof. unfold Mutagen.validate, loaded. induction comments; [reflexivity | exact IHcomments]. Qed.

Lemma loaded_values (comments : list (string * string)) (key : string) :
  List.map snd (List.filter (Mutagen.same_key key) (loaded comments)) =
    List.map VStr (values_of comments key).
Proof.
  unfold loaded, values_of. induction comments as [| [k v] comments IH]; [reflexivity |].
  cbn [List.map List.filter]. unfold Mutagen.same_key at 1. cbn [fst snd].
  destruct (String.eqb (Mutagen.lower k) (Mutagen.lower key)); cbn [List.map snd];
    by rewrite IH.
Qed.

Lemma first_loaded (comments : list (string * string)) (key : string) :
  collapse (Some (hd VNone (Mutagen.get (loaded comments) key [VNone]))) =
    VStr (hd "" (values_of comments key)).
Proof.
  unfold Mutagen.get, Mutagen.getitem. rewrite loaded_values.
  destruct (values_of comments key); reflexivity.
Qed.

(** X12.  What [save] leaves in the FLAC file: the comments no canonical
    attribute stands for, in their order, followed by one comment for
    each canonical attribute, under its native key and in the order of
    the AttributeMap, the empty text standing for [None].  No slot but
    the store changes, and a second [save] changes nothing more. *)
Theorem save_writes (st : State) (filename p : Path) (tags : Mutagen.Tags)
    (pics : list picture) :
  slots st !! "flac" = Some (VFlac filename tags pics) ->
  slots st !! "path" = Some (VPath p) ->
  is_flac_file (fs st !! p) = true ->
  Mutagen.validate tags = true ->
  (forall name, name ∈ canonical_attributes -> text_or_none (slots st !! name) = true) ->
  exists st',
    save st = (inr tt, st') /\
    fs st' =
      <[p := FlacFile (foreign (List.map Mutagen.comment tags) ++
                       List.map (written (slots st)) attrs) pics]> (fs st) /\
    (forall name, name <> "flac" -> slots st' !! name = slots st !! name) /\
    (save ;;; save) st = save st.
Proof.
  intros Hflac Hpath Hfile Hvalid Htext.
  pose proof (save_ok st filename p tags pics Hflac Hpath Hfile Hvalid Htext) as Hsave.
  cbv zeta in Hsave.
  eexists. split; [exact Hsave |]. cbn [slots fs].
  split; [by rewrite save_comments_form |].
  split; [intros name Hname; by rewrite lookup_insert_ne |].
  rewrite (bind_inr _ _ _ _ _ Hsave), Hsave.
  assert (Hkeep : forall kv, kv ∈ attrs ->
            <["flac" := VFlac filename (store_all attrs (slots st) tags) pics]> (slots st)
              !! fst kv = slots st !! fst kv).
  { intros kv Hkv. apply lookup_insert_ne.
    destruct (proj1 (Forall_forall _ _) attrs_keys_plain kv Hkv) as [Hne _]. congruence. }
  erewrite save_ok.
  - cbn [slots fs]. rewrite store_all_idem by exact Hkeep.
    rewrite !insert_insert_eq. reflexivity.
  - cbn [slots]. apply lookup_insert_eq.
  - cbn [slots]. rewrite lookup_insert_ne by done. exact Hpath.
  - cbn [fs]. by rewrite lookup_insert_eq.
  - apply validate_store_all; [exact Hvalid |].
    apply Forall_forall. intros [key native] Hin. apply Htext.
    unfold canonical_attributes. by apply (list_elem_of_fmap_2 fst).
  - intros name Hname. cbn [slots]. unfold canonical_attributes in Hname.
    apply list_elem_of_fmap in Hname as (kv & -> & Hkv).
    rewrite (Hkeep _ Hkv). apply Htext. unfold canonical_attributes.
    by apply (list_elem_of_fmap_2 fst).
Qed.

Lemma save_writes_witness :
  exists st',
    save edited_track = (inr tt, st') /\
    fs st' !! song =
      Some (FlacFile (List.map (written (slots edited_track)) attrs) []) /\
    (save ;;; save) edited_track = save edited_track.
Proof.
  destruct (save_writes edited_track song song
              [("TITLE", VStr "So What"); ("ARTIST", VStr "Miles Davis")] []
              ltac:(vm_compute; reflexivity) ltac:(vm_compute; reflexivity)
              ltac:(vm_compute; reflexivity) ltac:(reflexivity))
    as (st' & Hrun & Hfs & _ & Hidem).
  - intros name Hname. vm_compute in Hname.
    repeat (apply elem_of_cons in Hname as [-> | Hname]; [vm_compute; reflexivity |]).
    by apply elem_of_nil in Hname.
  - exists st'. split; [exact Hrun |]. split; [| exact Hidem].
    rewrite Hfs. apply lookup_insert_eq.
Defined.

(** X13.  Opening a FLAC file and saving it at once rewrites its
    comments: every canonical attribute gets exactly one comment, the
    first of its values in the file or the empty text when it had none;
    further values of the same key are dropped. *)
Theorem open_then_save (p : Path) (files : gmap Path bytes)
    (comments : list (string * string)) (pics : list picture) :
  files !! p = Some (FlacFile comments pics) ->
  (exists r, first_image pics = inr r) ->
  exists st',
    (__init__ p ;;; save) (mkState ∅ files) = (inr tt, st') /\
    fs st' =
      <[p := FlacFile
               (foreign comments ++
                List.map (fun kv => (snd kv, hd "" (values_of comments (snd kv)))) attrs)
               pics]> files.
Proof.
  intros Hfile [r Hr].
  destruct (init_ok p files comments pics r Hfile Hr)
    as (st1 & Hinit & Hfs & Hpath & Hflac & _ & Hattr).
  assert (Htext : forall name, name ∈ canonical_attributes ->
            text_or_none (slots st1 !! name) = true).
  { intros name Hname. unfold canonical_attributes in Hname.
    apply list_elem_of_fmap in Hname as ([key native] & -> & Hin). cbn [fst].
    rewrite (Hattr _ _ Hin). unfold Mutagen.get, Mutagen.getitem.
    rewrite loaded_values. by destruct (values_of comments native). }
  pose proof (save_ok st1 p p (loaded comments) pics Hflac Hpath
                ltac:(by rewrite Hfs, Hfile) (validate_loaded comments) Htext) as Hsave.
  cbv zeta in Hsave.
  eexists. split.
  - rewrite (bind_inr _ _ _ _ _ Hinit). exact Hsave.
  - cbn [fs]. rewrite Hfs, save_comments_form, comment_loaded. do 3 f_equal.
    apply map_ext_in. intros [key native] Hin. apply list_elem_of_In in Hin.
    unfold written. cbn [fst snd]. rewrite (Hattr _ _ Hin), first_loaded. reflexivity.
Qed.

Lemma open_then_save_witness :
  exists st',
    (__init__ song ;;; save) (mkState ∅ disk) = (inr tt, st') /\
    exists rest,
      fs st' !! song =
        Some (FlacFile (("album", "") :: ("albumartist", "") :: ("artist", "Miles Davis")
                        :: rest) []).
Proof.
  destruct (open_then_save song disk [("TITLE", "So What"); ("ARTIST", "Miles Davis")] []
              ltac:(vm_compute; reflexivity) ltac:(eexists; reflexivity))
    as (st' & Hrun & Hfs).
  exists st'. split; [exact Hrun |]. eexists.
  rewrite Hfs, lookup_insert_eq. vm_compute. reflexivity.
Defined.

(** X14.  [delete_tags] does not clear the attributes: a [save] right
    after it writes every canonical attribute back, and only the comments
    that no attribute stands for are gone. *)
Theorem delete_tags_then_save (st : State) (filename : Path) (tags : Mutagen.Tags)
    (pics : list picture) :
  slots st !! "flac" = Some (VFlac filename tags pics) ->
  slots st !! "path" = Some (VPath filename) ->
  is_flac_file (fs st !! filename) = true ->
  (forall name, name ∈ canonical_attributes -> text_or_none (slots st !! name) = true) ->
  exists st',
    (delete_tags ;;; save) st = (inr tt, st') /\
    fs st' = <[filename := FlacFile (List.map (written (slots st)) attrs) pics]> (fs st).
Proof.
  intros Hflac Hpath Hfile Htext.
  set (s1 := <["flac" := VFlac filename [] pics]> (slots st)).
  assert (Hsame : forall name, name ∈ canonical_attributes -> s1 !! name = slots st !! name).
  { intros name Hname. subst s1. apply lookup_insert_ne. intros <-.
    revert Hname. apply (bool_decide_unpack _). vm_compute. exact I. }
  eexists. split.
  - rewrite (bind_inr _ _ _ _ _ (delete_tags_ok _ _ _ _ Hflac Hfile)). fold s1.
    apply save_ok.
    + apply lookup_insert_eq.
    + cbn [slots]. subst s1. rewrite lookup_insert_ne by done. exact Hpath.
    + cbn [fs]. by rewrite lookup_insert_eq.
    + reflexivity.
    + intros name Hname. cbn [slots]. rewrite (Hsame _ Hname). by apply Htext.
  - cbn [fs slots]. rewrite insert_insert_eq, save_comments_form. cbn [List.map foreign
      List.filter app]. do 2 f_equal.
    apply map_ext_in. intros [key native] Hin. apply list_elem_of_In in Hin.
    unfold written. cbn [fst snd]. rewrite Hsame; [reflexivity |].
    unfold canonical_attributes. by apply (list_elem_of_fmap_2 fst _ (key, native)).
Qed.

Lemma delete_tags_then_save_witness :
  exists st',
    (delete_tags ;;; save) track = (inr tt, st') /\
    fs st' = <[song := FlacFile (List.map (written (slots track)) attrs) []]> (fs track).
Proof.
  apply (delete_tags_then_save track song
           [("TITLE", VStr "So What"); ("ARTIST", VStr "Miles Davis")] []
           ltac:(vm_compute; reflexivity) ltac:(vm_compute; reflexivity)
           ltac:(vm_compute; reflexivity)).
  intros name Hname. vm_compute in Hname.
  repeat (apply elem_of_cons in Hname as [-> | Hname]; [vm_compute; reflexivity |]).
  by apply elem_of_nil in Hname.
Defined.

(** The values of a key, between the store and the comments written. *)
Lemma values_of_comment (tags : Mutagen.Tags) (key : string) :
  values_of (List.map Mutagen.comment tags) key =
    List.map text (List.map snd (List.filter (Mutagen.same_key key) tags)).
Proof.
  unfold values_of. induction tags as [| [k v] tags IH]; [reflexivity |].
  cbn [List.map List.filter]. unfold Mutagen.same_key at 1.
  unfold Mutagen.comment at 1. cbn [fst snd].
  destruct (String.eqb (Mutagen.lower k) (Mutagen.lower key)); cbn [List.map snd];
    rewrite IH; reflexivity.
Qed.

(** ** The cover operations *)

(** X15.  [remove_cover] drops every picture from the store and from
    the FLAC file.  Afterwards [read_cover] and [export_cover] return
    nothing and a second [remove_cover] changes nothing, but the
    attribute [cover] still holds the image it held. *)
Theorem remove_cover_effects (st : State) (dest : option Path) (filename : Path)
    (tags : Mutagen.Tags) (pics : list picture) :
  slots st !! "flac" = Some (VFlac filename tags pics) ->
  is_flac_file (fs st !! filename) = true ->
  Mutagen.validate tags = true ->
  exists st',
    remove_cover st = (inr tt, st') /\
    slots st' !! "flac" = Some (VFlac filename tags []) /\
    fs st' !! filename = Some (FlacFile (List.map Mutagen.comment tags) []) /\
    slots st' !! "cover" = slots st !! "cover" /\
    read_cover st' = (inr None, st') /\
    export_cover dest st' = (inr None, st') /\
    remove_cover st' = (inr tt, st').
Proof.
  intros Hflac Hfile Hvalid.
  eexists. split; [by eapply remove_cover_ok |].
  cbn [slots fs]. rewrite !lookup_insert_eq.
  split; [reflexivity |]. split; [reflexivity |].
  split; [by rewrite lookup_insert_ne |].
  split; [| split].
  - eapply read_cover_absent. cbn [slots]. apply lookup_insert_eq.
  - unfold export_cover. erewrite bind_inr.
    2: { apply flac_slot. cbn [slots]. apply lookup_insert_eq. }
    reflexivity.
  - erewrite remove_cover_ok.
    + cbn [slots fs]. by rewrite !insert_insert_eq.
    + cbn [slots]. apply lookup_insert_eq.
    + cbn [fs]. by rewrite lookup_insert_eq.
    + exact Hvalid.
Qed.

Lemma remove_cover_effects_witness :
  exists st',
    remove_cover (cover_track photo) = (inr tt, st') /\
    slots st' !! "cover" = Some (VImage photo) /\
    read_cover st' = (inr None, st').
Proof.
  destruct (remove_cover_effects (cover_track photo) None song [("TITLE", VStr "So What")]
              [Picture "image/jpeg" (Encoded photo)]
              ltac:(vm_compute; reflexivity) ltac:(vm_compute; reflexivity)
              ltac:(vm_compute; reflexivity))
    as (st' & Hrun & _ & _ & Hcover & Hread & _).
  exists st'. split; [exact Hrun |]. split; [| exact Hread].
  rewrite Hcover. vm_compute. reflexivity.
Defined.

(** X16.  With an accepted suffix, [add_cover] on a path that holds no
    file raises FileNotFoundError and leaves the track as it was; when
    the FLAC file cannot be written it raises after the pictures of the
    store have been cleared in memory. *)
Theorem add_cover_failures (st : State) (p : Path) (filename : Path)
    (tags : Mutagen.Tags) (pics : list picture) :
  Pathlib.suffix p ∈ [".jpg"; ".jpeg"; ".png"] ->
  slots st !! "flac" = Some (VFlac filename tags pics) ->
  (fs st !! p = None -> add_cover p st = (inl (FileNotFoundError p), st)) /\
  (is_Some (fs st !! p) -> is_flac_file (fs st !! filename) = false ->
     add_cover p st =
       (inl (MutagenError filename),
        mkState (<["flac" := VFlac filename tags []]> (slots st)) (fs st))).
Proof.
  intros Hsuffix Hflac. apply contains_spec in Hsuffix. split.
  - intros Hnone. unfold add_cover. rewrite Hsuffix.
    erewrite bind_inr; [| reflexivity]. rewrite Hnone. reflexivity.
  - intros [content Hcontent] Hfile. unfold add_cover. rewrite Hsuffix.
    erewrite bind_inr; [| reflexivity]. rewrite Hcontent.
    erewrite bind_inr; [| reflexivity].
    erewrite bind_inl; [reflexivity |].
    by eapply remove_cover_missing.
Qed.

Lemma add_cover_failures_witness :
  add_cover front (cover_track photo) = (inl (FileNotFoundError front), cover_track photo) /\
  exists st',
    add_cover front (mkState (slots (cover_track photo)) {[ front := Encoded scan ]}) =
      (inl (MutagenError song), st') /\
    slots st' !! "flac" = Some (VFlac song [("TITLE", VStr "So What")] []).
Proof.
  split.
  - apply (proj1 (add_cover_failures (cover_track photo) front song
                    [("TITLE", VStr "So What")] [Picture "image/jpeg" (Encoded photo)]
                    ltac:(apply (bool_decide_unpack _); vm_compute; exact I)
                    ltac:(vm_compute; reflexivity))).
    vm_compute. reflexivity.
  - eexists. split.
    + apply (proj2 (add_cover_failures
                      (mkState (slots (cover_track photo)) {[ front := Encoded scan ]})
                      front song
                      [("TITLE", VStr "So What")] [Picture "image/jpeg" (Encoded photo)]
                      ltac:(apply (bool_decide_unpack _); vm_compute; exact I)
                      ltac:(vm_compute; reflexivity))).
      * eexists. vm_compute. reflexivity.
      * vm_compute. reflexivity.
    + cbn [slots]. apply lookup_insert_eq.
Defined.

(** X17.  [add_cover] checks the suffix only: whatever the file
    holds becomes the picture, and the attribute [cover] is not
    refreshed.  [read_cover] afterwards returns the new image when the
    content decodes and raises the decoder's error when it does not, as
    does [resize_cover]. *)
Theorem add_cover_unchecked_content (st : State) (p : Path) (content : bytes)
    (filename : Path) (tags : Mutagen.Tags) (pics : list picture) :
  Pathlib.suffix p ∈ [".jpg"; ".jpeg"; ".png"] ->
  fs st !! p = Some content ->
  slots st !! "flac" = Some (VFlac filename tags pics) ->
  is_flac_file (fs st !! filename) = true ->
  Mutagen.validate tags = true ->
  exists st',
    add_cover p st = (inr tt, st') /\
    slots st' !! "cover" = slots st !! "cover" /\
    read_cover st' =
      match PIL.open content with
      | inr img => (inr (Some img), assigned "cover" (VImage img) st')
      | inl e => (inl e, st')
      end /\
    (forall (codec : PIL.Codec) (w : Z) (extension : option string) (e : exn),
       extension ∈ [None; Some "jpg"; Some "jpeg"; Some "png"] ->
       PIL.open content = inl e ->
       resize_cover codec w extension st' = (inl e, st')).
Proof.
  intros Hsuffix Hcontent Hflac Hfile Hvalid.
  eexists. split; [by eapply add_cover_ok |].
  assert (Hread : forall s files,
            s !! "flac" = Some (VFlac filename tags [cover_of p content]) ->
            read_cover (mkState s files) =
              match PIL.open content with
              | inr img => (inr (Some img), assigned "cover" (VImage img) (mkState s files))
              | inl e => (inl e, mkState s files)
              end).
  { intros s files Hs.
    rewrite (read_cover_first (mkState s files) filename tags _ Hs).
    unfold first_image, cover_of. cbn [data].
    by destruct (PIL.open content). }
  split; [| split].
  - cbn [slots]. by rewrite lookup_insert_ne.
  - apply Hread. apply lookup_insert_eq.
  - intros codec w extension e Hext Hopen. unfold resize_cover.
    rewrite (extension_guard _ Hext).
    erewrite bind_inl; [reflexivity |].
    rewrite Hread by apply lookup_insert_eq. by rewrite Hopen.
Qed.

Lemma add_cover_unchecked_content_witness :
  exists st',
    add_cover front (mkState (slots (cover_track photo))
                       (<[front := Raw []]> (cover_disk photo))) = (inr tt, st') /\
    slots st' !! "cover" = Some (VImage photo) /\
    read_cover st' = (inl UnidentifiedImageError, st').
Proof.
  destruct (add_cover_unchecked_content
              (mkState (slots (cover_track photo)) (<[front := Raw []]> (cover_disk photo)))
              front (Raw []) song [("TITLE", VStr "So What")]
              [Picture "image/jpeg" (Encoded photo)]
              ltac:(apply (bool_decide_unpack _); vm_compute; exact I)
              ltac:(vm_compute; reflexivity) ltac:(vm_compute; reflexivity)
              ltac:(vm_compute; reflexivity) ltac:(vm_compute; reflexivity))
    as (st' & Hrun & Hcover & Hread & _).
  exists st'. split; [exact Hrun |]. split; [| exact Hread].
  rewrite Hcover. vm_compute. reflexivity.
Defined.

(** X18.  [remove_cover] saves the whole store: an item assigned
    before it reaches the FLAC file, while an attribute assigned before
    it does not. *)
Theorem remove_cover_persists_store (st : State) (key native x : string)
    (filename : Path) (tags : Mutagen.Tags) (pics : list picture) :
  (key, native) ∈ attrs ->
  slots st !! "flac" = Some (VFlac filename tags pics) ->
  is_flac_file (fs st !! filename) = true ->
  Mutagen.validate tags = true ->
  (exists st' comments',
     (__setitem__ key (VStr x) ;;; remove_cover) st = (inr tt, st') /\
     fs st' !! filename = Some (FlacFile comments' []) /\
     values_of comments' native = [x]) /\
  (exists st',
     (__setattr__ key (VStr x) ;;; remove_cover) st = (inr tt, st') /\
     fs st' !! filename = Some (FlacFile (List.map Mutagen.comment tags) [])).
Proof.
  intros Hin Hflac Hfile Hvalid.
  pose proof (assoc_lookup _ _ _ attrs_keys_nodup Hin) as Hkey.
  split.
  - eexists. eexists. split; [| split].
    + erewrite bind_inr.
      2: { unfold __setitem__. rewrite Hkey. by apply flac_setitem_ok. }
      eapply remove_cover_ok.
      * cbn [slots]. apply lookup_insert_eq.
      * exact Hfile.
      * by apply validate_setitem.
    + cbn [fs]. apply lookup_insert_eq.
    + rewrite values_of_comment.
      rewrite (get_singleton _ _ (VStr x)); [reflexivity |].
      unfold Mutagen.get. by rewrite getitem_setitem_eq.
  - eexists. split.
    + erewrite bind_inr.
      2: { apply setattr_allowed. unfold allow_list. apply elem_of_app. left.
           unfold canonical_attributes. by apply (list_elem_of_fmap_2 fst _ (key, native)). }
      eapply remove_cover_ok; [| exact Hfile | exact Hvalid].
      cbn [assigned slots]. rewrite lookup_insert_ne; [exact Hflac |].
      intros ->. revert Hin. apply (bool_decide_unpack _). vm_compute. exact I.
    + cbn [fs]. apply lookup_insert_eq.
Qed.

Lemma remove_cover_persists_store_witness :
  (exists st' comments',
     (__setitem__ "title" (VStr "Blue in Green") ;;; remove_cover) track = (inr tt, st') /\
     fs st' !! song = Some (FlacFile comments' []) /\
     values_of comments' "title" = ["Blue in Green"]) /\
  (exists st',
     (__setattr__ "title" (VStr "Blue in Green") ;;; remove_cover) track = (inr tt, st') /\
     fs st' !! song =
       Some (FlacFile [("TITLE", "So What"); ("ARTIST", "Miles Davis")] [])).
Proof.
  apply (remove_cover_persists_store track "title" "title" "Blue in Green" song
           [("TITLE", VStr "So What"); ("ARTIST", VStr "Miles Davis")] []).
  - apply (bool_decide_unpack _). vm_compute. exact I.
  - vm_compute. reflexivity.
  - vm_compute. reflexivity.
  - vm_compute. reflexivity.
Defined.

(** ** [save] with an attribute that is no text *)

(** X19.  [save] with an attribute that is neither text nor [None]
    raises ValueError and leaves the file as it was, but the store has
    taken the value: the next write of the store, such as
    [remove_cover], raises the same error. *)
Theorem save_non_text_attribute (st : State) (key native : string) (v : value)
    (filename : Path) (tags : Mutagen.Tags) (pics : list picture) :
  (key, native) ∈ attrs ->
  slots st !! "flac" = Some (VFlac filename tags pics) ->
  slots st !! "path" = Some (VPath filename) ->
  is_flac_file (fs st !! filename) = true ->
  slots st !! key = Some v ->
  text_or_none (Some v) = false ->
  exists msg st' tags',
    save st = (inl (ValueError msg), st') /\
    fs st' = fs st /\
    slots st' !! "flac" = Some (VFlac filename tags' pics) /\
    Mutagen.getitem tags' native = inr [v] /\
    fst (remove_cover st') = inl (ValueError msg).
Proof.
  intros Hin Hflac Hpath Hfile Hkey Htext.
  destruct st as [s files]. cbn [slots fs] in *.
  set (tags' := store_all attrs s tags).
  assert (Hget : Mutagen.get tags' native [] = [v]).
  { subst tags'. rewrite (get_store_all _ _ _ _ _ _ attrs_natives_nodup Hin).
    rewrite Hkey. by destruct v. }
  assert (Hstr : Mutagen.is_str v = false) by by destruct v.
  assert (Hinvalid : Mutagen.validate tags' = false).
  { eapply validate_false; [| exact Hstr]. by apply get_singleton. }
  exists "tag values need to be str". eexists. exists tags'.
  split; [| split; [| split; [| split]]].
  - rewrite save_unfold. erewrite bind_inr.
    2: { apply save_loop; [exact Hflac | apply attrs_keys_plain]. }
    fold tags'. erewrite bind_inr.
    2: { apply getattr_slot. cbn [slots]. rewrite lookup_insert_ne by done. exact Hpath. }
    cbn [flac_save_to].
    eapply flac_save_invalid; [apply lookup_insert_eq | exact Hfile | exact Hinvalid].
  - reflexivity.
  - cbn [slots]. apply lookup_insert_eq.
  - apply get_singleton in Hget. unfold Mutagen.getitem. by rewrite Hget.
  - unfold remove_cover.
    erewrite bind_inr; [| apply flac_slot; cbn [slots]; apply lookup_insert_eq].
    cbn [Mutagen.filename Mutagen.tags Mutagen.pictures].
    erewrite bind_inr; [| reflexivity].
    erewrite flac_save_invalid; [reflexivity | | exact Hfile | exact Hinvalid].
    cbn [slots Mutagen.to_value Mutagen.filename Mutagen.tags Mutagen.pictures].
    apply lookup_insert_eq.
Qed.

Lemma save_non_text_attribute_witness :
  exists msg st' tags',
    save (assigned "bpm" (VInt 120) track) = (inl (ValueError msg), st') /\
    fs st' = fs track /\
    slots st' !! "flac" = Some (VFlac song tags' []) /\
    Mutagen.getitem tags' "bpm" = inr [VInt 120] /\
    fst (remove_cover st') = inl (ValueError msg).
Proof.
  apply (save_non_text_attribute (assigned "bpm" (VInt 120) track) "bpm" "bpm" (VInt 120)
           song [("TITLE", VStr "So What"); ("ARTIST", VStr "Miles Davis")] []).
  - apply (bool_decide_unpack _). vm_compute. exact I.
  - vm_compute. reflexivity.
  - vm_compute. reflexivity.
  - vm_compute. reflexivity.
  - vm_compute. reflexivity.
  - reflexivity.
Defined.

(** ** [resize_cover] *)

(** X20.  An extension other than jpg, jpeg and png, also one
    that differs by case only, makes [resize_cover] raise
    WrongPictureFormatError before the cover is looked at; the track is
    unchanged. *)
Theorem resize_cover_unsupported_extension (codec : PIL.Codec) (st : State) (w : Z)
    (e : string) :
  e ∉ ["jpg"; "jpeg"; "png"] ->
  resize_cover codec w (Some e) st =
    (inl (WrongPictureFormatError
            "Supported extensions are 'jpg', 'jpeg', 'png' or None." : exn), st).
Proof.
  intros Hnot. unfold resize_cover.
  destruct (contains ["jpg"; "jpeg"; "png"] e) eqn:E; [| reflexivity].
  apply contains_spec in E. contradiction.
Qed.

Lemma resize_cover_unsupported_extension_witness :
  resize_cover plain 300 (Some "PNG") (cover_track photo) =
    (inl (WrongPictureFormatError
            "Supported extensions are 'jpg', 'jpeg', 'png' or None." : exn),
     cover_track photo).
Proof.
  apply (resize_cover_unsupported_extension plain (cover_track photo) 300 "PNG").
  apply (bool_decide_unpack _). vm_compute. exact I.
Defined.

Lemma thumbnail_keeps (img img2 : Image) (x y : Z) :
  PIL.thumbnail img x y = inr img2 -> format img2 = format img /\ exif img2 = exif img.
Proof.
  unfold PIL.thumbnail.
  destruct (PIL.thumbnail_size (width img) (height img) x y) as [e | [[x' y'] |]];
    [discriminate | |].
  - destruct ((x' =? width img) && (y' =? height img)); [by intros [= <-] |].
    destruct ((x' <? 1) || (y' <? 1)); [discriminate |]. by intros [= <-].
  - by intros [= <-].
Qed.

(** X21.  When the codec writes the resampled image and [resize_cover]
    goes through, the store and the FLAC file hold exactly one picture,
    whatever they held before: the bytes the codec wrote, labelled
    image/png or image/jpeg after the suffix of the temporary file.  The
    codec was handed the resampled image, the format that follows the
    extension (the format of the old cover when none is given) and the
    Exif tags of the old cover with Software (305) and Artist (315)
    overwritten; what the written bytes keep of them is up to the codec.
    The attribute [cover] holds the resampled image, which carries those
    tags; the comments are written as they are. *)
Theorem resize_cover_stored_picture (codec : PIL.Codec) (st : State) (w : Z)
    (extension : option string) (filename : Path) (tags : Mutagen.Tags) (mime : string)
    (img : Image) (rest : list picture) (track_path : Path) (h : Z) (img2 : Image)
    (content : bytes) :
  slots st !! "flac" = Some (VFlac filename tags (Picture mime (Encoded img) :: rest)) ->
  slots st !! "path" = Some (VPath track_path) ->
  extension ∈ [None; Some "jpg"; Some "jpeg"; Some "png"] ->
  box_height img w = inr h ->
  PIL.thumbnail (stamped img) w h = inr img2 ->
  codec img2 (temp_format img extension) (stamp (exif img))
    (fs st !! temp_path track_path img extension) = inr content ->
  is_flac_file (fs st !! filename) = true ->
  Mutagen.validate tags = true ->
  temp_path track_path img extension <> filename ->
  exists st' mime',
    resize_cover codec w extension st = (inr tt, st') /\
    slots st' !! "cover" = Some (VImage img2) /\
    slots st' !! "flac" = Some (VFlac filename tags [Picture mime' content]) /\
    fs st' !! filename =
      Some (FlacFile (List.map Mutagen.comment tags) [Picture mime' content]) /\
    mime' = (if String.eqb (temp_suffix img extension) "png"
             then "image/png" else "image/jpeg") /\
    temp_suffix img extension =
      match extension with
      | Some "png" => "png"
      | Some _ => "jpg"
      | None => if String.eqb (format img) "PNG" then "png" else "jpg"
      end /\
    temp_format img extension =
      match extension with
      | Some "png" => "PNG"
      | Some _ => "JPEG"
      | None => format img
      end /\
    format img2 = format img /\
    exif img2 = stamp (exif img) /\
    exif img2 !! 305 = Some "Chemz v. 0.1.0" /\
    exif img2 !! 315 = Some "Blinzy a.k.a L4zzur" /\
    (forall tag, tag <> 305 -> tag <> 315 -> exif img2 !! tag = exif img !! tag).
Proof.
  intros Hflac Hpath Hext Hbox Hthumb Hcodec Hstore Hvalid Hne.
  destruct (temp_suffix_allowed track_path img extension Hext) as [Hsuffix Hsuf].
  destruct (thumbnail_keeps _ _ _ _ Hthumb) as [Hformat Hexif].
  eexists. eexists. split; [by eapply resize_cover_ok |].
  cbn [slots fs].
  split; [rewrite lookup_insert_ne by done; apply lookup_insert_eq |].
  split; [rewrite lookup_insert_eq; reflexivity |].
  split.
  { rewrite lookup_delete_ne by (intros Heq; apply Hne; by rewrite Heq).
    rewrite lookup_insert_eq. reflexivity. }
  split.
  { rewrite Hsuffix.
    repeat (apply elem_of_cons in Hsuf as [-> | Hsuf]; [reflexivity |]).
    by apply elem_of_nil in Hsuf. }
  split.
  { repeat (apply elem_of_cons in Hext as [-> | Hext]; [reflexivity |]).
    by apply elem_of_nil in Hext. }
  split.
  { repeat (apply elem_of_cons in Hext as [-> | Hext]; [reflexivity |]).
    by apply elem_of_nil in Hext. }
  split; [exact Hformat |]. split; [exact Hexif |].
  rewrite Hexif. unfold stamped, stamp. cbn [exif].
  split; [rewrite lookup_insert_ne by done; apply lookup_insert_eq |].
  split; [apply lookup_insert_eq |].
  intros tag H305 H315. by rewrite !lookup_insert_ne.
Qed.

Lemma resize_cover_stored_picture_witness :
  exists st',
    resize_cover plain 300 (Some "png") (cover_track photo) = (inr tt, st') /\
    slots st' !! "flac" =
      Some (VFlac song [("TITLE", VStr "So What")]
              [Picture "image/png" (Encoded (mkImage "PNG" 300 200 (stamp ∅)))]) /\
    slots st' !! "cover" = Some (VImage (mkImage "JPEG" 300 200 (stamp ∅))).
Proof.
  destruct (resize_cover_stored_picture plain (cover_track photo) 300 (Some "png") song
              [("TITLE", VStr "So What")] "image/jpeg" photo [] song 200
              (mkImage "JPEG" 300 200 (stamp ∅))
              (Encoded (mkImage "PNG" 300 200 (stamp ∅))))
    as (st' & mime' & Hrun & Hcover & Hflac & _ & Hmime & _).
  - vm_compute. reflexivity.
  - vm_compute. reflexivity.
  - apply (bool_decide_unpack _). vm_compute. exact I.
  - vm_compute. reflexivity.
  - vm_compute. reflexivity.
  - reflexivity.
  - vm_compute. reflexivity.
  - reflexivity.
  - discriminate.
  - exists st'. split; [exact Hrun |]. rewrite Hmime in Hflac.
    split; [exact Hflac | exact Hcover].
Defined.

(** X22.  Exporting the cover to its default path and adding that
    file again keeps the bytes of the first picture, drops the other
    pictures and labels the picture image/png or image/jpeg. *)
Theorem export_then_add_cover (st : State) (filename : Path) (tags : Mutagen.Tags)
    (pic : picture) (rest : list picture) (track_path : Path) :
  slots st !! "flac" = Some (VFlac filename tags (pic :: rest)) ->
  slots st !! "path" = Some (VPath track_path) ->
  is_flac_file (fs st !! filename) = true ->
  Mutagen.validate tags = true ->
  let target :=
    Pathlib.joinpath (Pathlib.parent track_path)
      (if String.eqb (mime pic) "image/png" then "cover.png" else "cover.jpg") in
  let kept :=
    Picture (if String.eqb (mime pic) "image/png" then "image/png" else "image/jpeg")
            (data pic) in
  target <> filename ->
  exists st',
    (p <- export_cover None ;;
     match p with Some p => add_cover p | None => ret tt end) st = (inr tt, st') /\
    slots st' !! "flac" = Some (VFlac filename tags [kept]) /\
    fs st' !! filename = Some (FlacFile (List.map Mutagen.comment tags) [kept]) /\
    fs st' !! target = Some (data pic).
Proof.
  intros Hflac Hpath Hfile Hvalid target kept Hne.
  assert (Hexport : export_cover None st =
                      (inr (Some target),
                       mkState (slots st) (<[target := data pic]> (fs st)))).
  { unfold export_cover.
    rewrite (bind_inr _ _ _ _ _ (flac_slot _ _ _ _ _ Hflac)). cbn [Mutagen.pictures].
    rewrite (bind_inr _ _ _ _ _ (path_slot _ _ _ Hpath)). subst target.
    destruct (String.eqb (mime pic) "image/png"); reflexivity. }
  assert (Hsuffix : Pathlib.suffix target =
                      if String.eqb (mime pic) "image/png" then ".png" else ".jpg").
  { subst target. unfold Pathlib.joinpath, Pathlib.suffix, Pathlib.name.
    rewrite last_last. destruct (String.eqb (mime pic) "image/png"); reflexivity. }
  assert (Hcover : cover_of target (data pic) = kept).
  { unfold cover_of, kept. rewrite Hsuffix.
    destruct (String.eqb (mime pic) "image/png"); reflexivity. }
  eexists. split; [| split; [| split]].
  - rewrite (bind_inr _ _ _ _ _ Hexport).
    eapply add_cover_ok.
    + rewrite Hsuffix. destruct (String.eqb (mime pic) "image/png");
        apply (bool_decide_unpack _); vm_compute; exact I.
    + cbn [fs]. apply lookup_insert_eq.
    + exact Hflac.
    + cbn [fs]. rewrite is_flac_file_insert_ne by done. exact Hfile.
    + exact Hvalid.
  - cbn [slots]. rewrite lookup_insert_eq, Hcover. reflexivity.
  - cbn [fs]. rewrite lookup_insert_eq, Hcover. reflexivity.
  - cbn [fs]. rewrite lookup_insert_ne by (intros Heq; apply Hne; by rewrite Heq).
    apply lookup_insert_eq.
Qed.

Lemma export_then_add_cover_witness :
  exists st',
    (p <- export_cover None ;;
     match p with Some p => add_cover p | None => ret tt end) (cover_track photo) =
      (inr tt, st') /\
    slots st' !! "flac" =
      Some (VFlac song [("TITLE", VStr "So What")] [Picture "image/jpeg" (Encoded photo)]) /\
    fs st' !! ["music"; "cover.jpg"] = Some (Encoded photo).
Proof.
  destruct (export_then_add_cover (cover_track photo) song [("TITLE", VStr "So What")]
              (Picture "image/jpeg" (Encoded photo)) [] song
              ltac:(vm_compute; reflexivity) ltac:(vm_compute; reflexivity)
              ltac:(vm_compute; reflexivity) ltac:(reflexivity) ltac:(discriminate))
    as (st' & Hrun & Hflac & _ & Hfile).
  exists st'. split; [exact Hrun |]. split; [exact Hflac | exact Hfile].
Defined.

(** X23.  A requested width for which the height of the box comes
    out as 0, as it does for width 0, makes [resize_cover] raise
    ZeroDivisionError; store and files are unchanged, and the attribute
    [cover] holds the stamped image. *)
Theorem resize_cover_empty_box (codec : PIL.Codec) (st : State) (w : Z)
    (extension : option string) (filename : Path) (tags : Mutagen.Tags) (mime : string)
    (img : Image) (rest : list picture) :
  slots st !! "flac" = Some (VFlac filename tags (Picture mime (Encoded img) :: rest)) ->
  extension ∈ [None; Some "jpg"; Some "jpeg"; Some "png"] ->
  0 < height img ->
  (box_height img w = inr 0 ->
     resize_cover codec w extension st =
       (inl ZeroDivisionError,
        mkState (<["cover" := VImage (stamped img)]> (slots st)) (fs st))) /\
  (0 < width img < 2 ^ 52 -> height img < 2 ^ 52 -> box_height img 0 = inr 0).
Proof.
  intros Hflac Hext Hh. split.
  - intros Hbox. unfold resize_cover.
    rewrite (extension_guard _ Hext).
    rewrite (bind_inr _ _ _ _ _ (read_cover_present _ _ _ _ _ _ Hflac)).
    erewrite bind_inr; [| reflexivity].
    unfold box_height in Hbox. unfold image_width, image_height. cbn [width height].
    destruct (PIL.truediv (width img) (height img)) as [e | aspect_ratio] eqn:Ha;
      [discriminate |].
    erewrite bind_inr; [| reflexivity].
    destruct (PIL.truediv_float w aspect_ratio) as [e | quotient] eqn:Hq;
      [discriminate |].
    erewrite bind_inr; [| reflexivity].
    rewrite Hbox. erewrite bind_inr; [| reflexivity].
    fold (stamp (exif img)). fold (stamped img).
    assert (Hthumb : PIL.thumbnail (stamped img) w 0 = inl ZeroDivisionError).
    { unfold PIL.thumbnail, PIL.thumbnail_size, stamped. cbn [width height].
      destruct (Z.leb_spec (height img) 0) as [Hle | _]; [lia |].
      rewrite andb_false_r, Ha. reflexivity. }
    rewrite Hthumb. erewrite bind_inl; [| reflexivity].
    cbn [assigned slots fs]. by rewrite insert_insert_eq.
  - intros HW HH. unfold box_height.
    destruct (aspect_ratio_upper (width img) (height img) HW ltac:(lia))
      as (ma & ka & -> & _).
    reflexivity.
Qed.

Lemma resize_cover_empty_box_witness :
  resize_cover plain 1 None (cover_track photo) =
    (inl ZeroDivisionError,
     mkState (<["cover" := VImage (stamped photo)]> (slots (cover_track photo)))
       (fs (cover_track photo))) /\
  box_height photo 0 = inr 0.
Proof.
  destruct (resize_cover_empty_box plain (cover_track photo) 1 None song
              [("TITLE", VStr "So What")] "image/jpeg" photo []
              ltac:(vm_compute; reflexivity)
              ltac:(apply (bool_decide_unpack _); vm_compute; exact I)
              ltac:(reflexivity)) as [Hrun Hzero].
  split.
  - apply Hrun. vm_compute. reflexivity.
  - apply Hzero; [split |]; reflexivity.
Defined.

(** ** [__str__] *)

Lemma getattr_unassigned (st : State) (name : string) :
  name ∈ __slots__ -> slots st !! name = None ->
  getattr name st =
    (inl (AttributeError ("'FLACTrack' object has no attribute '" +:+ name +:+ "'")), st).
Proof.
  intros Hslot Hnone. unfold getattr, bind, get_slots. rewrite Hnone.
  vm_compute in Hslot.
  repeat (apply elem_of_cons in Hslot as [-> | Hslot]; [reflexivity |]).
  by apply elem_of_nil in Hslot.
Qed.

Lemma fstring_ok (text_of : value -> string) (st : State) (parts : list Track.part) :
  Forall (fun name => is_Some (slots st !! name)) (fields parts) ->
  exists text, Track.fstring getattr text_of parts st = (inr text, st).
Proof.
  induction parts as [| [s | name] parts IH]; intros Hall.
  - by eexists.
  - destruct (IH Hall) as [r Hr]. cbn [Track.fstring].
    rewrite (bind_inr _ _ _ _ _ Hr). by eexists.
  - cbn [fields List.flat_map app] in Hall. apply Forall_cons in Hall as [[v Hv] Hall].
    destruct (IH Hall) as [r Hr]. cbn [Track.fstring].
    rewrite (bind_inr _ _ _ _ _ (getattr_slot _ _ _ Hv)).
    rewrite (bind_inr _ _ _ _ _ Hr). by eexists.
Qed.

Lemma fstring_fails (text_of : value -> string) (st : State) (parts : list Track.part)
    (before after : list string) (name : string) :
  fields parts = (before ++ name :: after)%list ->
  Forall (fun k => is_Some (slots st !! k)) before ->
  name ∈ __slots__ -> slots st !! name = None ->
  Track.fstring getattr text_of parts st =
    (inl (AttributeError ("'FLACTrack' object has no attribute '" +:+ name +:+ "'")), st).
Proof.
  revert before. induction parts as [| [s | k] parts IH]; intros before Hsplit Hbefore Hslot Hnone.
  - by destruct before.
  - cbn [Track.fstring]. erewrite bind_inl; [reflexivity |]. by eapply IH.
  - cbn [fields List.flat_map app] in Hsplit. cbn [Track.fstring].
    destruct before as [| b before]; cbn [app] in Hsplit; injection Hsplit as -> Hsplit.
    + erewrite bind_inl; [reflexivity |]. by apply getattr_unassigned.
    + apply Forall_cons in Hbefore as [[v Hv] Hbefore].
      rewrite (bind_inr _ _ _ _ _ (getattr_slot _ _ _ Hv)).
      erewrite bind_inl; [reflexivity |]. by eapply IH.
Qed.

Lemma printed_canonical (name : string) : name ∈ printed <-> name ∈ canonical_attributes.
Proof.
  rewrite <- !contains_spec.
  assert (H : forall l1 l2,
             (forall x, x ∈ l1 -> contains l2 x = true) ->
             contains l1 name = true -> contains l2 name = true).
  { intros l1 l2 Hall Hc. apply contains_spec in Hc. by apply Hall. }
  split; apply H; intros x Hx; vm_compute in Hx;
    repeat (apply elem_of_cons in Hx as [-> | Hx]; [reflexivity |]);
    by apply elem_of_nil in Hx.
Qed.

(** X24.  [__str__] prints every canonical attribute, returns when
    all of them are assigned and otherwise raises the AttributeError of
    the first one, in the order of the text, that is not; the track is
    unchanged in both cases. *)
Theorem str_needs_every_attribute (text_of : value -> string) (st : State) :
  ((forall name, name ∈ canonical_attributes -> is_Some (slots st !! name)) ->
     exists text, __str__ text_of st = (inr text, st)) /\
  (forall (before after : list string) (name : string),
     printed = (before ++ name :: after)%list ->
     Forall (fun k => is_Some (slots st !! k)) before ->
     slots st !! name = None ->
     __str__ text_of st =
       (inl (AttributeError ("'FLACTrack' object has no attribute '" +:+ name +:+ "'")),
        st)) /\
  (forall name, name ∈ printed <-> name ∈ canonical_attributes).
Proof.
  split; [| split; [| apply printed_canonical]].
  - intros Hall. apply fstring_ok. apply Forall_forall. intros name Hname.
    apply Hall. by apply printed_canonical.
  - intros before after name Hsplit Hbefore Hnone.
    eapply fstring_fails; [exact Hsplit | exact Hbefore | | exact Hnone].
    apply slots_are_allow_list. unfold allow_list. apply elem_of_app. left.
    apply printed_canonical. rewrite Hsplit. apply elem_of_app. right.
    apply elem_of_cons. by left.
Qed.

Lemma str_needs_every_attribute_witness :
  (exists text, __str__ (fun _ => "?") track = (inr text, track)) /\
  __str__ (fun _ => "?") (mkState ∅ disk) =
    (inl (AttributeError "'FLACTrack' object has no attribute 'disc'"), mkState ∅ disk).
Proof.
  destruct (str_needs_every_attribute (fun _ => "?") track) as (Hok & _ & _).
  destruct (str_needs_every_attribute (fun _ => "?") (mkState ∅ disk)) as (_ & Hfail & _).
  split.
  - apply Hok. intros name Hname. vm_compute in Hname.
    repeat (apply elem_of_cons in Hname as [-> | Hname]; [eexists; vm_compute; reflexivity |]).
    by apply elem_of_nil in Hname.
  - apply (Hfail [] (List.tl printed) "disc"); [reflexivity | apply List.Forall_nil | reflexivity].
Defined.

(** ** Operations that stay in memory *)

Lemma in_memory_ret {A} (a : A) : in_memory (ret a).
Proof. by intros st. Qed.

Lemma in_memory_raise {A} (e : exn) : in_memory (raise (A := A) e).
Proof. by intros st. Qed.

Lemma in_memory_lift {A} (r : exn + A) : in_memory (lift r).
Proof. intros st. by destruct r. Qed.

Lemma in_memory_bind {A B} (m : M A) (k : A -> M B) :
  in_memory m -> (forall a, in_memory (k a)) -> in_memory (bind m k).
Proof.
  intros Hm Hk st. unfold bind. specialize (Hm st).
  destruct (m st) as [[e | a] st']; cbn [snd] in *; [exact Hm |].
  by rewrite Hk.
Qed.

Lemma in_memory_for_each {A} (l : list A) (body : A -> M unit) :
  (forall x, in_memory (body x)) -> in_memory (for_each l body).
Proof.
  intros Hbody. induction l as [| x l IH]; cbn [for_each].
  - apply in_memory_ret.
  - apply in_memory_bind; [apply Hbody | intros _; exact IH].
Qed.

Lemma in_memory_get_slots : in_memory get_slots.
Proof. by intros st. Qed.

Lemma in_memory_put_slots (s : gmap string value) : in_memory (put_slots s).
Proof. by intros st. Qed.

Lemma in_memory_get_fs : in_memory get_fs.
Proof. by intros st. Qed.

Create HintDb in_memory.
#[local] Hint Resolve in_memory_ret in_memory_raise in_memory_lift in_memory_get_slots
  in_memory_put_slots in_memory_get_fs : in_memory.

Ltac in_memory_step :=
  first
    [ apply in_memory_bind; [| intros ?]
    | apply in_memory_for_each; intros ?
    | solve [auto with in_memory]
    | match goal with
      | |- in_memory (match ?x with _ => _ end) => destruct x
      | |- in_memory (let '(_, _) := ?x in _) => destruct x
      end ].

Ltac in_memory := repeat in_memory_step.

Lemma in_memory_getattr (name : string) : in_memory (getattr name).
Proof. unfold getattr. in_memory. Qed.

Lemma in_memory_getattr_default (name : string) (d : value) :
  in_memory (getattr_default name d).
Proof. unfold getattr_default. in_memory. Qed.

Lemma in_memory_setattr (name : string) (v : value) : in_memory (__setattr__ name v).
Proof. unfold __setattr__. in_memory. Qed.

#[local] Hint Resolve in_memory_getattr in_memory_getattr_default in_memory_setattr
  : in_memory.

Lemma in_memory_flac (attr : string) : in_memory (flac attr).
Proof. unfold flac. in_memory. Qed.

Lemma in_memory_mutate_flac (f : Mutagen.FLAC) : in_memory (mutate_flac f).
Proof. unfold mutate_flac. in_memory. Qed.

#[local] Hint Resolve in_memory_flac in_memory_mutate_flac : in_memory.

Lemma in_memory_flac_setitem (k : string) (v : value) : in_memory (flac_setitem k v).
Proof. unfold flac_setitem. in_memory. Qed.

#[local] Hint Resolve in_memory_flac_setitem : in_memory.

Lemma in_memory_export_keys (keys : list string) (acc : list (string * value)) :
  in_memory (Track.export_keys getattr_default keys acc).
Proof.
  revert acc. induction keys as [| key keys IH]; intros acc; cbn [Track.export_keys].
  - apply in_memory_ret.
  - destruct (negb _); [| apply IH].
    apply in_memory_bind; [apply in_memory_getattr_default | intros v; apply IH].
Qed.

Lemma in_memory_fstring (text_of : value -> string) (parts : list Track.part) :
  in_memory (Track.fstring getattr text_of parts).
Proof.
  induction parts as [| [s | name] parts IH]; cbn [Track.fstring]; in_memory.
Qed.

(** X25.  Whatever they return or raise, [read], [read_cover],
    attribute and item access, the setters, [import_from_dict],
    [export_to_dict] and [__str__] leave every file as it is: edits
    reach the disk only through the methods that save. *)
Theorem edits_stay_in_memory (st : State) :
  fs (snd (read st)) = fs st /\
  fs (snd (read_cover st)) = fs st /\
  (forall name v, fs (snd (__setattr__ name v st)) = fs st) /\
  (forall key, fs (snd (__getitem__ key st)) = fs st) /\
  (forall key v, fs (snd (__setitem__ key v st)) = fs st) /\
  (forall name v, fs (snd (call_attr name v st)) = fs st) /\
  (forall d, fs (snd (import_from_dict d st)) = fs st) /\
  fs (snd (export_to_dict st)) = fs st /\
  (forall text_of, fs (snd (__str__ text_of st)) = fs st).
Proof.
  assert (Hread : in_memory read) by (unfold read; in_memory).
  assert (Hcover : in_memory read_cover) by (unfold read_cover; in_memory).
  assert (Hget : forall key, in_memory (__getitem__ key))
    by (intros key; unfold __getitem__; in_memory).
  assert (Hset : forall key v, in_memory (__setitem__ key v))
    by (intros key v; unfold __setitem__; in_memory).
  assert (Hcall : forall name v, in_memory (call_attr name v))
    by (intros name v; unfold call_attr, setter; in_memory).
  assert (Himport : forall d, in_memory (import_from_dict d))
    by (intros d; unfold import_from_dict, Track.import_from_dict, hasattr; in_memory).
  assert (Hexport : in_memory export_to_dict).
  { unfold export_to_dict, Track.export_to_dict.
    apply in_memory_bind; [apply in_memory_export_keys | intros d; apply in_memory_ret]. }
  split; [apply Hread |]. split; [apply Hcover |].
  split; [intros name v; apply in_memory_setattr |].
  split; [intros key; apply Hget |]. split; [intros key v; apply Hset |].
  split; [intros name v; apply Hcall |]. split; [intros d; apply Himport |].
  split; [apply Hexport |]. intros text_of. apply in_memory_fstring.
Qed.

(** ** Files the operations leave alone *)

Section Confined.

Variable F : Path.
Variable W : list Path.
Hypothesis F_in_W : F ∈ W.

Lemma confined_ret {A} (a : A) : confined F W (ret a).
Proof. by intros st Hop. Qed.

Lemma confined_raise {A} (e : exn) : confined F W (raise (A := A) e).
Proof. by intros st Hop. Qed.

Lemma confined_lift {A} (r : exn + A) : confined F W (lift r).
Proof. intros st Hop. by destruct r. Qed.

Lemma confined_get_slots : confined F W get_slots.
Proof. by intros st Hop. Qed.

Lemma confined_get_fs : confined F W get_fs.
Proof. by intros st Hop. Qed.

Lemma confined_bind {A B} (m : M A) (k : A -> M B) :
  confined F W m -> (forall a, confined F W (k a)) -> confined F W (bind m k).
Proof.
  intros Hm Hk st Hop. unfold bind. destruct (Hm st Hop) as [Hop' Hfs].
  destruct (m st) as [[e | a] st']; cbn [snd] in *; [done |].
  destruct (Hk a st' Hop') as [Hop'' Hfs'']. split; [exact Hop'' |].
  intros q Hq. by rewrite Hfs'', Hfs.
Qed.

Lemma confined_for_each {A} (l : list A) (body : A -> M unit) :
  (forall x, confined F W (body x)) -> confined F W (for_each l body).
Proof.
  intros Hbody. induction l as [| x l IH]; cbn [for_each].
  - apply confined_ret.
  - apply confined_bind; [apply Hbody | intros _; exact IH].
Qed.

Lemma confined_getattr_default (name : string) (d : value) :
  confined F W (getattr_default name d).
Proof. by intros st Hop. Qed.

(** Reading the store or the path of an opened track gives [F]. *)
Lemma confined_flac_bind {B} (attr : string) (k : Mutagen.FLAC -> M B) :
  (forall tags pics, confined F W (k (Mutagen.mkFLAC F tags pics))) ->
  confined F W (bind (flac attr) k).
Proof.
  intros Hk st Hop. destruct Hop as [(tags & pics & Hflac) Hpath] eqn:E.
  rewrite (bind_inr _ _ _ _ _ (flac_slot _ attr _ _ _ Hflac)). by apply Hk.
Qed.

Lemma confined_getattr_flac_bind {B} (k : value -> M B) :
  (forall tags pics, confined F W (k (VFlac F tags pics))) ->
  confined F W (bind (getattr "flac") k).
Proof.
  intros Hk st Hop. destruct Hop as [(tags & pics & Hflac) Hpath] eqn:E.
  rewrite (bind_inr _ _ _ _ _ (getattr_slot _ _ _ Hflac)). by apply Hk.
Qed.

Lemma confined_getattr_path_bind {B} (k : value -> M B) :
  confined F W (k (VPath F)) -> confined F W (bind (getattr "path") k).
Proof.
  intros Hk st Hop. destruct Hop as [Hflac Hpath] eqn:E.
  rewrite (bind_inr _ _ _ _ _ (getattr_slot _ _ _ Hpath)). by apply Hk.
Qed.

Lemma confined_path_bind {B} (attr : string) (k : Path -> M B) :
  confined F W (k F) -> confined F W (bind (path attr) k).
Proof.
  intros Hk st Hop. destruct Hop as [Hflac Hpath] eqn:E.
  rewrite (bind_inr _ _ _ _ _ (path_slot _ attr _ Hpath)). by apply Hk.
Qed.

Lemma confined_mutate_flac (tags : Mutagen.Tags) (pics : list picture) :
  confined F W (mutate_flac (Mutagen.mkFLAC F tags pics)).
Proof.
  intros st [Hflac Hpath]. split; [| done]. split.
  - exists tags, pics. cbn. apply lookup_insert_eq.
  - cbn. by rewrite lookup_insert_ne.
Qed.

Lemma confined_cover (v : value) :
  confined F W (__setattr__ "cover" v).
Proof.
  intros st [(tags & pics & Hflac) Hpath]. split; [| done]. split.
  - exists tags, pics. cbn. by rewrite lookup_insert_ne.
  - cbn. by rewrite lookup_insert_ne.
Qed.

Lemma confined_mutate_cover (img : Image) : confined F W (mutate_cover img).
Proof. apply (confined_cover (VImage img)). Qed.

Lemma confined_put_fs (st : State) (files : gmap Path bytes) :
  opened F st ->
  (forall q, q ∉ W -> files !! q = fs st !! q) ->
  opened F (snd (put_fs files st)) /\
  forall q, q ∉ W -> fs (snd (put_fs files st)) !! q = fs st !! q.
Proof. intros Hop Hfiles. split; [exact Hop | exact Hfiles]. Qed.

Lemma not_in_W (q p : Path) : q ∉ W -> p ∈ W -> p <> q.
Proof. intros Hq Hp ->. contradiction. Qed.

Lemma confined_flac_save (target : Path) : target ∈ W -> confined F W (flac_save target).
Proof.
  intros Htarget. unfold flac_save. apply confined_flac_bind. intros tags pics.
  intros st Hop. unfold bind, get_fs, lift. cbn [Mutagen.tags Mutagen.pictures].
  unfold Mutagen.save. destruct (fs st !! target) as [[] |]; try done.
  destruct (Mutagen.validate tags); [| done].
  apply confined_put_fs; [exact Hop |].
  intros q Hq. apply lookup_insert_ne. by apply not_in_W.
Qed.

Lemma confined_save : confined F W save.
Proof.
  unfold save. apply confined_bind.
  - apply confined_for_each. intros [key native].
    apply confined_bind; [apply confined_getattr_default | intros v].
    apply confined_getattr_flac_bind. intros tags pics. apply confined_mutate_flac.
  - intros _. apply confined_getattr_path_bind. by apply confined_flac_save.
Qed.

Lemma confined_remove_cover : confined F W remove_cover.
Proof.
  unfold remove_cover. apply confined_flac_bind. intros tags pics.
  cbn [Mutagen.filename Mutagen.tags Mutagen.pictures].
  apply confined_bind; [apply confined_mutate_flac | intros _].
  by apply confined_flac_save.
Qed.

Lemma confined_add_cover (p : Path) : confined F W (add_cover p).
Proof.
  unfold add_cover. destruct (contains _ _); [| apply confined_raise].
  apply confined_bind; [apply confined_get_fs | intros files].
  apply confined_bind.
  { destruct (files !! p); [apply confined_ret | apply confined_raise]. }
  intros content. apply confined_bind; [apply confined_remove_cover | intros _].
  apply confined_flac_bind. intros tags pics.
  cbn [Mutagen.filename Mutagen.tags Mutagen.pictures].
  apply confined_bind; [apply confined_mutate_flac | intros _].
  by apply confined_flac_save.
Qed.

Lemma confined_delete_tags : confined F W delete_tags.
Proof.
  intros st Hop. destruct Hop as [(tags & pics & Hflac) Hpath] eqn:E.
  destruct (is_flac_file (fs st !! F)) eqn:Hfile.
  - rewrite (delete_tags_ok _ _ _ _ Hflac Hfile). cbn [snd fs]. split.
    + split; cbn [slots]; [exists [], pics; apply lookup_insert_eq |].
      by rewrite lookup_insert_ne.
    + intros q Hq. apply lookup_insert_ne. by apply not_in_W.
  - by rewrite (delete_tags_missing _ _ _ _ Hflac Hfile).
Qed.

Lemma confined_read_cover : confined F W read_cover.
Proof.
  unfold read_cover. apply confined_flac_bind. intros tags pics.
  cbn [Mutagen.pictures]. destruct pics as [| pic rest]; [apply confined_ret |].
  apply confined_bind; [apply confined_lift | intros img].
  apply confined_bind; [apply confined_cover | intros _; apply confined_ret].
Qed.

Lemma confined_write_file (p : Path) (content : bytes) :
  p ∈ W -> confined F W (write_file p content).
Proof.
  intros Hp st Hop. split; [exact Hop |]. intros q Hq. cbn.
  apply lookup_insert_ne. by apply not_in_W.
Qed.

Lemma confined_unlink (p : Path) : p ∈ W -> confined F W (unlink p).
Proof.
  intros Hp st Hop. unfold unlink, bind, get_fs.
  destruct (fs st !! p); [| done]. split; [exact Hop |]. intros q Hq. cbn.
  apply lookup_delete_ne. by apply not_in_W.
Qed.

Lemma confined_pil_save (codec : PIL.Codec) (img : Image) (p : Path) (fmt : string)
    (tags : gmap Z string) :
  p ∈ W -> confined F W (PIL.save codec img p fmt tags).
Proof.
  intros Hp st Hop. unfold PIL.save, bind, get_fs.
  destruct (codec img fmt tags (fs st !! p)) as [[e [partial |]] | content];
    (split; [exact Hop |]); intros q Hq; cbn.
  - apply lookup_insert_ne. by apply not_in_W.
  - apply lookup_delete_ne. by apply not_in_W.
  - apply lookup_insert_ne. by apply not_in_W.
Qed.

Lemma confined_resize_cover (codec : PIL.Codec) (w : Z) (extension : option string) :
  Pathlib.joinpath (Pathlib.parent F) "temp_cover.jpg" ∈ W ->
  Pathlib.joinpath (Pathlib.parent F) "temp_cover.png" ∈ W ->
  confined F W (resize_cover codec w extension).
Proof.
  intros Hjpg Hpng. unfold resize_cover.
  destruct (negb _) eqn:Hguard; [apply confined_raise |].
  apply negb_false_iff in Hguard.
  apply confined_bind; [apply confined_read_cover | intros [image |]];
    [| apply confined_raise].
  apply confined_bind; [apply confined_mutate_cover | intros _].
  apply confined_bind; [apply confined_lift | intros aspect_ratio].
  apply confined_bind; [apply confined_lift | intros quotient].
  apply confined_bind; [apply confined_lift | intros h].
  apply confined_bind; [apply confined_lift | intros image'].
  apply confined_bind; [apply confined_mutate_cover | intros _].
  apply confined_path_bind.
  assert (Htemp : Pathlib.joinpath (Pathlib.parent F)
                    ("temp_cover." +:+
                     match extension with
                     | Some e => remove_e (Mutagen.lower e)
                     | None =>
                         if String.eqb
                              (format (mkImage (format image) (image_width image)
                                         (image_height image)
                                         (<[315 := "Blinzy a.k.a L4zzur"]>
                                            (<[305 := "Chemz v. 0.1.0"]> (exif image)))))
                              "PNG"
                         then "png" else "jpg"
                     end) ∈ W).
  { destruct extension as [e |].
    - apply contains_spec in Hguard.
      repeat (apply elem_of_cons in Hguard as [-> | Hguard]; [assumption |]).
      by apply elem_of_nil in Hguard.
    - by destruct (String.eqb _ _). }
  apply confined_bind; [by apply confined_pil_save | intros _].
  apply confined_bind; [apply confined_add_cover | intros _].
  by apply confined_unlink.
Qed.

End Confined.

Lemma opened_track (st : State) (F : Path) (tags : Mutagen.Tags) (pics : list picture) :
  slots st !! "flac" = Some (VFlac F tags pics) ->
  slots st !! "path" = Some (VPath F) ->
  opened F st.
Proof. intros Hflac Hpath. split; [by exists tags, pics | exact Hpath]. Qed.

(** X26.  On a track opened on a FLAC file, [save],
    [remove_cover], [add_cover] and [delete_tags] change no file other
    than that one, whatever they return or raise. *)
Theorem writers_touch_only_flac_file (st : State) (F q : Path) (tags : Mutagen.Tags)
    (pics : list picture) :
  slots st !! "flac" = Some (VFlac F tags pics) ->
  slots st !! "path" = Some (VPath F) ->
  q <> F ->
  fs (snd (save st)) !! q = fs st !! q /\
  fs (snd (remove_cover st)) !! q = fs st !! q /\
  (forall p, fs (snd (add_cover p st)) !! q = fs st !! q) /\
  fs (snd (delete_tags st)) !! q = fs st !! q.
Proof.
  intros Hflac Hpath Hq.
  pose proof (opened_track _ _ _ _ Hflac Hpath) as Hop.
  assert (HF : F ∈ [F]) by (apply elem_of_cons; by left).
  assert (Hout : q ∉ [F]).
  { intros H. apply elem_of_cons in H as [-> | H]; [done | by apply elem_of_nil in H]. }
  split; [| split; [| split]].
  - by apply (confined_save F [F] HF st Hop).
  - by apply (confined_remove_cover F [F] HF st Hop).
  - intros p. by apply (confined_add_cover F [F] HF p st Hop).
  - by apply (confined_delete_tags F [F] HF st Hop).
Qed.

Lemma writers_touch_only_flac_file_witness :
  fs (snd (save track_and_art)) !! front = Some (Encoded photo) /\
  fs (snd (add_cover front track_and_art)) !! front = Some (Encoded photo).
Proof.
  destruct (writers_touch_only_flac_file track_and_art song front
              [("TITLE", VStr "So What"); ("ARTIST", VStr "Miles Davis")] []
              ltac:(vm_compute; reflexivity) ltac:(vm_compute; reflexivity)
              ltac:(discriminate)) as (Hsave & _ & Hadd & _).
  split.
  - rewrite Hsave. vm_compute. reflexivity.
  - rewrite Hadd. vm_compute. reflexivity.
Defined.

(** X27.  On a track opened on a FLAC file, [resize_cover] changes
    no file other than that one and the temporary cover file next to it,
    whatever it returns or raises. *)
Theorem resize_cover_touches_two_files (codec : PIL.Codec) (st : State) (F q : Path)
    (tags : Mutagen.Tags) (pics : list picture) (w : Z) (extension : option string) :
  slots st !! "flac" = Some (VFlac F tags pics) ->
  slots st !! "path" = Some (VPath F) ->
  q <> F ->
  q <> Pathlib.joinpath (Pathlib.parent F) "temp_cover.jpg" ->
  q <> Pathlib.joinpath (Pathlib.parent F) "temp_cover.png" ->
  fs (snd (resize_cover codec w extension st)) !! q = fs st !! q.
Proof.
  intros Hflac Hpath HF Hjpg Hpng.
  pose proof (opened_track _ _ _ _ Hflac Hpath) as Hop.
  set (W := [F; Pathlib.joinpath (Pathlib.parent F) "temp_cover.jpg";
             Pathlib.joinpath (Pathlib.parent F) "temp_cover.png"]).
  apply (confined_resize_cover F W); [| | | exact Hop |].
  - apply elem_of_cons. by left.
  - apply elem_of_cons. right. apply elem_of_cons. by left.
  - apply elem_of_cons. right. apply elem_of_cons. right. apply elem_of_cons. by left.
  - subst W. intros H.
    repeat (apply elem_of_cons in H as [-> | H]; [done |]). by apply elem_of_nil in H.
Qed.

Lemma resize_cover_touches_two_files_witness :
  fs (snd (resize_cover plain 300 None
             (mkState (slots (cover_track photo))
                (<[front := Encoded scan]> (cover_disk photo))))) !! front =
    Some (Encoded scan).
Proof.
  rewrite (resize_cover_touches_two_files plain
             (mkState (slots (cover_track photo)) (<[front := Encoded scan]> (cover_disk photo)))
             song front [("TITLE", VStr "So What")]
             [Picture "image/jpeg" (Encoded photo)] 300 None
             ltac:(vm_compute; reflexivity) ltac:(vm_compute; reflexivity)
             ltac:(discriminate) ltac:(discriminate) ltac:(discriminate)).
  vm_compute. reflexivity.
Defined.
